(** * Kinetic Particles: gesture classifier, debouncer, shape library, morph engine

    A shallow embedding of the algorithmic core of the repository:

    - [src/services/handTrackingService.ts] (the later of its two
      revisions): [distance], [calculateTension], [detectGesture],
      [processResults];
    - [src/App.tsx] (the later of its two revisions): the gesture debounce
      effect;
    - [components/ParticleSystem.tsx] (its text is in [src/Playbooks.md]):
      [generateTextPoints], [GenerateParticles] and the start of the
      [useFrame] loop;
    - [src/types.ts]: [ParticleShape] and the declared [GestureType].

    JavaScript numbers are IEEE-754 binary64 values.  The code is written
    once, over an interface [JsNumber] of the arithmetic it uses, and the
    interface has two instances: [Float64] (Rocq's primitive binary64 floats,
    the arithmetic the program really runs on, with NaN and infinities) and
    [Ideal] (the real numbers, the arithmetic the program approximates). *)

From Stdlib Require Import Floats ZArith NArith QArith Qreals Reals Lra Lia List Bool
  String Ascii Arith.
Import ListNotations.

Close Scope Q_scope.

(* ================================================================== *)
(** * JavaScript numbers *)
(* ================================================================== *)

Class JsNumber (num : Type) := {
  of_Z : Z -> num;                  (* an integer value *)
  add : num -> num -> num;          (* a + b *)
  sub : num -> num -> num;          (* a - b *)
  neg : num -> num;                 (* -a *)
  mul : num -> num -> num;          (* a * b *)
  div : num -> num -> num;          (* a / b *)
  sqrt : num -> num;                (* Math.sqrt(a) *)
  abs : num -> num;                 (* Math.abs(a) *)
  max : num -> num -> num;          (* Math.max(a, b) *)
  min : num -> num -> num;          (* Math.min(a, b) *)
  ltb : num -> num -> bool;         (* a < b *)
  or_else : num -> num -> num       (* a || b, for numbers a and b *)
}.

Declare Scope js_scope.
Delimit Scope js_scope with js.
Infix "+" := add : js_scope.
Infix "-" := sub : js_scope.
Infix "*" := mul : js_scope.
Infix "/" := div : js_scope.
Notation "- a" := (neg a) : js_scope.
Infix "<?" := ltb : js_scope.
Notation "a >? b" := (ltb b a) : js_scope.
Infix "||" := or_else : js_scope.

(** A decimal literal of the source text.  The quotient of two exactly
    represented integers is the correctly rounded value of the decimal, which
    is the value a JavaScript literal denotes. *)
Definition lit {num} `{JsNumber num} (q : Q) : num :=
  div (of_Z (Qnum q)) (of_Z (Zpos (Qden q))).

(** ** binary64 *)

Module F64.

(** The binary64 value of an integer; exact below 2^53, which covers the
    integers of the program (literals, array lengths, loop counters). *)
Definition of_Z (z : Z) : float :=
  match z with
  | Z0 => PrimFloat.zero
  | Zpos _ => PrimFloat.of_uint63 (Uint63.of_Z z)
  | Zneg p => PrimFloat.opp (PrimFloat.of_uint63 (Uint63.of_Z (Zpos p)))
  end.

(** [Math.max]: NaN if either argument is NaN; [+0] is larger than [-0]. *)
Definition max (a b : float) : float :=
  if PrimFloat.is_nan a || PrimFloat.is_nan b then PrimFloat.nan
  else if PrimFloat.ltb a b then b
  else if PrimFloat.ltb b a then a
  else if PrimFloat.get_sign a then b else a.

(** [Math.min]: NaN if either argument is NaN; [-0] is smaller than [+0]. *)
Definition min (a b : float) : float :=
  if PrimFloat.is_nan a || PrimFloat.is_nan b then PrimFloat.nan
  else if PrimFloat.ltb a b then a
  else if PrimFloat.ltb b a then b
  else if PrimFloat.get_sign a then a else b.

(** [a || b]: a number is falsy when it is [+0], [-0] or NaN. *)
Definition or_else (a b : float) : float :=
  if PrimFloat.is_nan a || PrimFloat.is_zero a then b else a.

End F64.

#[export] Instance Float64 : JsNumber float := {
  of_Z := F64.of_Z;
  add := PrimFloat.add;
  sub := PrimFloat.sub;
  neg := PrimFloat.opp;
  mul := PrimFloat.mul;
  div := PrimFloat.div;
  sqrt := PrimFloat.sqrt;
  abs := PrimFloat.abs;
  max := F64.max;
  min := F64.min;
  ltb := PrimFloat.ltb;
  or_else := F64.or_else
}.

(** ** Real numbers *)

Module Re.

Definition ltb (a b : R) : bool := if Rlt_dec a b then true else false.

Definition or_else (a b : R) : R := if Req_dec_T a 0%R then b else a.

End Re.

#[export] Instance Ideal : JsNumber R := {
  of_Z := IZR;
  add := Rplus;
  sub := Rminus;
  neg := Ropp;
  mul := Rmult;
  div := Rdiv;
  sqrt := R_sqrt.sqrt;
  abs := Rabs;
  max := Rmax;
  min := Rmin;
  ltb := Re.ltb;
  or_else := Re.or_else
}.

(** ** The Math object and typed arrays

    ECMAScript leaves the accuracy of the transcendental functions to the
    implementation, so they are an interface of their own.  [to_index] is the
    array index that a number denotes when it is used as a subscript, and
    [fround] the rounding of a store into a [Float32Array]. *)

Class JsMath (num : Type) := {
  Math_PI : num;
  Math_sin : num -> num;
  Math_cos : num -> num;
  Math_acos : num -> num;
  Math_cbrt : num -> num;
  Math_pow : num -> num -> num;
  Math_floor : num -> num;
  fround : num -> num;
  to_index : num -> option nat
}.

(** The real functions that [Math] approximates.  Where JavaScript
    answers NaN (a negative base with a fractional exponent) the real power
    is set to 0; no statement below depends on it. *)
Module ReMath.

Definition cbrt (a : R) : R :=
  if Rlt_dec 0 a then Rpower a (/ 3)
  else if Rlt_dec a 0 then - Rpower (- a) (/ 3)
  else 0.

Definition pow (a b : R) : R :=
  if Req_dec_T b (IZR (Int_part b)) then powerRZ a (Int_part b)
  else if Rlt_dec 0 a then Rpower a b
  else 0.

Definition floor (a : R) : R := IZR (Int_part a).

Definition to_index (a : R) : option nat :=
  if Rle_dec 0 a then
    if Req_dec_T a (IZR (Int_part a)) then Some (Z.to_nat (Int_part a)) else None
  else None.

End ReMath.

#[export] Instance Ideal_math : JsMath R := {
  Math_PI := PI;
  Math_sin := sin;
  Math_cos := cos;
  Math_acos := acos;
  Math_cbrt := ReMath.cbrt;
  Math_pow := ReMath.pow;
  Math_floor := ReMath.floor;
  fround := fun a => a;
  to_index := ReMath.to_index
}.

(* ================================================================== *)
(** * src/types.ts *)
(* ================================================================== *)

Inductive ParticleShape :=
  | SPHERE | HEART | FLOWER | SATURN | BUDDHA | FIREWORKS | GALAXY | DNA | TEXT.

(** The string literals that the code uses as gesture values. *)
Inductive Gesture :=
  | none | open | fist | victory | love | thumbs_up | point.

Definition gesture_literal (g : Gesture) : string :=
  match g with
  | none => "none"
  | open => "open"
  | fist => "fist"
  | victory => "victory"
  | love => "love"
  | thumbs_up => "thumbs_up"
  | point => "point"
  end.

(** [export type GestureType = 'none' | 'open' | 'fist' | 'victory';]
    the members of the declared union, in the order of the declaration. *)
Definition GestureType : list string := ["none"; "open"; "fist"; "victory"]%string.

Definition Gesture_eqb (a b : Gesture) : bool :=
  match a, b with
  | none, none | open, open | fist, fist | victory, victory
  | love, love | thumbs_up, thumbs_up | point, point => true
  | _, _ => false
  end.

(* ================================================================== *)
(** * src/services/handTrackingService.ts *)
(* ================================================================== *)

(** Reading a property of [undefined] throws a TypeError: a computation
    that indexes an array is an [option], [None] being the exception. *)
Definition bind {A B} (m : option A) (f : A -> option B) : option B :=
  match m with Some a => f a | None => None end.

Notation "'let*' x ':=' m 'in' k" := (bind m (fun x => k))
  (at level 10, x name, m at level 100, k at level 200).

Fixpoint foldM {A S} (f : S -> A -> option S) (l : list A) (s : S) : option S :=
  match l with
  | [] => Some s
  | a :: l' => let* s' := f s a in foldM f l' s'
  end.

Section HandTracking.
Context {num : Type} `{JsNumber num}.
Local Open Scope js_scope.

Record NormalizedLandmark := Landmark { x : num; y : num; z : num }.

Record HandState := {
  tension : num;
  detected : bool;
  leftHand : bool;
  rightHand : bool;
  gesture : Gesture
}.

(** The part of a MediaPipe [Results] object that [processResults] reads;
    a handedness entry is represented by its [label]. *)
Record Results := {
  multiHandLandmarks : option (list (list NormalizedLandmark));
  multiHandedness : option (list string)
}.

Definition distance (a b : NormalizedLandmark) : num :=
  let dx := x a - x b in
  let dy := y a - y b in
  let dz := (z a || lit 0) - (z b || lit 0) in
  sqrt (dx * dx + dy * dy + dz * dz).

Definition fingerTips : list nat := [4; 8; 12; 16; 20]%nat.
Definition fingerBases : list nat := [2; 5; 9; 13; 17]%nat.

(** [Math.max(0, Math.min(1, (1.5 - extension) / 1.0))] *)
Definition curl_of (extension : num) : num :=
  max (lit 0) (min (lit 1) ((lit 1.5 - extension) / lit 1.0)).

(** One iteration of the loop of [calculateTension]. *)
Definition curl_step (landmarks : list NormalizedLandmark)
    (palmBase : NormalizedLandmark) (palmSize : num)
    (totalCurl : num) (i : nat) : option num :=
  let* ti := nth_error fingerTips i in
  let* bi := nth_error fingerBases i in
  let* tip := nth_error landmarks ti in
  let* base := nth_error landmarks bi in
  let tipToPalm := distance tip palmBase in
  let baseToPalm := distance base palmBase in
  let extension := tipToPalm / palmSize in
  let curl := curl_of extension in
  Some (totalCurl + curl).

Definition calculateTension (landmarks : list NormalizedLandmark) : option num :=
  let* wrist := nth_error landmarks 0 in
  let* palmBase := nth_error landmarks 9 in
  let palmSize := distance wrist palmBase in
  let* totalCurl :=
    foldM (curl_step landmarks palmBase palmSize)
          (seq 0 (List.length fingerTips)) (lit 0) in
  let avgCurl := totalCurl / lit 5 in
  Some (max (lit 0) (min (lit 1) avgCurl)).

(** The finger states computed at the top of [detectGesture]. *)
Record FingerStates := {
  indexExtended : bool;
  middleExtended : bool;
  ringExtended : bool;
  ringCurled : bool;
  pinkyExtended : bool;
  pinkyCurled : bool;
  thumbExtended : bool
}.

Definition fingerStates (landmarks : list NormalizedLandmark) : option FingerStates :=
  let* wrist := nth_error landmarks 0 in
  let* palmBase := nth_error landmarks 9 in
  let palmSize := distance wrist palmBase in
  let* indexTip := nth_error landmarks 8 in
  let* indexPIP := nth_error landmarks 6 in
  let indexExtended := distance indexTip wrist >? distance indexPIP wrist * lit 1.2 in
  let* middleTip := nth_error landmarks 12 in
  let* middlePIP := nth_error landmarks 10 in
  let middleExtended := distance middleTip wrist >? distance middlePIP wrist * lit 1.2 in
  let* ringTip := nth_error landmarks 16 in
  let* ringPIP := nth_error landmarks 14 in
  let ringExtended := distance ringTip wrist >? distance ringPIP wrist * lit 1.1 in
  let ringCurled := distance ringTip palmBase <? palmSize * lit 1.2 in
  let* pinkyTip := nth_error landmarks 20 in
  let* pinkyPIP := nth_error landmarks 18 in
  let pinkyExtended := distance pinkyTip wrist >? distance pinkyPIP wrist * lit 1.1 in
  let pinkyCurled := distance pinkyTip palmBase <? palmSize * lit 1.2 in
  let* thumbTip := nth_error landmarks 4 in
  let* indexMCP := nth_error landmarks 5 in
  let thumbExtended := distance thumbTip indexMCP >? palmSize * lit 0.6 in
  Some {| indexExtended := indexExtended; middleExtended := middleExtended;
          ringExtended := ringExtended; ringCurled := ringCurled;
          pinkyExtended := pinkyExtended; pinkyCurled := pinkyCurled;
          thumbExtended := thumbExtended |}.

(** The conditions of the four [if] statements of [detectGesture]. *)
Definition isVictory (f : FingerStates) : bool :=
  indexExtended f && middleExtended f && ringCurled f && pinkyCurled f.
Definition isLove (f : FingerStates) : bool :=
  thumbExtended f && indexExtended f && negb (middleExtended f)
  && negb (ringExtended f) && pinkyExtended f.
Definition isThumbsUp (f : FingerStates) : bool :=
  thumbExtended f && negb (indexExtended f) && negb (middleExtended f)
  && negb (ringExtended f) && negb (pinkyExtended f).
Definition isPoint (f : FingerStates) : bool :=
  indexExtended f && negb (middleExtended f) && negb (ringExtended f)
  && negb (pinkyExtended f).

Definition detectGesture (landmarks : list NormalizedLandmark) : option Gesture :=
  let* f := fingerStates landmarks in
  if isVictory f then Some victory
  else if isLove f then Some love
  else if isThumbsUp f then Some thumbs_up
  else if isPoint f then Some point
  else Some none.

(** The variables that the loop of [processResults] updates. *)
Record Scan := {
  totalTension : num;
  sawLeft : bool;
  sawRight : bool;
  detectedGesture : Gesture
}.

(** One iteration of the loop of [processResults], for hand [i]. *)
Definition scan_hand (hands : list (list NormalizedLandmark))
    (handedness : option (list string)) (s : Scan) (i : nat) : option Scan :=
  let* landmarks := nth_error hands i in
  let label := match handedness with
               | Some hs => nth_error hs i
               | None => None
               end in
  let isLeft := match label with
                | Some l => String.eqb l "Left"
                | None => false
                end in
  let rightHand := if isLeft then true else sawRight s in
  let leftHand := if isLeft then sawLeft s else true in
  let* tension := calculateTension landmarks in
  let totalTension := totalTension s + tension in
  let* gesture := detectGesture landmarks in
  let detectedGesture :=
    if negb (Gesture_eqb gesture none) then gesture else detectedGesture s in
  Some {| totalTension := totalTension; sawLeft := leftHand;
          sawRight := rightHand; detectedGesture := detectedGesture |}.

(** [processResults]: the [HandState] passed to [onUpdate]. *)
Definition processResults (results : Results) : option HandState :=
  match multiHandLandmarks results with
  | None | Some [] =>
      Some {| tension := lit 0; detected := false; leftHand := false;
              rightHand := false; gesture := none |}
  | Some hands =>
      let* s := foldM (scan_hand hands (multiHandedness results))
                      (seq 0 (List.length hands))
                      {| totalTension := lit 0; sawLeft := false;
                         sawRight := false; detectedGesture := none |} in
      let avgTension := totalTension s / of_Z (Z.of_nat (List.length hands)) in
      let detectedGesture :=
        if Gesture_eqb (detectedGesture s) none then
          if avgTension >? lit 0.7 then fist
          else if avgTension <? lit 0.3 then open
          else detectedGesture s
        else detectedGesture s in
      Some {| tension := avgTension; detected := true;
              leftHand := sawLeft s; rightHand := sawRight s;
              gesture := detectedGesture |}
  end.

(** ** Vocabulary of the specification *)

(** [clamp01 a] is [Math.max(0, Math.min(1, a))]. *)
Definition clamp01 (a : num) : num := max (lit 0) (min (lit 1) a).

(** The curl of the finger whose tip is [tip]. *)
Definition finger_curl (wrist palmBase tip : NormalizedLandmark) : num :=
  curl_of (distance tip palmBase / distance wrist palmBase).

(** The landmarks whose coordinates enter the tension. *)
Definition tension_inputs : list nat := [0; 4; 8; 9; 12; 16; 20]%nat.

(** The gesture rules in the priority order of the specification. *)
Definition gesture_rules : list ((FingerStates -> bool) * Gesture) :=
  [(isVictory, victory); (isLove, love); (isThumbsUp, thumbs_up); (isPoint, point)].

Definition specific (g : Gesture) : bool := negb (Gesture_eqb g none).

(** The first and the last specific gesture of a scan, [none] if there is
    no specific gesture in it. *)
Definition first_specific (gs : list Gesture) : Gesture := hd none (filter specific gs).
Definition last_specific (gs : list Gesture) : Gesture := last (filter specific gs) none.

(** The assignment in the loop of [processResults]: a specific gesture
    replaces whatever an earlier hand has set. *)
Definition overwrite (acc g : Gesture) : Gesture := if specific g then g else acc.

(** The gesture derived from the averaged tension. *)
Definition gesture_of_tension (avgTension : num) : Gesture :=
  if avgTension >? lit 0.7 then fist
  else if avgTension <? lit 0.3 then open
  else none.

(** The sum of the tensions, added from left to right. *)
Definition sum_tensions (ts : list num) : num := fold_left add ts (lit 0).

(** First match wins, otherwise [none]. *)
Definition classify_by_priority (f : FingerStates) : Gesture :=
  match find (fun rule => fst rule f) gesture_rules with
  | Some rule => snd rule
  | None => none
  end.

End HandTracking.

Arguments NormalizedLandmark num : clear implicits.
Arguments HandState num : clear implicits.
Arguments Results num : clear implicits.
Arguments Landmark {num} x y z.
Arguments x {num} n.
Arguments y {num} n.
Arguments z {num} n.

(** ** Hand poses used as concrete inputs (binary64) *)

Module Pose.

Definition pt (a b : Q) : NormalizedLandmark float :=
  Landmark (lit a) (lit b) (lit 0).

(** Wrist at the origin, middle-finger MCP at (0,1): palm size 1. *)
Definition hand (thumbTip indexTip indexPIP middleTip middlePIP
                 ringTip ringPIP pinkyTip pinkyPIP : NormalizedLandmark float)
  : list (NormalizedLandmark float) :=
  [ pt 0 0; pt (-0.3) 0.3; pt (-0.5) 0.5; pt (-0.6) 0.7; thumbTip;
    pt (-0.3) 1; indexPIP; pt (-0.3) 1.5; indexTip;
    pt 0 1; middlePIP; pt 0 1.5; middleTip;
    pt 0.3 1; ringPIP; pt 0.3 1.5; ringTip;
    pt 0.6 0.9; pinkyPIP; pt 0.6 1.3; pinkyTip ].

Definition victory_hand :=
  hand (pt (-0.2) 0.8) (pt (-0.3) 2) (pt (-0.3) 1.4) (pt 0 2) (pt 0 1.4)
       (pt 0.3 0.8) (pt 0.3 1.3) (pt 0.5 0.7) (pt 0.6 1.2).

Definition love_hand :=
  hand (pt (-1) 0.8) (pt (-0.3) 2) (pt (-0.3) 1.4) (pt 0 0.8) (pt 0 1.3)
       (pt 0.3 0.8) (pt 0.3 1.3) (pt 0.6 1.8) (pt 0.6 1.2).

Definition thumbs_up_hand :=
  hand (pt (-1) 0.8) (pt (-0.3) 0.8) (pt (-0.3) 1.3) (pt 0 0.8) (pt 0 1.3)
       (pt 0.3 0.8) (pt 0.3 1.3) (pt 0.5 0.7) (pt 0.6 1.2).

Definition point_hand :=
  hand (pt (-0.2) 0.8) (pt (-0.3) 2) (pt (-0.3) 1.4) (pt 0 0.8) (pt 0 1.3)
       (pt 0.3 0.8) (pt 0.3 1.3) (pt 0.5 0.7) (pt 0.6 1.2).

Definition open_hand :=
  hand (pt (-1.5) 1.2) (pt (-0.5) 2.6) (pt (-0.4) 1.6) (pt 0 2.8) (pt 0 1.7)
       (pt 0.5 2.6) (pt 0.4 1.6) (pt 1 2.3) (pt 0.8 1.5).

Definition fist_hand :=
  hand (pt (-0.2) 0.9) (pt (-0.2) 0.8) (pt (-0.3) 1.3) (pt 0 0.8) (pt 0 1.3)
       (pt 0.2 0.8) (pt 0.3 1.3) (pt 0.4 0.8) (pt 0.6 1.2).

(** All 21 landmarks at one place: a degenerate detection. *)
Definition collapsed_hand : list (NormalizedLandmark float) :=
  repeat (pt 0.5 0.5) 21.

(** The same hand with every landmark moved that is not a wrist, a palm
    base or a finger tip. *)
Definition move_joints (lm : list (NormalizedLandmark float))
  : list (NormalizedLandmark float) :=
  map (fun ip => if existsb (Nat.eqb (fst ip)) [0; 4; 8; 9; 12; 16; 20]%nat
                 then snd ip else pt 0.9 0.1)
      (combine (seq 0 (List.length lm)) lm).

(** A tick with two hands: the first shows victory, the second points. *)
Definition victory_then_point : Results float :=
  {| multiHandLandmarks := Some [victory_hand; point_hand];
     multiHandedness := Some ["Left"; "Right"]%string |}.

Definition tension_or_zero (lm : list (NormalizedLandmark float)) : float :=
  match calculateTension lm with Some t => t | None => PrimFloat.zero end.

End Pose.

(* ================================================================== *)
(** * src/App.tsx: the gesture debounce effect *)
(* ================================================================== *)

Module App.

(** The closures handed to [setTimeout]: each holds the values of the
    render in which the effect created it. *)
Inductive Callback :=
  | Confirm (gesture currentGesture : Gesture)
            (activeShape : ParticleShape) (particleColor : string)
  | Revert (previousShape : ParticleShape) (previousColor : string).

(** A pending timeout of the page: its handle, the milliseconds left and
    the closure to run. *)
Record Timer := { id : nat; remaining : nat; callback : Callback }.

Record State := {
  handGesture : Gesture;              (* handData.gesture *)
  currentGesture : Gesture;
  activeShape : ParticleShape;
  particleColor : string;
  previousShape : ParticleShape;
  previousColor : string;
  gestureTimerRef : option nat;       (* gestureTimerRef.current *)
  timers : list Timer;                (* timeouts not yet run or cleared *)
  nextId : nat                        (* the next handle setTimeout returns *)
}.

Definition initial : State := {|
  handGesture := none;
  currentGesture := none;
  activeShape := SPHERE;
  particleColor := "#4ade80";
  previousShape := SPHERE;
  previousColor := "#4ade80";
  gestureTimerRef := None;
  timers := [];
  nextId := 1
|}.

Definition specialGestures : list Gesture := [victory; love; thumbs_up; point].

Definition includes (l : list Gesture) (g : Gesture) : bool :=
  existsb (Gesture_eqb g) l.

(** *** State setters *)

Definition setHandGesture (g : Gesture) (s : State) : State :=
  {| handGesture := g; currentGesture := currentGesture s;
     activeShape := activeShape s; particleColor := particleColor s;
     previousShape := previousShape s; previousColor := previousColor s;
     gestureTimerRef := gestureTimerRef s; timers := timers s;
     nextId := nextId s |}.

Definition setCurrentGesture (g : Gesture) (s : State) : State :=
  {| handGesture := handGesture s; currentGesture := g;
     activeShape := activeShape s; particleColor := particleColor s;
     previousShape := previousShape s; previousColor := previousColor s;
     gestureTimerRef := gestureTimerRef s; timers := timers s;
     nextId := nextId s |}.

Definition setActiveShape (sh : ParticleShape) (s : State) : State :=
  {| handGesture := handGesture s; currentGesture := currentGesture s;
     activeShape := sh; particleColor := particleColor s;
     previousShape := previousShape s; previousColor := previousColor s;
     gestureTimerRef := gestureTimerRef s; timers := timers s;
     nextId := nextId s |}.

Definition setParticleColor (c : string) (s : State) : State :=
  {| handGesture := handGesture s; currentGesture := currentGesture s;
     activeShape := activeShape s; particleColor := c;
     previousShape := previousShape s; previousColor := previousColor s;
     gestureTimerRef := gestureTimerRef s; timers := timers s;
     nextId := nextId s |}.

Definition setPreviousShape (sh : ParticleShape) (s : State) : State :=
  {| handGesture := handGesture s; currentGesture := currentGesture s;
     activeShape := activeShape s; particleColor := particleColor s;
     previousShape := sh; previousColor := previousColor s;
     gestureTimerRef := gestureTimerRef s; timers := timers s;
     nextId := nextId s |}.

Definition setPreviousColor (c : string) (s : State) : State :=
  {| handGesture := handGesture s; currentGesture := currentGesture s;
     activeShape := activeShape s; particleColor := particleColor s;
     previousShape := previousShape s; previousColor := c;
     gestureTimerRef := gestureTimerRef s; timers := timers s;
     nextId := nextId s |}.

(** *** Timeouts *)

(** [gestureTimerRef.current = setTimeout(cb, delay)] *)
Definition setTimeout (cb : Callback) (delay : nat) (s : State) : State :=
  {| handGesture := handGesture s; currentGesture := currentGesture s;
     activeShape := activeShape s; particleColor := particleColor s;
     previousShape := previousShape s; previousColor := previousColor s;
     gestureTimerRef := Some (nextId s);
     timers := timers s ++ [{| id := nextId s; remaining := delay; callback := cb |}];
     nextId := S (nextId s) |}.

Definition remove_timer (i : nat) (s : State) : State :=
  {| handGesture := handGesture s; currentGesture := currentGesture s;
     activeShape := activeShape s; particleColor := particleColor s;
     previousShape := previousShape s; previousColor := previousColor s;
     gestureTimerRef := gestureTimerRef s;
     timers := filter (fun t => negb (Nat.eqb (id t) i)) (timers s);
     nextId := nextId s |}.

(** [if (gestureTimerRef.current) clearTimeout(gestureTimerRef.current)] *)
Definition clearTimeout (s : State) : State :=
  match gestureTimerRef s with
  | Some i => remove_timer i s
  | None => s
  end.

(** *** The effect *)

(** The body of the 300 ms and of the 1000 ms closure. *)
Definition run_callback (cb : Callback) (s : State) : State :=
  match cb with
  | Confirm gesture currentGesture activeShape particleColor =>
      let s1 := if negb (includes specialGestures currentGesture)
                then setPreviousColor particleColor (setPreviousShape activeShape s)
                else s in
      let s2 := setCurrentGesture gesture s1 in
      match gesture with
      | victory => setParticleColor "#ffd700" (setActiveShape TEXT s2)
      | love => setParticleColor "#ec4899" (setActiveShape HEART s2)
      | thumbs_up => setParticleColor "#ef4444" (setActiveShape FIREWORKS s2)
      | point => setParticleColor "#06b6d4" (setActiveShape SATURN s2)
      | _ => s2
      end
  | Revert previousShape previousColor =>
      setParticleColor previousColor
        (setActiveShape previousShape (setCurrentGesture none s))
  end.

(** The function passed to [useEffect]. *)
Definition effect (s : State) : State :=
  let gesture := handGesture s in
  if negb (Gesture_eqb gesture (currentGesture s)) then
    let s := clearTimeout s in
    if includes specialGestures gesture then
      setTimeout (Confirm gesture (currentGesture s) (activeShape s) (particleColor s))
                 300 s
    else if includes specialGestures (currentGesture s) then
      setTimeout (Revert (previousShape s) (previousColor s)) 1000 s
    else
      setCurrentGesture gesture s
  else s.

(** The function the effect returns. *)
Definition cleanup (s : State) : State := clearTimeout s.

(** The dependency array of the effect. *)
Definition Deps : Type :=
  (Gesture * Gesture * ParticleShape * string * ParticleShape * string)%type.

Definition deps (s : State) : Deps :=
  (handGesture s, currentGesture s, activeShape s, particleColor s,
   previousShape s, previousColor s).

Definition Deps_eq_dec (a b : Deps) : {a = b} + {a <> b}.
Proof. repeat decide equality. Defined.

(** A render whose dependencies differ from those of the previous one
    runs the old cleanup and then the effect. *)
Definition rerun (s : State) : State := effect (cleanup s).

(** A state update commits, and the effect is re-run as long as the
    dependencies keep changing: the effect itself updates at most once
    ([render_settles] below shows that two passes reach a fixed point). *)
Definition render (before : Deps) (s : State) : State :=
  if Deps_eq_dec before (deps s) then s
  else let s1 := rerun s in
       if Deps_eq_dec (deps s) (deps s1) then s1 else rerun s1.

Definition update (f : State -> State) (s : State) : State :=
  render (deps s) (f s).

(** *** Time *)

(** One millisecond passes for every pending timeout. *)
Definition advance (s : State) : State :=
  {| handGesture := handGesture s; currentGesture := currentGesture s;
     activeShape := activeShape s; particleColor := particleColor s;
     previousShape := previousShape s; previousColor := previousColor s;
     gestureTimerRef := gestureTimerRef s;
     timers := map (fun t => {| id := id t; remaining := pred (remaining t);
                                callback := callback t |}) (timers s);
     nextId := nextId s |}.

Definition due (s : State) : list nat :=
  map id (filter (fun t => Nat.eqb (remaining t) 0) (timers s)).

(** The timeout with handle [i] runs, if it has not been cleared. *)
Definition fire (i : nat) (s : State) : State :=
  match find (fun t => Nat.eqb (id t) i) (timers s) with
  | Some t => update (run_callback (callback t)) (remove_timer i s)
  | None => s
  end.

Definition tick (s : State) : State :=
  let s1 := advance s in
  fold_left (fun s i => fire i s) (due s1) s1.

(** *** Events *)

Inductive Event :=
  | HandUpdate (g : Gesture)          (* onUpdate: setHandData({..., gesture}) *)
  | Tick                              (* one millisecond *)
  | SelectShape (sh : ParticleShape)  (* shape buttons *)
  | SelectColor (c : string)          (* color presets and picker *)
  | SubmitText                        (* setCustomText; setActiveShape(TEXT) *)
  | StopTracking.                     (* handleStopTracking *)

Definition step (s : State) (e : Event) : State :=
  match e with
  | HandUpdate g => update (setHandGesture g) s
  | Tick => tick s
  | SelectShape sh => update (setActiveShape sh) s
  | SelectColor c => update (setParticleColor c) s
  | SubmitText => update (setActiveShape TEXT) s
  | StopTracking => update (fun s => setCurrentGesture none (setHandGesture none s)) s
  end.

Definition run (s : State) (evs : list Event) : State := fold_left step evs s.

Definition ticks (n : nat) : list Event := repeat Tick n.

Inductive reachable : State -> Prop :=
  | reach_initial : reachable initial
  | reach_step s e : reachable s -> reachable (step s e).

(** *** Vocabulary of the specification *)

Definition special (g : Gesture) : bool := includes specialGestures g.


(** The closure of a pending timeout holds the values of the current
    render. *)
Definition closure_current (s : State) (t : Timer) : Prop :=
  match callback t with
  | Confirm g c sh col =>
      g = handGesture s /\ c = currentGesture s /\ sh = activeShape s
      /\ col = particleColor s /\ special g = true /\ remaining t <= 300
  | Revert psh pcol =>
      psh = previousShape s /\ pcol = previousColor s
      /\ special (handGesture s) = false /\ special (currentGesture s) = true
      /\ remaining t <= 1000
  end.

(** The handle in [gestureTimerRef] is one that [setTimeout] has returned. *)
Definition ref_issued (s : State) : Prop :=
  forall i, gestureTimerRef s = Some i -> i < nextId s.

(** Between two events: no timeout is pending when the raw gesture is the
    committed one, and otherwise exactly one is, the one [gestureTimerRef]
    refers to. *)
Definition settled (s : State) : Prop :=
  ref_issued s
  /\ match timers s with
     | [] => handGesture s = currentGesture s
     | [t] => gestureTimerRef s = Some (id t) /\ 1 <= remaining t
              /\ handGesture s <> currentGesture s /\ closure_current s t
     | _ => False
     end.

(** While the effect is being re-run: at most the timeout of
    [gestureTimerRef] is pending. *)
Definition at_most_own_timer (s : State) : Prop :=
  ref_issued s
  /\ (timers s = [] \/ exists t, timers s = [t] /\ gestureTimerRef s = Some (id t)).

(** A state update that leaves the timeouts alone. *)
Definition keeps_timers (f : State -> State) : Prop :=
  forall s, timers (f s) = timers s /\ gestureTimerRef (f s) = gestureTimerRef s
            /\ nextId (f s) = nextId s.

(** The state [s] with the pending timeouts [ts]. *)
Definition with_timers (ts : list Timer) (s : State) : State :=
  {| handGesture := handGesture s; currentGesture := currentGesture s;
     activeShape := activeShape s; particleColor := particleColor s;
     previousShape := previousShape s; previousColor := previousColor s;
     gestureTimerRef := gestureTimerRef s; timers := ts; nextId := nextId s |}.

(** The state [s] after [setTimeout(cb, delay)] with no other timeout pending. *)
Definition armed (cb : Callback) (delay : nat) (s : State) : State :=
  setTimeout cb delay (with_timers [] s).

(** The state the re-runs of the effect end in, from a state [s0] in which
    at most the timeout of [gestureTimerRef] is pending. *)
Definition resolve (s0 : State) : State :=
  let s := with_timers [] s0 in
  if Gesture_eqb (handGesture s) (currentGesture s) then s
  else if special (handGesture s) then
    armed (Confirm (handGesture s) (currentGesture s) (activeShape s) (particleColor s))
          300 s
  else if special (currentGesture s) then
    armed (Revert (previousShape s) (previousColor s)) 1000 s
  else setCurrentGesture (handGesture s) s.

(** The state [s] with [r] milliseconds left on its pending timeout [t]. *)
Definition waiting (t : Timer) (r : nat) (s : State) : State :=
  with_timers [{| id := id t; remaining := r; callback := callback t |}] s.

Definition is_hand_update (e : Event) (g : Gesture) : bool :=
  match e with
  | HandUpdate g' => Gesture_eqb g' g
  | _ => false
  end.

End App.

(* ================================================================== *)
(** * src/components/ParticleSystem.tsx *)
(* ================================================================== *)

(** [customText || '...']: the default greeting of the text shape. *)
Definition defaultText : string := "大雷早上好".

Section ParticleSystem.
Context {num : Type} `{JsNumber num} `{JsMath num}.
Local Open Scope js_scope.

(** [Math_random k] is the value of the [k]-th call of [Math.random()]. *)
Variable Math_random : nat -> num.

(** [canvas_pixels text] is the [data] array of the [ImageData] read back
    after [text] has been drawn on the 600 x 150 canvas. *)
Variable canvas_pixels : string -> nat -> nat.

(** A computation that draws random numbers and may throw: the state is
    the number of calls of [Math.random()] made so far. *)
Definition Gen (A : Type) : Type := nat -> option (A * nat).

Definition ret {A} (a : A) : Gen A := fun n => Some (a, n).

Definition bindG {A B} (m : Gen A) (f : A -> Gen B) : Gen B :=
  fun n => match m n with
           | Some (a, n') => f a n'
           | None => None
           end.

Definition random : Gen num := fun n => Some (Math_random n, S n).

Definition throw {A} : Gen A := fun _ => None.

Notation "x <- m ;; k" := (bindG m (fun x => k))
  (at level 61, m at next level, right associativity).

Definition of_nat (n : nat) : num := of_Z (Z.of_nat n).

(** [new Float32Array(n)] *)
Definition Float32Array (n : nat) : list num := repeat (lit 0) n.

(** [positions[i] = v] on a [Float32Array]: a store beyond the end of the
    array is ignored. *)
Definition store (positions : list num) (i : nat) (v : num) : list num :=
  if Nat.ltb i (List.length positions)
  then firstn i positions ++ fround v :: skipn (S i) positions
  else positions.

Definition Point : Type := (num * num * num)%type.

Definition store_point (positions : list num) (i : nat) (p : Point) : list num :=
  let '(px, py, pz) := p in
  let i3 := (i * 3)%nat in
  store (store (store positions i3 px) (i3 + 1) py) (i3 + 2) pz.

(** ** generateTextPoints *)

Definition width : nat := 600.
Definition height : nat := 150.

(** The two nested scanning loops: every second pixel of every second
    row, kept when its red channel exceeds 100. *)
Definition textPixels (pixels : nat -> nat) : list (nat * nat) :=
  let step := 2%nat in
  flat_map (fun py =>
    flat_map (fun px =>
      let i := ((py * width + px) * 4)%nat in
      if Nat.ltb 100 (pixels i) then [(px, py)] else [])
      (map (fun k => (k * step)%nat) (seq 0 (width / step))))
    (map (fun k => (k * step)%nat) (seq 0 (height / step))).

(** The body of the filling loop of [generateTextPoints]. *)
Definition text_point (found : list (nat * nat)) (i : nat) : Gen Point :=
  let scale := lit 0.035 in
  let offsetX := of_nat width / lit 2 in
  let offsetY := of_nat height / lit 2 in
  if Nat.ltb 0 (List.length found) then
    match nth_error found (i mod List.length found) with
    | Some (px, py) =>
        r1 <- random ;;
        let pz := (r1 - lit 0.5) * lit 0.2 in
        r2 <- random ;;
        let jitterX := (r2 - lit 0.5) * lit 0.05 in
        r3 <- random ;;
        let jitterY := (r3 - lit 0.5) * lit 0.05 in
        ret ((of_nat px - offsetX) * scale + jitterX,
             - (of_nat py - offsetY) * scale + jitterY,
             pz)
    | None => throw
    end
  else
    let col := (i mod 20)%nat in
    let row := ((i / 20) mod 10)%nat in
    ret ((of_nat col - lit 10) * lit 0.3, (of_nat row - lit 5) * lit 0.3, lit 0).

(** A [for (let i = 0; i < count; i++)] loop that stores one point per
    iteration; [i] is the current index and [todo] the iterations left. *)
Fixpoint fill (point : nat -> Gen Point) (i todo : nat) (positions : list num)
  : Gen (list num) :=
  match todo with
  | O => ret positions
  | S todo' =>
      p <- point i ;;
      fill point (S i) todo' (store_point positions i p)
  end.

Definition generateTextPoints_into (text : string) (count : nat)
    (positions : list num) : Gen (list num) :=
  fill (text_point (textPixels (canvas_pixels text))) 0 count positions.

Definition generateTextPoints (text : string) (count : nat) : Gen (list num) :=
  generateTextPoints_into text count (Float32Array (count * 3)).

(** ** GenerateParticles *)

(** A point of a ball: radius [r], angles [theta] and [phi]. *)
Definition spherical (r theta phi : num) : Point :=
  (r * Math_sin phi * Math_cos theta,
   r * Math_sin phi * Math_sin theta,
   r * Math_cos phi).

Definition sphere_point : Gen Point :=
  r1 <- random ;; let r := lit 4 * Math_cbrt r1 in
  r2 <- random ;; let theta := r2 * lit 2 * Math_PI in
  r3 <- random ;; let phi := Math_acos (lit 2 * r3 - lit 1) in
  ret (spherical r theta phi).

Definition heart_point : Gen Point :=
  r1 <- random ;; let t := r1 * Math_PI * lit 2 in
  r <- random ;;
  let hx := lit 16 * Math_pow (Math_sin t) (lit 3) in
  let hy := lit 13 * Math_cos t - lit 5 * Math_cos (lit 2 * t)
            - lit 2 * Math_cos (lit 3 * t) - Math_cos (lit 4 * t) in
  let hx := hx * lit 0.25 in
  let hy := hy * lit 0.25 in
  r2 <- random ;; let hz := (r2 - lit 0.5) * lit 2 in
  ret (hx * r, hy * r, hz * r).

Definition flower_point : Gen Point :=
  let petals := lit 6 in
  r1 <- random ;; let theta := r1 * lit 2 * Math_PI in
  let rMax := Math_cos (petals * theta) + lit 2 in
  r2 <- random ;; let r := r2 * rMax * lit 1.5 in
  let px := r * Math_cos theta in
  let py := r * Math_sin theta in
  r3 <- random ;; let pz := (r3 - lit 0.5) * lit 1.5 in
  r4 <- random ;;
  if r4 <? lit 0.2 then
    r5 <- random ;; let cr := r5 * lit 1 in
    r6 <- random ;; let ctheta := r6 * lit 2 * Math_PI in
    r7 <- random ;; let cphi := Math_acos (lit 2 * r7 - lit 1) in
    ret (spherical cr ctheta cphi)
  else ret (px, py, pz).

Definition saturn_point : Gen Point :=
  r0 <- random ;;
  if r0 <? lit 0.6 then
    r1 <- random ;; let r := lit 2 * Math_cbrt r1 in
    r2 <- random ;; let theta := r2 * lit 2 * Math_PI in
    r3 <- random ;; let phi := Math_acos (lit 2 * r3 - lit 1) in
    ret (r * Math_sin phi * Math_cos theta,
         r * Math_sin phi * Math_sin theta * lit 0.9,
         r * Math_cos phi)
  else
    r1 <- random ;; let ringRadius := lit 3 + r1 * lit 1.5 in
    r2 <- random ;; let ringTheta := r2 * lit 2 * Math_PI in
    r3 <- random ;; let ringHeight := (r3 - lit 0.5) * lit 0.15 in
    ret (ringRadius * Math_cos ringTheta, ringHeight, ringRadius * Math_sin ringTheta).

Definition buddha_point : Gen Point :=
  section <- random ;;
  if section <? lit 0.25 then
    r1 <- random ;; let r := lit 1 * Math_cbrt r1 in
    r2 <- random ;; let theta := r2 * lit 2 * Math_PI in
    r3 <- random ;; let phi := Math_acos (lit 2 * r3 - lit 1) in
    ret (r * Math_sin phi * Math_cos theta * lit 0.8,
         r * Math_sin phi * Math_sin theta * lit 1 + lit 3,
         r * Math_cos phi * lit 0.8)
  else if section <? lit 0.5 then
    r1 <- random ;; let r := lit 1.5 * Math_cbrt r1 in
    r2 <- random ;; let theta := r2 * lit 2 * Math_PI in
    r3 <- random ;; let phi := Math_acos (lit 2 * r3 - lit 1) in
    ret (r * Math_sin phi * Math_cos theta,
         r * Math_sin phi * Math_sin theta * lit 1.5 + lit 0.5,
         r * Math_cos phi * lit 0.8)
  else if section <? lit 0.7 then
    r1 <- random ;; let r := lit 2 * Math_cbrt r1 in
    r2 <- random ;; let theta := r2 * lit 2 * Math_PI in
    r3 <- random ;;
    ret (r * Math_cos theta,
         - lit 1.5 + r3 * lit 0.5,
         r * Math_sin theta * lit 0.4)
  else
    r1 <- random ;; let ringRadius := lit 1.5 + r1 * lit 0.3 in
    r2 <- random ;; let ringTheta := r2 * lit 2 * Math_PI in
    r3 <- random ;;
    ret (ringRadius * Math_cos ringTheta,
         lit 3 + ringRadius * Math_sin ringTheta * lit 0.3,
         (r3 - lit 0.5) * lit 0.2).

Definition burstCenters : list Point :=
  [ (lit 0, lit 2, lit 0);
    (- lit 2, lit 1, lit 1);
    (lit 2, lit 0.5, - lit 1);
    (- lit 1, - lit 0.5, - lit 1.5);
    (lit 1.5, - lit 1, lit 1) ].

(** [burstCenters[burstPoint]]: [undefined] when [burstPoint] is not one
    of the indices of the array. *)
Definition burst_center (burstPoint : num) : option Point :=
  match to_index burstPoint with
  | Some k => nth_error burstCenters k
  | None => None
  end.

Definition fireworks_point : Gen Point :=
  r0 <- random ;; let burstPoint := Math_floor (r0 * lit 5) in
  match burst_center burstPoint with
  | Some (cx, cy, cz) =>
      r1 <- random ;; let r := r1 * lit 2 in
      r2 <- random ;; let theta := r2 * lit 2 * Math_PI in
      r3 <- random ;; let phi := Math_acos (lit 2 * r3 - lit 1) in
      let px := cx + r * Math_sin phi * Math_cos theta in
      let py := cy + r * Math_sin phi * Math_sin theta in
      let pz := cz + r * Math_cos phi in
      r4 <- random ;;
      if r4 <? lit 0.3 then
        r5 <- random ;; ret (px, py - r5 * lit 1.5, pz)
      else ret (px, py, pz)
  | None => throw
  end.

(** [Math.pow(Math.random(), 3) * (Math.random() < 0.5 ? 1 : -1) * k] *)
Definition galaxy_offset (k : num) : Gen num :=
  r1 <- random ;;
  r2 <- random ;;
  ret (Math_pow r1 (lit 3) * (if r2 <? lit 0.5 then lit 1 else - lit 1) * k).

Definition galaxy_point (i : nat) : Gen Point :=
  let branches := 4%nat in
  r1 <- random ;; let radius := r1 * lit 5 in
  let spinAngle := radius * lit 2 in
  let branchAngle := of_nat (i mod branches) / of_nat branches * Math_PI * lit 2 in
  randomX <- galaxy_offset (lit 0.5) ;;
  randomY <- galaxy_offset (lit 0.3) ;;
  randomZ <- galaxy_offset (lit 0.5) ;;
  let px := Math_cos (branchAngle + spinAngle) * radius + randomX in
  let py := randomY in
  let pz := Math_sin (branchAngle + spinAngle) * radius + randomZ in
  r2 <- random ;;
  if r2 <? lit 0.15 then
    r3 <- random ;; let bulgeR := r3 * lit 1 in
    r4 <- random ;; let bulgeTheta := r4 * lit 2 * Math_PI in
    r5 <- random ;; let bulgePhi := Math_acos (lit 2 * r5 - lit 1) in
    ret (bulgeR * Math_sin bulgePhi * Math_cos bulgeTheta,
         bulgeR * Math_sin bulgePhi * Math_sin bulgeTheta * lit 0.3,
         bulgeR * Math_cos bulgePhi)
  else ret (px, py, pz).

Definition dna_point (count i : nat) : Gen Point :=
  let t := of_nat i / of_nat count * Math_PI * lit 8 in
  let helixRadius := lit 1.5 in
  let '(px, pz) :=
    if Nat.eqb (i mod 2) 0
    then (helixRadius * Math_cos t, helixRadius * Math_sin t)
    else (helixRadius * Math_cos (t + Math_PI), helixRadius * Math_sin (t + Math_PI)) in
  let py := (of_nat i / of_nat count - lit 0.5) * lit 10 in
  r1 <- random ;;
  pxz <- (if r1 <? lit 0.1 then
            r2 <- random ;; let barT := r2 * Math_PI in
            ret (helixRadius * Math_cos t * (lit 1 - barT / Math_PI)
                 + helixRadius * Math_cos (t + Math_PI) * (barT / Math_PI),
                 helixRadius * Math_sin t * (lit 1 - barT / Math_PI)
                 + helixRadius * Math_sin (t + Math_PI) * (barT / Math_PI))
          else ret (px, pz)) ;;
  r3 <- random ;; let px := fst pxz + (r3 - lit 0.5) * lit 0.2 in
  r4 <- random ;; let py := py + (r4 - lit 0.5) * lit 0.2 in
  r5 <- random ;; let pz := snd pxz + (r5 - lit 0.5) * lit 0.2 in
  ret (px, py, pz).

(** The [switch (shape)] of the loop body. *)
Definition shape_point (shape : ParticleShape) (count i : nat) : Gen Point :=
  match shape with
  | SPHERE => sphere_point
  | HEART => heart_point
  | FLOWER => flower_point
  | SATURN => saturn_point
  | BUDDHA => buddha_point
  | FIREWORKS => fireworks_point
  | GALAXY => galaxy_point i
  | DNA => dna_point count i
  | TEXT => ret (lit 0, lit 0, lit 0)
  end.

(** [customText || '...'] *)
Definition text_or_default (customText : option string) : string :=
  match customText with
  | Some t => if String.eqb t "" then defaultText else t
  | None => defaultText
  end.

(** [GenerateParticles], filling a given buffer. *)
Definition GenerateParticles_into (count : nat) (shape : ParticleShape)
    (customText : option string) (positions : list num) : Gen (list num) :=
  match shape with
  | TEXT => generateTextPoints_into (text_or_default customText) count positions
  | _ => fill (shape_point shape count) 0 count positions
  end.

Definition GenerateParticles (count : nat) (shape : ParticleShape)
    (customText : option string) : Gen (list num) :=
  GenerateParticles_into count shape customText (Float32Array (count * 3)).

(** ** The animation loop ([useFrame]) *)

(** The [useRef] cells of the component. *)
Record Refs := {
  tensionVelocity : num;
  prevTensionRef : num;
  burstEnergy : num;
  shockwaveRadius : num;
  explosionPhase : num;
  cumulativeExplosion : num
}.

(** The cells when the component mounts with the prop [tension]. *)
Definition initial_refs (tension : num) : Refs := {|
  tensionVelocity := lit 0;
  prevTensionRef := tension;
  burstEnergy := lit 0;
  shockwaveRadius := lit 0;
  explosionPhase := lit 0;
  cumulativeExplosion := lit 0
|}.

(** The part of a full-mode frame that precedes the particle loop. *)
Definition update_refs (tension delta : num) (r : Refs) : Refs :=
  let tensionDelta := tension - prevTensionRef r in
  let tensionVelocity := tensionVelocity r * lit 0.85 + tensionDelta * lit 15 in
  let prevTension := tension in
  let isOpening := tensionDelta <? - lit 0.015 in
  let openingSpeed := abs (min tensionDelta (lit 0)) in
  let burstEnergy :=
    if isOpening then min (burstEnergy r + openingSpeed * lit 25) (lit 5)
    else burstEnergy r in
  let explosionPhase :=
    if isOpening then min (explosionPhase r + openingSpeed * lit 30) (lit 1)
    else explosionPhase r in
  let cumulativeExplosion :=
    if isOpening then min (cumulativeExplosion r + openingSpeed * lit 10) (lit 2)
    else cumulativeExplosion r in
  let shockwaveRadius :=
    if burstEnergy >? lit 0.5
    then shockwaveRadius r + delta * lit 15 * burstEnergy
    else shockwaveRadius r in
  {| tensionVelocity := tensionVelocity;
     prevTensionRef := prevTension;
     burstEnergy := burstEnergy * lit 0.92;
     shockwaveRadius := shockwaveRadius * lit 0.96;
     explosionPhase := explosionPhase * lit 0.95;
     cumulativeExplosion := cumulativeExplosion * lit 0.98 |}.

(** The cells after one frame: the text mode returns before it touches
    them. *)
Definition useFrame_refs (shape : ParticleShape) (tension delta : num)
    (r : Refs) : Refs :=
  match shape with
  | TEXT => r
  | _ => update_refs tension delta r
  end.

(** [dist > 0.01 ? t / dist : Math.random() - 0.5] *)
Definition direction_component (dist t : num) : Gen num :=
  if dist >? lit 0.01 then ret (t / dist)
  else r <- random ;; ret (r - lit 0.5).

(** The distance from the centre and the direction from the centre of the
    target [(tx, ty, tz)] of a particle, at the top of the particle loop. *)
Definition direction (tx ty tz : num) : Gen (num * Point) :=
  let dist := sqrt (tx * tx + ty * ty + tz * tz) in
  dirX <- direction_component dist tx ;;
  dirY <- direction_component dist ty ;;
  dirZ <- direction_component dist tz ;;
  ret (dist, (dirX, dirY, dirZ)).

(** ** Vocabulary of the specification *)

(** A computation that returns, whatever number of random draws precede it. *)
Definition returns {A} (m : Gen A) : Prop :=
  forall n, exists a n', m n = Some (a, n').

(** The contract of [Math.random] that the fireworks rely on: five times
    a random number, rounded down, is an index of [burstCenters]. *)
Definition random_picks_burst : Prop :=
  forall k, exists c, burst_center (Math_floor (Math_random k * lit 5)) = Some c.

(** The point that iteration [i] of the filling loop stores. *)
Definition particle_point (shape : ParticleShape) (count : nat)
    (customText : option string) : nat -> Gen Point :=
  match shape with
  | TEXT => text_point (textPixels (canvas_pixels (text_or_default customText)))
  | _ => shape_point shape count
  end.

(** The point of the fallback pattern for particle [i]. *)
Definition fallback_point (i : nat) : Point :=
  ((of_nat (i mod 20) - lit 10) * lit 0.3,
   (of_nat ((i / 20) mod 10) - lit 5) * lit 0.3,
   lit 0).

(** Entries [3 * i], [3 * i + 1] and [3 * i + 2] of [positions] hold [p]. *)
Definition holds_point (positions : list num) (i : nat) (p : Point) : Prop :=
  nth_error positions (3 * i) = Some (fround (fst (fst p)))
  /\ nth_error positions (3 * i + 1) = Some (fround (snd (fst p)))
  /\ nth_error positions (3 * i + 2) = Some (fround (snd p)).

(** The first [3 * i] entries of two buffers coincide. *)
Definition same_points (i : nat) (a b : list num) : Prop :=
  List.length a = List.length b
  /\ forall j, (j < 3 * i)%nat -> nth_error a j = nth_error b j.

End ParticleSystem.

Arguments Refs num : clear implicits.

(* ================================================================== *)
(** * The tension as the specification words it (real arithmetic) *)
(* ================================================================== *)

Module TensionSpec.
Local Open Scope R_scope.

Definition origin : NormalizedLandmark R := Landmark 0 0 0.

(** The (tip, base) landmarks of the five fingers. *)
Definition finger_pairs : list (nat * nat) :=
  [(4, 2); (8, 5); (12, 9); (16, 13); (20, 17)]%nat.

Definition landmark (lm : list (NormalizedLandmark R)) (i : nat) : NormalizedLandmark R :=
  nth i lm origin.

Definition palmSize (lm : list (NormalizedLandmark R)) : R :=
  distance (landmark lm 0) (landmark lm 9).

Definition clamp (lo hi a : R) : R := Rmax lo (Rmin hi a).

Definition extension (lm : list (NormalizedLandmark R)) (tip : nat) : R :=
  distance (landmark lm tip) (landmark lm 9) / palmSize lm.

Definition curl (lm : list (NormalizedLandmark R)) (tip : nat) : R :=
  clamp 0 1 ((1.5 - extension lm tip) / 1.0).

Definition mean (l : list R) : R :=
  fold_right Rplus 0 l / INR (List.length l).

Definition tension (lm : list (NormalizedLandmark R)) : R :=
  clamp 0 1 (mean (map (fun pair => curl lm (fst pair)) finger_pairs)).

(** A hand in the plane: wrist at the origin, palm base at (0,1), every
    other landmark on the palm base except the five tips at (0,2). *)
Definition flat_hand : list (NormalizedLandmark R) :=
  map (fun i => if Nat.eqb i 0 then origin
                else if existsb (Nat.eqb i) (map fst finger_pairs) then Landmark 0 2 0
                else Landmark 0 1 0)
      (seq 0 21).

End TensionSpec.

(* ================================================================== *)
(** * The accumulators of the morph engine (real arithmetic) *)
(* ================================================================== *)

Module MorphSpec.
Local Open Scope R_scope.

(** A frame: the tension and the frame delta passed to [useFrame]. *)
Definition Frame : Type := (R * R)%type.

Definition frame_ok (f : Frame) : Prop := 0 <= fst f <= 1 /\ 0 <= snd f.

Definition in_range (r : Refs R) : Prop :=
  0 <= burstEnergy r <= 5
  /\ 0 <= explosionPhase r <= 1
  /\ 0 <= cumulativeExplosion r <= 2
  /\ 0 <= shockwaveRadius r.

(** The cells after the frames of [frames], in order. *)
Definition run_frames (shape : ParticleShape) (frames : list Frame) (r : Refs R)
  : Refs R :=
  fold_left (fun r f => useFrame_refs shape (fst f) (snd f) r) frames r.

(** [openingSpeed = max(0, -tensionDelta)] *)
Definition openingSpeed (tensionDelta : R) : R := Rmax 0 (- tensionDelta).

(** [acc += openingSpeed * gain], capped at [cap], when the hand opens
    faster than 0.015 per frame. *)
Definition accumulate (tensionDelta acc gain cap : R) : R :=
  if Rlt_dec tensionDelta (- (0.015))
  then Rmin (acc + openingSpeed tensionDelta * gain) cap
  else acc.

End MorphSpec.

(* ================================================================== *)
(** * src/services/handTrackingService.ts: the results and the hands *)
(* ================================================================== *)

Section HandTrackingResults.
Context {num : Type} `{JsNumber num}.

(** [multiHandedness?.[i]?.label === 'Left'] *)
Definition labelled_left (handedness : option (list string)) (i : nat) : bool :=
  match handedness with
  | Some hs => match nth_error hs i with
               | Some l => String.eqb l "Left"
               | None => false
               end
  | None => false
  end.

(** The hands of a result: none when [multiHandLandmarks] is missing. *)
Definition hands_of (r : Results num) : list (list (NormalizedLandmark num)) :=
  match multiHandLandmarks r with
  | Some hands => hands
  | None => []
  end.

(** The indices of the hands, in scan order. *)
Definition hand_indices (r : Results num) : list nat :=
  seq 0 (List.length (hands_of r)).

End HandTrackingResults.

(** ** The first revision of the service (lines 1-226 of the file) *)

Module Rev1.
Section Service.
Context {num : Type} `{JsNumber num}.
Local Open Scope js_scope.

(** The first revision knows the victory gesture only, and asks in
    addition that the thumb is away from the index tip. *)
Definition detectGesture (landmarks : list (NormalizedLandmark num)) : option Gesture :=
  let* wrist := nth_error landmarks 0 in
  let* palmBase := nth_error landmarks 9 in
  let palmSize := distance wrist palmBase in
  let* indexTip := nth_error landmarks 8 in
  let* indexPIP := nth_error landmarks 6 in
  let indexExtended := distance indexTip wrist >? distance indexPIP wrist * lit 1.2 in
  let* middleTip := nth_error landmarks 12 in
  let* middlePIP := nth_error landmarks 10 in
  let middleExtended := distance middleTip wrist >? distance middlePIP wrist * lit 1.2 in
  let* ringTip := nth_error landmarks 16 in
  let ringCurled := distance ringTip palmBase <? palmSize * lit 1.2 in
  let* pinkyTip := nth_error landmarks 20 in
  let pinkyCurled := distance pinkyTip palmBase <? palmSize * lit 1.2 in
  let* thumbTip := nth_error landmarks 4 in
  let thumbOK := distance thumbTip indexTip >? palmSize * lit 0.5 in
  if indexExtended && middleExtended && ringCurled && pinkyCurled && thumbOK
  then Some victory
  else Some none.

(** One iteration of the loop of the first [processResults]. *)
Definition scan_hand (hands : list (list (NormalizedLandmark num)))
    (handedness : option (list string)) (s : Scan) (i : nat) : option Scan :=
  let* landmarks := nth_error hands i in
  let isLeft := labelled_left handedness i in
  let rightHand := if isLeft then true else sawRight s in
  let leftHand := if isLeft then sawLeft s else true in
  let* tension := calculateTension landmarks in
  let totalTension := totalTension s + tension in
  let* gesture := detectGesture landmarks in
  let detectedGesture :=
    if Gesture_eqb gesture victory then victory else detectedGesture s in
  Some {| totalTension := totalTension; sawLeft := leftHand;
          sawRight := rightHand; detectedGesture := detectedGesture |}.

Definition processResults (results : Results num) : option (HandState num) :=
  match multiHandLandmarks results with
  | None | Some [] =>
      Some {| tension := lit 0; detected := false; leftHand := false;
              rightHand := false; gesture := none |}
  | Some hands =>
      let* s := foldM (scan_hand hands (multiHandedness results))
                      (seq 0 (List.length hands))
                      {| totalTension := lit 0; sawLeft := false;
                         sawRight := false; detectedGesture := none |} in
      let avgTension := totalTension s / of_Z (Z.of_nat (List.length hands)) in
      let detectedGesture :=
        if negb (Gesture_eqb (detectedGesture s) victory) then
          if avgTension >? lit 0.7 then fist
          else if avgTension <? lit 0.3 then open
          else detectedGesture s
        else detectedGesture s in
      Some {| tension := avgTension; detected := true;
              leftHand := sawLeft s; rightHand := sawRight s;
              gesture := detectedGesture |}
  end.

End Service.
End Rev1.

(** ** The hand seen from another place *)

Module Placement.
Section Place.
Context {num : Type} `{JsNumber num}.
Local Open Scope js_scope.

(** The landmark [p], scaled by [k] about the origin and moved by [v]. *)
Definition place (k : num) (v p : NormalizedLandmark num) : NormalizedLandmark num :=
  Landmark (k * x p + x v) (k * y p + y v) (k * z p + z v).

Definition place_hand (k : num) (v : NormalizedLandmark num)
    (lm : list (NormalizedLandmark num)) : list (NormalizedLandmark num) :=
  map (place k v) lm.

(** A hand on the grid of step 1/64, [k] times as large as drawn here:
    wrist at (10,0), palm base at (10,8), thumb to the left, middle finger
    straight, ring and little finger folded, and the tip of the index
    finger, at (-6,12) from the wrist, exactly 1.2 times as far from the
    wrist as its PIP joint at (-5,10). *)
Definition grid_hand (k : Z) : list (NormalizedLandmark num) :=
  map (fun p : Z * Z =>
         Landmark (lit (k * fst p # 64)) (lit (k * snd p # 64)) (lit 0))
      [ (10, 0); (8, 1); (7, 1); (5, 2); (4, 2);
        (7, 8); (5, 10); (4, 11); (4, 12);
        (10, 8); (10, 10); (10, 13); (10, 16);
        (13, 8); (13, 10); (13, 10); (12, 9);
        (15, 7); (15, 9); (15, 9); (14, 8) ]%Z.

End Place.
End Placement.

(* ================================================================== *)
(** * src/App.tsx: the tension smoothing effect *)
(* ================================================================== *)

Module Smoothing.
Section Effect.
Context {num : Type} `{JsNumber num}.
Local Open Scope js_scope.

(** [const targetTension = handData.detected ? handData.tension : smoothTension]:
    the value the effect captures in the render that runs it. *)
Definition targetTension (detected : bool) (tension smoothTension : num) : num :=
  if detected then tension else smoothTension.

Definition smoothingFactor : num := lit 0.8.

(** The updater that the interval passes to [setSmoothTension] every 10 ms. *)
Definition smooth (targetTension prev : num) : num :=
  let diff := targetTension - prev in
  if abs diff <? lit 0.003 then targetTension
  else prev + diff * smoothingFactor.

(** [smoothTension] after [n] runs of the interval callback. *)
Definition smooth_ticks (targetTension : num) (n : nat) (prev : num) : num :=
  Nat.iter n (smooth targetTension) prev.

End Effect.
End Smoothing.

(** ** The gesture effect: vocabulary for the pending timeout *)

Module AppTimers.
Import App.

(** The timeout that the effect arms in a state whose raw gesture differs
    from the committed one. *)
Definition rearmed (s : State) : Timer :=
  if special (handGesture s)
  then {| id := nextId s; remaining := 300;
          callback := Confirm (handGesture s) (currentGesture s)
                              (activeShape s) (particleColor s) |}
  else {| id := nextId s; remaining := 1000;
          callback := Revert (previousShape s) (previousColor s) |}.

End AppTimers.

(* ================================================================== *)
(** * src/components/ParticleSystem.tsx: the rest of a frame *)
(* ================================================================== *)

Section ParticleFrame.
Context {num : Type} `{JsNumber num} `{JsMath num}.
Local Open Scope js_scope.

(** The body of the loop of the text mode, for particle [i]: the new
    position of a particle at [current] whose target is [target]. *)
Definition text_frame_point (time : num) (i : nat) (target current : Point) : Point :=
  let '(tx, ty, tz) := target in
  let '(px, py, pz) := current in
  let wave := Math_sin (time * lit 1.5 + of_nat i * lit 0.001) * lit 0.02 in
  (fround (px + (tx - px) * lit 0.15),
   fround (py + (ty + wave - py) * lit 0.15),
   fround (pz + (tz - pz) * lit 0.15)).

(** The positions of a particle after the text-mode frames at [times]. *)
Definition text_frames (times : list num) (i : nat) (target current : Point) : Point :=
  fold_left (fun p time => text_frame_point time i target p) times current.

(** [scaleFactor]: 3.5 when the hand is open, 0.15 when it is closed. *)
Definition scaleFactor (tension : num) : num :=
  let openScale := lit 3.5 in
  let closedScale := lit 0.15 in
  let scaleEase := lit 1 - Math_pow tension (lit 0.7) in
  closedScale + (openScale - closedScale) * scaleEase.

(** [morphSpeed], from the cells as the frame has updated them. *)
Definition morphSpeed (delta : num) (r : Refs num) : num :=
  let baseMorphSpeed := lit 8.0 in
  (baseMorphSpeed + abs (tensionVelocity r) * lit 6) * delta.

(** [rotationSpeed], the factor of [delta] added to [rotation.y]. *)
Definition rotationSpeed (tension : num) (r : Refs num) : num :=
  let baseRotation := lit 0.15 in
  let burstRotation := burstEnergy r * lit 0.8 in
  let velocityRotation := abs (tensionVelocity r) * lit 0.6 in
  (baseRotation + velocityRotation + burstRotation) * (lit 1 - tension * lit 0.5).

(** What a frame assigns to the material. *)
Record Material := { opacity : num; size : num }.

Definition glow (time tension : num) (r : Refs num) : Material :=
  let baseOpacity := lit 0.75 in
  let burstGlow := burstEnergy r * lit 0.25 in
  let openGlow := (lit 1 - tension) * lit 0.25 in
  let baseSize := lit 0.035 in
  let openSize := (lit 1 - tension) * lit 0.04 in
  let burstSize := burstEnergy r * lit 0.03 in
  let pulseSize := Math_sin (time * lit 8) * lit 0.005 * burstEnergy r in
  {| opacity := min (baseOpacity + burstGlow + openGlow) (lit 1);
     size := baseSize + openSize + burstSize + pulseSize |}.

(** The material after a frame that starts with the cells [r]. *)
Definition useFrame_material (shape : ParticleShape) (time tension delta : num)
    (r : Refs num) : Material :=
  match shape with
  | TEXT => {| opacity := lit 1.0; size := lit 0.07 |}
  | _ => glow time tension (update_refs tension delta r)
  end.

(** [rotation.y] after a frame that starts with the cells [r]. *)
Definition useFrame_rotation_y (shape : ParticleShape) (tension delta : num)
    (r : Refs num) (rotation_y : num) : num :=
  match shape with
  | TEXT => rotation_y + delta * lit 0.03
  | _ => rotation_y + delta * rotationSpeed tension (update_refs tension delta r)
  end.

End ParticleFrame.

Arguments Material num : clear implicits.

Module FrameSpec.
Local Open Scope R_scope.

(** The contract of [Math.random]: a number of [0, 1). *)
Definition unit_interval (Math_random : nat -> R) : Prop :=
  forall k, 0 <= Math_random k < 1.

(** The previous tension is a tension, and the tension velocity is at
    most 100 in absolute value. *)
Definition velocity_ok (r : Refs R) : Prop :=
  0 <= prevTensionRef r <= 1 /\ Rabs (tensionVelocity r) <= 100.

End FrameSpec.

(** A pixel that the scan of [generateTextPoints] keeps: both coordinates
    even, inside the 600 x 150 canvas, red channel above 100. *)
Definition sampled_pixel (pixels : nat -> nat) (p : nat * nat) : Prop :=
  let '(px, py) := p in
  (px < width)%nat /\ (py < height)%nat
  /\ Nat.even px = true /\ Nat.even py = true
  /\ (100 < pixels ((py * width + px) * 4))%nat.

(* ================================================================== *)
(** * src/services/handTrackingService.ts: the Gemini Live service *)
(* ================================================================== *)

Module GeminiLive.

(** ** Audio output *)

Section Audio.
Context {num : Type} `{JsNumber num}.
Local Open Scope js_scope.

(** The fields of the service that [playAudio] reads and writes, and a log
    of its [source.start(when)] calls: the source, [when] and the duration
    of its buffer.  A source is represented by its creation number. *)
Record Player := {
  outputAudioContext : bool;           (* the context is not null *)
  nextStartTime : num;
  sources : list nat;                  (* the Set of playing sources *)
  started : list (nat * num * num);
  created : nat
}.

(** [playAudio(buffer)] at the context time [currentTime]. *)
Definition playAudio (currentTime duration : num) (p : Player) : Player :=
  if negb (outputAudioContext p) then p
  else
    let start := max (nextStartTime p) currentTime in
    let source := created p in
    {| outputAudioContext := outputAudioContext p;
       nextStartTime := start + duration;
       sources := sources p ++ [source];
       started := started p ++ [(source, start, duration)];
       created := S (created p) |}.

(** The listener of [ended]: [this.sources.delete(source)]. *)
Definition ended (source : nat) (p : Player) : Player :=
  {| outputAudioContext := outputAudioContext p;
     nextStartTime := nextStartTime p;
     sources := filter (fun s => negb (Nat.eqb s source)) (sources p);
     started := started p;
     created := created p |}.

(** The calls of [playAudio], each with the context time at the call and
    the duration of the buffer. *)
Definition play_all (calls : list (num * num)) (p : Player) : Player :=
  fold_left (fun p c => playAudio (fst c) (snd c) p) calls p.

End Audio.

Arguments Player num : clear implicits.

(** ** Base64 ([btoa], [atob]) and the byte helpers

    A string is the list of its UTF-16 code units. *)

Definition alphabet : list N :=
  map N_of_ascii
      (list_ascii_of_string
         "ABCDEFGHIJKLMNOPQRSTUVWXYZabcdefghijklmnopqrstuvwxyz0123456789+/").

Definition equals_sign : N := 61.

Definition sextet_char (k : N) : N := nth (N.to_nat k) alphabet 0%N.

Fixpoint index_of (c : N) (l : list N) : option N :=
  match l with
  | [] => None
  | a :: l' => if N.eqb c a then Some 0%N else option_map N.succ (index_of c l')
  end.

Definition char_sextet (c : N) : option N := index_of c alphabet.

(** The 6-bit groups of a byte sequence; the last group is filled up
    with zero bits. *)
Fixpoint sextets_of (bytes : list N) : list N :=
  match bytes with
  | a :: b :: c :: rest =>
      (a / 4) :: ((a mod 4) * 16 + b / 16) :: ((b mod 16) * 4 + c / 64) :: (c mod 64)
      :: sextets_of rest
  | [a; b] => [a / 4; (a mod 4) * 16 + b / 16; (b mod 16) * 4]
  | [a] => [a / 4; (a mod 4) * 16]
  | [] => []
  end%N.

Definition padding (bytes : list N) : list N :=
  match (List.length bytes mod 3)%nat with
  | 1%nat => [equals_sign; equals_sign]
  | 2%nat => [equals_sign]
  | _ => []
  end.

(** [btoa(binary)]: throws when a code unit is above 255. *)
Definition btoa (binary : list N) : option (list N) :=
  if forallb (fun c => N.leb c 255) binary
  then Some (map sextet_char (sextets_of binary) ++ padding binary)
  else None.

(** TAB, LF, FF, CR and SPACE. *)
Definition is_whitespace (c : N) : bool :=
  existsb (N.eqb c) [9; 10; 12; 13; 32]%N.

(** With a length that is a multiple of four, one or two [=] at the end
    are removed. *)
Definition strip_padding (data : list N) : list N :=
  if Nat.eqb (List.length data mod 4) 0 then
    match rev data with
    | c1 :: r1 =>
        if N.eqb c1 equals_sign then
          match r1 with
          | c2 :: r2 => if N.eqb c2 equals_sign then rev r2 else rev r1
          | [] => rev r1
          end
        else data
    | [] => data
    end
  else data.

Fixpoint traverse {A B} (f : A -> option B) (l : list A) : option (list B) :=
  match l with
  | [] => Some []
  | a :: l' =>
      match f a, traverse f l' with
      | Some b, Some bs => Some (b :: bs)
      | _, _ => None
      end
  end.

(** The bytes of a sequence of 6-bit groups; the bits left over at the
    end (four of twelve, two of eighteen) are dropped. *)
Fixpoint bytes_of (groups : list N) : list N :=
  match groups with
  | s1 :: s2 :: s3 :: s4 :: rest =>
      (s1 * 4 + s2 / 16) :: ((s2 mod 16) * 16 + s3 / 4) :: ((s3 mod 4) * 64 + s4)
      :: bytes_of rest
  | [s1; s2; s3] => [s1 * 4 + s2 / 16; (s2 mod 16) * 16 + s3 / 4]
  | [s1; s2] => [s1 * 4 + s2 / 16]
  | _ => []
  end%N.

(** [atob(data)], the forgiving decoder of the HTML standard: throws when
    a character is not of the alphabet or the length is 1 modulo 4. *)
Definition atob (data : list N) : option (list N) :=
  let data := filter (fun c => negb (is_whitespace c)) data in
  let data := strip_padding data in
  if Nat.eqb (List.length data mod 4) 1 then None
  else option_map bytes_of (traverse char_sextet data).

(** [String.fromCharCode(n)] and a store into a [Uint8Array]. *)
Definition fromCharCode (n : N) : N := (n mod 65536)%N.
Definition to_uint8 (n : N) : N := (n mod 256)%N.

(** [encode(bytes)], for the elements of a [Uint8Array]. *)
Definition encode (bytes : list N) : option (list N) :=
  btoa (map fromCharCode bytes).

(** [decode(base64)]: the elements of the [Uint8Array] it returns. *)
Definition decode (base64 : list N) : option (list N) :=
  option_map (map to_uint8) (atob base64).

(** ** Vocabulary *)

(** No two buffers of the log overlap, and [limit] is not before the end
    of the last one. *)
Fixpoint back_to_back (log : list (nat * R * R)) (from limit : R) : Prop :=
  match log with
  | [] => (from <= limit)%R
  | (_, start, duration) :: log' =>
      (from <= start)%R /\ back_to_back log' (start + duration)%R limit
  end.

(** The entry of the alphabet for the group [k] is found back at [k], is
    no white space and is not the padding character. *)
Definition table_ok (k : N) : bool :=
  match char_sextet (sextet_char k) with
  | Some k' => N.eqb k' k
  | None => false
  end
  && negb (is_whitespace (sextet_char k))
  && negb (N.eqb (sextet_char k) equals_sign).

End GeminiLive.

(** A point inside the cube of half-width [b] about the centre. *)
Definition within (b : R) (p : R * R * R) : Prop :=
  let '(px, py, pz) := p in
  (Rabs px <= b /\ Rabs py <= b /\ Rabs pz <= b)%R.

(* ================================================================== *)
(** * Binary64 values: vocabulary *)
(* ================================================================== *)

(** A value that is not NaN and whose sign bit is [s]. *)
Definition signed (s : bool) (a : spec_float) : Prop :=
  match a with
  | S754_nan => False
  | S754_zero s' | S754_infinity s' | S754_finite s' _ _ => s' = s
  end.

Definition defined (a : spec_float) : Prop := a <> S754_nan.

Definition finite_or_zero (a : spec_float) : Prop :=
  match a with
  | S754_zero _ | S754_finite _ _ _ => True
  | _ => False
  end.

(** [+0], a positive number or [+Infinity]. *)
Definition nonneg (a : float) : Prop := signed false (Prim2SF a).

(** A landmark whose three coordinates are finite numbers. *)
Definition finite_landmark (p : NormalizedLandmark float) : bool :=
  PrimFloat.is_finite (x p) && PrimFloat.is_finite (y p) && PrimFloat.is_finite (z p).

(* ================================================================== *)
(** * The classifier: facts that hold in every arithmetic *)
(* ================================================================== *)

Section ClassifierFacts.
Context {num : Type} `{JsNumber num}.
Local Open Scope js_scope.

Lemma nth_error_defined {A} (l : list A) (i j : nat) (a : A) :
  nth_error l j = Some a -> (i <= j)%nat -> exists b, nth_error l i = Some b.
Proof.
  intros Hj Hle.
  assert (Hlt : (j < List.length l)%nat) by (apply nth_error_Some; congruence).
  destruct (nth_error l i) as [b|] eqn:E; [now exists b|].
  apply nth_error_None in E. lia.
Qed.

Lemma curl_step_defined (lm : list (NormalizedLandmark num)) palmBase palmSize
    totalCurl i ti bi tip base :
  nth_error fingerTips i = Some ti -> nth_error fingerBases i = Some bi ->
  nth_error lm ti = Some tip -> nth_error lm bi = Some base ->
  curl_step lm palmBase palmSize totalCurl i
  = Some (totalCurl + curl_of (distance tip palmBase / palmSize)).
Proof.
  intros Hti Hbi Htip Hbase. unfold curl_step.
  rewrite Hti. cbn [bind]. rewrite Hbi. cbn [bind].
  rewrite Htip. cbn [bind]. rewrite Hbase. reflexivity.
Qed.

Lemma curl_step_no_tip (lm : list (NormalizedLandmark num)) palmBase palmSize
    totalCurl i ti :
  nth_error fingerTips i = Some ti -> nth_error lm ti = None ->
  curl_step lm palmBase palmSize totalCurl i = None.
Proof.
  intros Hti Htip. unfold curl_step.
  rewrite Hti. cbn [bind].
  destruct (nth_error fingerBases i); cbn [bind]; [|reflexivity].
  rewrite Htip. reflexivity.
Qed.

(** The loop of [calculateTension], unrolled: the five tips are read, and
    the five bases only have to exist. *)
Lemma calculateTension_unrolled (lm : list (NormalizedLandmark num))
    wrist palmBase t4 t8 t12 t16 t20 :
  nth_error lm 0 = Some wrist -> nth_error lm 9 = Some palmBase ->
  nth_error lm 4 = Some t4 -> nth_error lm 8 = Some t8 ->
  nth_error lm 12 = Some t12 -> nth_error lm 16 = Some t16 ->
  nth_error lm 20 = Some t20 ->
  calculateTension lm =
    Some (clamp01 ((lit 0 + finger_curl wrist palmBase t4
                   + finger_curl wrist palmBase t8
                   + finger_curl wrist palmBase t12
                   + finger_curl wrist palmBase t16
                   + finger_curl wrist palmBase t20) / lit 5)).
Proof.
  intros H0 H9 H4 H8 H12 H16 H20.
  destruct (nth_error_defined lm 2 20 _ H20) as [b2 B2]; [lia|].
  destruct (nth_error_defined lm 5 20 _ H20) as [b5 B5]; [lia|].
  destruct (nth_error_defined lm 13 20 _ H20) as [b13 B13]; [lia|].
  destruct (nth_error_defined lm 17 20 _ H20) as [b17 B17]; [lia|].
  unfold calculateTension. rewrite H0. cbn [bind]. rewrite H9. cbn [bind].
  cbn [List.length fingerTips seq foldM].
  rewrite (curl_step_defined lm _ _ _ 0 _ _ _ _ eq_refl eq_refl H4 B2). cbn [bind].
  rewrite (curl_step_defined lm _ _ _ 1 _ _ _ _ eq_refl eq_refl H8 B5). cbn [bind].
  rewrite (curl_step_defined lm _ _ _ 2 _ _ _ _ eq_refl eq_refl H12 H9). cbn [bind].
  rewrite (curl_step_defined lm _ _ _ 3 _ _ _ _ eq_refl eq_refl H16 B13). cbn [bind].
  rewrite (curl_step_defined lm _ _ _ 4 _ _ _ _ eq_refl eq_refl H20 B17). cbn [bind].
  reflexivity.
Qed.

Lemma foldM_throws {A S} (f : S -> A -> option S) (l : list A) (a : A) :
  In a l -> (forall s, f s a = None) -> forall s, foldM f l s = None.
Proof.
  induction l as [|b l IH]; intros Hin Hf s; [contradiction|].
  cbn [foldM]. destruct Hin as [->|Hin].
  - rewrite Hf. reflexivity.
  - destruct (f s b); cbn [bind]; [apply IH; assumption|reflexivity].
Qed.

(** A hand with no landmark 20 cannot be measured: the loop throws. *)
Lemma calculateTension_short (lm : list (NormalizedLandmark num)) :
  nth_error lm 20 = None -> calculateTension lm = None.
Proof.
  intros H20. unfold calculateTension.
  destruct (nth_error lm 0) as [wrist|]; [|reflexivity].
  destruct (nth_error lm 9) as [palmBase|]; [|reflexivity].
  cbn [bind].
  rewrite (foldM_throws _ _ 4%nat).
  - reflexivity.
  - cbn. tauto.
  - intros s. apply (curl_step_no_tip lm _ _ _ 4 20 eq_refl H20).
Qed.

Lemma nth_error_in_range {A} (l : list A) (i : nat) :
  (i < List.length l)%nat -> exists a, nth_error l i = Some a.
Proof.
  intros Hlt. destruct (nth_error l i) as [a|] eqn:E; [now exists a|].
  apply nth_error_None in E. lia.
Qed.

(** [detectGesture] reads twelve landmarks, the last of them landmark 20. *)
Lemma fingerStates_defined (lm : list (NormalizedLandmark num)) :
  (21 <= List.length lm)%nat -> exists f, fingerStates lm = Some f.
Proof.
  intros Hlen. unfold fingerStates.
  repeat match goal with
         | |- context [bind (nth_error lm ?k) _] =>
             let a := fresh "a" in let E := fresh "E" in
             destruct (nth_error_in_range lm k) as [a E]; [lia|];
             rewrite E; cbn [bind]
         end.
  eexists. reflexivity.
Qed.

Lemma detectGesture_cascade (lm : list (NormalizedLandmark num)) f :
  fingerStates lm = Some f ->
  detectGesture lm = Some (classify_by_priority f).
Proof.
  intros Hf. unfold detectGesture. rewrite Hf. cbn [bind].
  unfold classify_by_priority, gesture_rules. cbn [find fst snd].
  destruct (isVictory f); [reflexivity|].
  destruct (isLove f); [reflexivity|].
  destruct (isThumbsUp f); [reflexivity|].
  destruct (isPoint f); reflexivity.
Qed.

(** The four rules exclude one another, so no hand satisfies two of them. *)
Lemma gesture_rules_exclusive (f : FingerStates) :
  (isVictory f && isLove f = false) /\ (isVictory f && isThumbsUp f = false)
  /\ (isVictory f && isPoint f = false) /\ (isLove f && isThumbsUp f = false)
  /\ (isLove f && isPoint f = false) /\ (isThumbsUp f && isPoint f = false).
Proof.
  unfold isVictory, isLove, isThumbsUp, isPoint.
  destruct (indexExtended f), (middleExtended f), (ringExtended f),
    (ringCurled f), (pinkyExtended f), (pinkyCurled f), (thumbExtended f);
    repeat split; reflexivity.
Qed.

(** C2. [detectGesture] answers for every array of 21 landmarks, and its
    answer is the first rule that matches in the order victory, love,
    thumbs_up, point, and [none] when no rule matches; so a hand that
    satisfies the victory rule is classified as victory whatever the
    rules after it say. *)
Theorem detectGesture_priority (lm : list (NormalizedLandmark num)) :
  (21 <= List.length lm)%nat ->
  exists f, fingerStates lm = Some f
    /\ detectGesture lm = Some (classify_by_priority f)
    /\ map snd gesture_rules = [victory; love; thumbs_up; point]
    /\ (isVictory f = true -> detectGesture lm = Some victory).
Proof.
  intros Hlen. destruct (fingerStates_defined lm Hlen) as [f Hf].
  exists f. split; [exact Hf|]. split; [apply detectGesture_cascade, Hf|].
  split; [reflexivity|].
  intros Hv. rewrite (detectGesture_cascade lm f Hf).
  unfold classify_by_priority, gesture_rules. cbn [find fst snd].
  rewrite Hv. reflexivity.
Qed.

(** C10. Two arrays of landmarks that agree on landmarks 0, 4, 8, 9, 12, 16
    and 20 have the same tension: the finger bases 2, 5, 13 and 17 are
    looked up but their coordinates do not enter the result, and no other
    landmark is looked up. *)
Theorem calculateTension_noninterference (lm lm' : list (NormalizedLandmark num)) :
  (forall i, In i tension_inputs -> nth_error lm i = nth_error lm' i) ->
  calculateTension lm = calculateTension lm'.
Proof.
  intros Hagree.
  assert (A0 := Hagree 0%nat). assert (A4 := Hagree 4%nat).
  assert (A8 := Hagree 8%nat). assert (A9 := Hagree 9%nat).
  assert (A12 := Hagree 12%nat). assert (A16 := Hagree 16%nat).
  assert (A20 := Hagree 20%nat).
  unfold tension_inputs in *. cbn [In] in *.
  destruct (nth_error lm 20) as [t20|] eqn:H20.
  - destruct (nth_error_defined lm 0 20 _ H20) as [wrist H0]; [lia|].
    destruct (nth_error_defined lm 4 20 _ H20) as [t4 H4]; [lia|].
    destruct (nth_error_defined lm 8 20 _ H20) as [t8 H8]; [lia|].
    destruct (nth_error_defined lm 9 20 _ H20) as [palmBase H9]; [lia|].
    destruct (nth_error_defined lm 12 20 _ H20) as [t12 H12]; [lia|].
    destruct (nth_error_defined lm 16 20 _ H20) as [t16 H16]; [lia|].
    rewrite (calculateTension_unrolled lm _ _ _ _ _ _ _ H0 H9 H4 H8 H12 H16 H20).
    symmetry. apply calculateTension_unrolled.
    + rewrite <- A0, H0; tauto.
    + rewrite <- A9, H9; tauto.
    + rewrite <- A4, H4; tauto.
    + rewrite <- A8, H8; tauto.
    + rewrite <- A12, H12; tauto.
    + rewrite <- A16, H16; tauto.
    + rewrite <- A20; tauto.
  - rewrite (calculateTension_short lm H20).
    symmetry. apply calculateTension_short. rewrite <- A20; tauto.
Qed.

End ClassifierFacts.


(* ================================================================== *)
(** * Binary64 operations that cannot produce NaN *)
(* ================================================================== *)

Section Rounding.
Variables prec emax : Z.

Lemma signed_defined s a : signed s a -> defined a.
Proof. destruct a; cbn; unfold defined; congruence. Qed.

Lemma shr_1_nonneg mrs : (0 <= shr_m mrs)%Z -> (0 <= shr_m (shr_1 mrs))%Z.
Proof.
  destruct mrs as [m r s]. cbn. destruct m as [|p|p]; [cbn; lia| |lia].
  destruct p; cbn; lia.
Qed.

Lemma iter_shr_1_nonneg p : forall mrs,
  (0 <= shr_m mrs)%Z -> (0 <= shr_m (SpecFloat.iter_pos shr_1 p mrs))%Z.
Proof.
  induction p as [p IH|p IH|]; intros mrs Hm; cbn.
  - apply IH, IH, shr_1_nonneg, Hm.
  - apply IH, IH, Hm.
  - apply shr_1_nonneg, Hm.
Qed.

Lemma shr_fexp_nonneg m e l :
  (0 <= m)%Z -> (0 <= shr_m (fst (shr_fexp prec emax m e l)))%Z.
Proof.
  intros Hm. unfold shr_fexp, shr.
  assert (H0 : (0 <= shr_m (shr_record_of_loc m l))%Z)
    by (destruct l as [|[]]; exact Hm).
  destruct (_ - e)%Z; cbn [fst]; [exact H0|apply iter_shr_1_nonneg, H0|exact H0].
Qed.

Lemma round_nearest_even_nonneg m l :
  (0 <= m)%Z -> (0 <= round_nearest_even m l)%Z.
Proof.
  intros Hm. destruct l as [|[]]; cbn [round_nearest_even]; try destruct (Z.even m); lia.
Qed.

Lemma binary_round_aux_signed s m e l :
  (0 <= m)%Z -> signed s (binary_round_aux prec emax s m e l).
Proof.
  intros Hm. unfold binary_round_aux.
  pose proof (shr_fexp_nonneg m e l Hm) as H1.
  destruct (shr_fexp prec emax m e l) as [mrs' e']. cbn [fst] in H1.
  pose proof (shr_fexp_nonneg _ e' loc_Exact
                (round_nearest_even_nonneg _ (loc_of_shr_record mrs') H1)) as H2.
  destruct (shr_fexp prec emax _ e' loc_Exact) as [mrs'' e'']. cbn [fst] in H2.
  destruct (shr_m mrs'') as [|p|p]; [reflexivity| |lia].
  destruct (Z.leb e'' _); reflexivity.
Qed.

Lemma binary_round_signed s m e : signed s (binary_round prec emax s m e).
Proof.
  unfold binary_round. destruct (shl_align _ _ _) as [mz ez].
  apply binary_round_aux_signed. lia.
Qed.

Lemma binary_normalize_defined m e : defined (binary_normalize prec emax m e false).
Proof.
  destruct m; cbn; [discriminate|apply (signed_defined false)|apply (signed_defined true)];
    apply binary_round_signed.
Qed.

Lemma binary_normalize_nonneg m e :
  (0 <= m)%Z -> signed false (binary_normalize prec emax m e false).
Proof.
  destruct m; cbn; [reflexivity|intros _; apply binary_round_signed|lia].
Qed.

Lemma SFmul_square a : defined a -> signed false (SFmul prec emax a a).
Proof.
  destruct a as [s|s| |s m e]; cbn; try (intros _; destruct s; reflexivity).
  - intros H; contradiction H; reflexivity.
  - intros _. replace (xorb s s) with false by (destruct s; reflexivity).
    apply binary_round_aux_signed. lia.
Qed.

Lemma SFsub_defined a b :
  finite_or_zero a -> finite_or_zero b -> defined (SFsub prec emax a b).
Proof.
  destruct a as [sa|sa| |sa ma ea], b as [sb|sb| |sb mb eb]; cbn; try contradiction;
    intros _ _; try discriminate.
  - destruct sa, sb; discriminate.
  - apply binary_normalize_defined.
Qed.

Lemma SFsub_from_finite s m e b :
  defined b -> defined (SFsub prec emax (S754_finite s m e) b).
Proof.
  destruct b as [sb|sb| |sb mb eb]; cbn; intros Hb; try discriminate.
  - contradiction Hb; reflexivity.
  - apply binary_normalize_defined.
Qed.

Lemma SFadd_nonneg a b :
  signed false a -> signed false b -> signed false (SFadd prec emax a b).
Proof.
  destruct a as [sa|sa| |sa ma ea], b as [sb|sb| |sb mb eb]; cbn; try contradiction;
    intros -> ->; try reflexivity.
  apply binary_normalize_nonneg. cbn. lia.
Qed.

Lemma SFsqrt_nonneg a : signed false a -> signed false (SFsqrt prec emax a).
Proof.
  destruct a as [s|s| |s m e]; cbn; try contradiction; intros ->; try reflexivity.
  unfold SFsqrt_core_binary.
  set (m' := match _ with Z0 => _ | Zpos _ => _ | Zneg _ => _ end).
  assert (Hm' : (0 <= m')%Z).
  { subst m'. destruct (_ - _)%Z; try lia. apply Z.shiftl_nonneg. lia. }
  pose proof (Z.sqrtrem_sqrt m') as Hq. pose proof (Z.sqrt_nonneg m') as Hs.
  destruct (Z.sqrtrem m') as [q r]. cbn [fst] in Hq.
  apply binary_round_aux_signed. lia.
Qed.

Lemma SFdiv_core_nonneg m1 e1 m2 e2 :
  (0 <= fst (fst (SFdiv_core_binary prec emax (Zpos m1) e1 (Zpos m2) e2)))%Z.
Proof.
  unfold SFdiv_core_binary.
  set (m' := match _ with Z0 => _ | Zpos _ => _ | Zneg _ => _ end).
  assert (Hm' : (0 <= m')%Z).
  { subst m'. destruct (_ - _ - _)%Z; try lia. apply Z.shiftl_nonneg. lia. }
  pose proof (Z.div_pos m' (Zpos m2) Hm' ltac:(lia)) as Hq.
  unfold Z.div in Hq. destruct (Z.div_eucl m' (Zpos m2)) as [q r]. exact Hq.
Qed.

Lemma SFdiv_by_finite a s m e :
  defined a -> defined (SFdiv prec emax a (S754_finite s m e)).
Proof.
  destruct a as [sa|sa| |sa ma ea]; cbn; intros Ha; try discriminate.
  - contradiction Ha; reflexivity.
  - pose proof (SFdiv_core_nonneg ma ea m e) as Hq.
    destruct (SFdiv_core_binary _ _ _ _ _ _) as [[mz ez] lz]. cbn [fst] in Hq.
    apply (signed_defined (xorb sa s)), binary_round_aux_signed, Hq.
Qed.

Lemma SFdiv_nonneg a m e :
  signed false a -> signed false (SFdiv prec emax a (S754_finite false m e)).
Proof.
  destruct a as [sa|sa| |sa ma ea]; cbn; try contradiction; intros ->; try reflexivity.
  pose proof (SFdiv_core_nonneg ma ea m e) as Hq.
  destruct (SFdiv_core_binary _ _ _ _ _ _) as [[mz ez] lz]. cbn [fst] in Hq.
  apply binary_round_aux_signed, Hq.
Qed.

End Rounding.

(* ================================================================== *)
(** * The tension on binary64 *)
(* ================================================================== *)

Section TensionBinary64.
Local Open Scope float_scope.

Lemma SFcompare_antisym (a b : spec_float) :
  SFcompare a b = Some Gt -> SFcompare b a = Some Lt.
Proof.
  destruct a as [sa|sa| |sa ma ea], b as [sb|sb| |sb mb eb]; cbn;
    try destruct sa; try destruct sb; try congruence;
    rewrite (Z.compare_antisym eb ea);
    pose proof (Pos.compare_cont_antisym ma mb Eq) as Hm; cbn [CompOpp] in Hm;
    rewrite <- Hm;
    destruct (Z.compare eb ea); cbn; try congruence;
    destruct (Pos.compare_cont Eq ma mb); cbn; congruence.
Qed.

Lemma ltb_leb (a b : float) : PrimFloat.ltb a b = true -> PrimFloat.leb a b = true.
Proof.
  rewrite FloatAxioms.ltb_spec, FloatAxioms.leb_spec. unfold SFltb, SFleb.
  destruct (SFcompare _ _) as [[]|]; congruence.
Qed.

(** Two numbers, neither of them NaN and neither below the other. *)
Lemma not_ltb_leb (a b : float) :
  PrimFloat.is_nan a = false -> PrimFloat.is_nan b = false ->
  PrimFloat.ltb b a = false -> PrimFloat.leb a b = true.
Proof.
  unfold PrimFloat.is_nan.
  rewrite !FloatAxioms.eqb_spec, FloatAxioms.ltb_spec, FloatAxioms.leb_spec.
  unfold SFeqb, SFltb, SFleb. intros Ha Hb Hlt.
  destruct (SFcompare (Prim2SF a) (Prim2SF b)) as [[]|] eqn:E; try reflexivity.
  - rewrite (SFcompare_antisym _ _ E) in Hlt. discriminate.
  - destruct (Prim2SF a) as [sa|sa| |sa ma ea], (Prim2SF b) as [sb|sb| |sb mb eb];
      cbn in *; try destruct sa; try destruct sb; cbn in *; congruence.
Qed.

(** [Math.max(0, Math.min(1, a))] is NaN or lies between 0 and 1. *)
Lemma clamp01_nan_or_bounded (a : float) :
  PrimFloat.is_nan (clamp01 a) = true
  \/ (PrimFloat.leb 0 (clamp01 a) = true /\ PrimFloat.leb (clamp01 a) 1 = true).
Proof.
  unfold clamp01. cbn [max min Float64].
  replace (lit 0) with 0 by (vm_compute; reflexivity).
  replace (lit 1) with 1 by (vm_compute; reflexivity).
  unfold F64.min.
  replace (PrimFloat.is_nan 1) with false by reflexivity.
  replace (PrimFloat.get_sign 1) with false by reflexivity.
  cbn [orb].
  destruct (PrimFloat.is_nan a) eqn:Ha; [left; reflexivity|].
  assert (Hm : forall m, PrimFloat.is_nan m = false -> PrimFloat.leb m 1 = true ->
             PrimFloat.is_nan (F64.max 0 m) = true
             \/ (PrimFloat.leb 0 (F64.max 0 m) = true
                 /\ PrimFloat.leb (F64.max 0 m) 1 = true)).
  { intros m Hnan Hle. unfold F64.max.
    replace (PrimFloat.is_nan 0) with false by reflexivity.
    replace (PrimFloat.get_sign 0) with false by reflexivity.
    rewrite Hnan. cbn [orb]. right.
    destruct (PrimFloat.ltb 0 m) eqn:E0; [split; [apply ltb_leb, E0|exact Hle]|].
    destruct (PrimFloat.ltb m 0); split; reflexivity. }
  destruct (PrimFloat.ltb 1 a) eqn:E1; [apply Hm; reflexivity|].
  destruct (PrimFloat.ltb a 1) eqn:E2; [apply Hm; [exact Ha|apply ltb_leb, E2]|].
  apply Hm; [exact Ha|]. apply not_ltb_leb; [exact Ha|reflexivity|exact E1].
Qed.

(** On binary64 the tension of 21 landmarks is NaN or lies in [0,1]. *)
Lemma calculateTension_nan_or_bounded (lm : list (NormalizedLandmark float)) :
  List.length lm = 21%nat ->
  exists t, calculateTension lm = Some t
    /\ (PrimFloat.is_nan t = true
        \/ (PrimFloat.leb 0 t = true /\ PrimFloat.leb t 1 = true)).
Proof.
  intros Hlen.
  destruct (nth_error_in_range lm 0) as [wrist H0]; [lia|].
  destruct (nth_error_in_range lm 9) as [palmBase H9]; [lia|].
  destruct (nth_error_in_range lm 4) as [t4 H4]; [lia|].
  destruct (nth_error_in_range lm 8) as [t8 H8]; [lia|].
  destruct (nth_error_in_range lm 12) as [t12 H12]; [lia|].
  destruct (nth_error_in_range lm 16) as [t16 H16]; [lia|].
  destruct (nth_error_in_range lm 20) as [t20 H20]; [lia|].
  rewrite (calculateTension_unrolled lm _ _ _ _ _ _ _ H0 H9 H4 H8 H12 H16 H20).
  eexists. split; [reflexivity|]. apply clamp01_nan_or_bounded.
Qed.

Lemma SFcompare_refl (a : spec_float) : defined a -> SFcompare a a = Some Eq.
Proof.
  destruct a as [s|s| |s m e]; cbn; intros Ha; try (destruct s; reflexivity).
  - contradiction Ha; reflexivity.
  - rewrite Z.compare_refl, Pos.compare_cont_refl. destruct s; reflexivity.
Qed.

Lemma is_nan_defined (a : float) : PrimFloat.is_nan a = false <-> defined (Prim2SF a).
Proof.
  unfold PrimFloat.is_nan. rewrite FloatAxioms.eqb_spec. unfold SFeqb. split.
  - intros Hc Ha. rewrite Ha in Hc. discriminate.
  - intros Ha. rewrite (SFcompare_refl _ Ha). reflexivity.
Qed.

Lemma nonneg_is_nan (a : float) : nonneg a -> PrimFloat.is_nan a = false.
Proof. intros Ha. apply is_nan_defined, (signed_defined false), Ha. Qed.

Lemma is_finite_spec (a : float) :
  PrimFloat.is_finite a = true -> finite_or_zero (Prim2SF a).
Proof.
  unfold PrimFloat.is_finite, PrimFloat.is_infinity, PrimFloat.is_nan.
  rewrite !FloatAxioms.eqb_spec, FloatAxioms.abs_spec. unfold SFeqb.
  destruct (Prim2SF a) as [s|[]| |s m e]; cbn; intros Hc; try discriminate; exact I.
Qed.

Lemma or_else_finite (a : float) :
  PrimFloat.is_finite a = true -> finite_or_zero (Prim2SF (a || lit 0)%js).
Proof.
  intros Ha. cbn [or_else Float64]. unfold F64.or_else.
  destruct (_ || _)%bool; [exact I|apply is_finite_spec, Ha].
Qed.

Lemma square_nonneg (a : float) : defined (Prim2SF a) -> nonneg (a * a).
Proof. intros Ha. unfold nonneg. rewrite FloatAxioms.mul_spec. apply SFmul_square, Ha. Qed.

Lemma distance_nonneg (a b : NormalizedLandmark float) :
  finite_landmark a = true -> finite_landmark b = true -> nonneg (distance a b).
Proof.
  unfold finite_landmark. rewrite !andb_true_iff.
  intros [[Hax Hay] Haz] [[Hbx Hby] Hbz].
  unfold nonneg, distance. cbn [sqrt add mul sub Float64].
  rewrite FloatAxioms.sqrt_spec. apply SFsqrt_nonneg.
  rewrite !FloatAxioms.add_spec.
  repeat apply SFadd_nonneg; apply square_nonneg; rewrite FloatAxioms.sub_spec;
    apply SFsub_defined; try (apply is_finite_spec; assumption);
    apply or_else_finite; assumption.
Qed.

Lemma ltb_zero_nonneg (m : float) : PrimFloat.ltb 0 m = true -> nonneg m.
Proof.
  unfold nonneg. rewrite FloatAxioms.ltb_spec.
  replace (Prim2SF 0) with (S754_zero false) by reflexivity. unfold SFltb.
  destruct (Prim2SF m) as [s|[]| |[] mm em]; cbn; intros Hc; try discriminate; reflexivity.
Qed.

(** [Math.max(0, Math.min(1, a))] of a number is a number, and not [-0]. *)
Lemma clamp01_nonneg (a : float) : PrimFloat.is_nan a = false -> nonneg (clamp01 a).
Proof.
  intros Ha. unfold clamp01. cbn [max min Float64].
  replace (lit 0) with 0 by (vm_compute; reflexivity).
  replace (lit 1) with 1 by (vm_compute; reflexivity).
  assert (Hm : PrimFloat.is_nan (F64.min 1 a) = false).
  { unfold F64.min. rewrite Ha. replace (PrimFloat.is_nan 1) with false by reflexivity.
    cbn [orb]. destruct (PrimFloat.ltb 1 a); [reflexivity|].
    destruct (PrimFloat.ltb a 1); [exact Ha|].
    destruct (PrimFloat.get_sign 1); [reflexivity|exact Ha]. }
  generalize dependent (F64.min 1 a). intros m Hm. unfold F64.max. rewrite Hm.
  replace (PrimFloat.is_nan 0) with false by reflexivity.
  replace (PrimFloat.get_sign 0) with false by reflexivity. cbn [orb].
  destruct (PrimFloat.ltb 0 m) eqn:E0; [apply ltb_zero_nonneg, E0|].
  destruct (PrimFloat.ltb m 0); reflexivity.
Qed.

Lemma curl_of_nonneg (e : float) : PrimFloat.is_nan e = false -> nonneg (curl_of e).
Proof.
  intros He.
  change (curl_of e) with (clamp01 (PrimFloat.div (PrimFloat.sub (lit 1.5) e) (lit 1.0))).
  apply clamp01_nonneg, is_nan_defined.
  rewrite FloatAxioms.div_spec, FloatAxioms.sub_spec.
  replace (Prim2SF (lit 1.0)) with (S754_finite false 4503599627370496 (-52))
    by (vm_compute; reflexivity).
  apply SFdiv_by_finite.
  replace (Prim2SF (lit 1.5)) with (S754_finite false 6755399441055744 (-52))
    by (vm_compute; reflexivity).
  apply SFsub_from_finite, is_nan_defined, He.
Qed.

(** A distance that is finite and not zero is a positive finite number. *)
Lemma positive_finite (p : float) :
  nonneg p -> PrimFloat.eqb p 0 = false -> PrimFloat.is_finite p = true ->
  exists m e, Prim2SF p = S754_finite false m e.
Proof.
  unfold nonneg. intros Hs Hz Hf. apply is_finite_spec in Hf.
  rewrite FloatAxioms.eqb_spec in Hz.
  replace (Prim2SF 0) with (S754_zero false) in Hz by reflexivity.
  destruct (Prim2SF p) as [s|s| |s m e]; cbn in Hs, Hz, Hf; try contradiction.
  - discriminate.
  - subst s. exists m, e. reflexivity.
Qed.

Lemma finger_curl_nonneg (wrist palmBase tip : NormalizedLandmark float) :
  finite_landmark wrist = true -> finite_landmark palmBase = true ->
  finite_landmark tip = true ->
  PrimFloat.eqb (distance wrist palmBase) 0 = false ->
  PrimFloat.is_finite (distance wrist palmBase) = true ->
  nonneg (finger_curl wrist palmBase tip).
Proof.
  intros Hw Hp Ht Hz Hf. unfold finger_curl. apply curl_of_nonneg, nonneg_is_nan.
  destruct (positive_finite _ (distance_nonneg _ _ Hw Hp) Hz Hf) as (m & e & E).
  cbn [div Float64]. unfold nonneg. rewrite FloatAxioms.div_spec, E.
  apply SFdiv_nonneg, distance_nonneg; assumption.
Qed.

Lemma add_nonneg (a b : float) : nonneg a -> nonneg b -> nonneg (a + b).
Proof. unfold nonneg. rewrite FloatAxioms.add_spec. apply SFadd_nonneg. Qed.

(** On binary64, with finite coordinates and a palm size that is finite and
    not zero, the tension is a number between 0 and 1. *)
Lemma calculateTension_bounded (lm : list (NormalizedLandmark float))
    (wrist palmBase : NormalizedLandmark float) :
  List.length lm = 21%nat ->
  (forall i p, In i tension_inputs -> nth_error lm i = Some p -> finite_landmark p = true) ->
  nth_error lm 0 = Some wrist -> nth_error lm 9 = Some palmBase ->
  PrimFloat.eqb (distance wrist palmBase) 0 = false ->
  PrimFloat.is_finite (distance wrist palmBase) = true ->
  exists t, calculateTension lm = Some t
    /\ PrimFloat.leb 0 t = true /\ PrimFloat.leb t 1 = true.
Proof.
  intros Hlen Hfin H0 H9 Hz Hf.
  destruct (nth_error_in_range lm 4) as [t4 H4]; [lia|].
  destruct (nth_error_in_range lm 8) as [t8 H8]; [lia|].
  destruct (nth_error_in_range lm 12) as [t12 H12]; [lia|].
  destruct (nth_error_in_range lm 16) as [t16 H16]; [lia|].
  destruct (nth_error_in_range lm 20) as [t20 H20]; [lia|].
  rewrite (calculateTension_unrolled lm _ _ _ _ _ _ _ H0 H9 H4 H8 H12 H16 H20).
  eexists. split; [reflexivity|].
  assert (Hc : forall i tip, In i tension_inputs -> nth_error lm i = Some tip ->
                 nonneg (finger_curl wrist palmBase tip)).
  { intros i tip Hi Hn. apply finger_curl_nonneg; try assumption.
    - apply (Hfin 0%nat); [cbn; tauto|exact H0].
    - apply (Hfin 9%nat); [cbn; tauto|exact H9].
    - apply (Hfin i); assumption. }
  match goal with |- context [clamp01 ?a] =>
    destruct (clamp01_nan_or_bounded a) as [Hn|Hb]; [|exact Hb];
    assert (Ha : PrimFloat.is_nan a = false);
    [|rewrite (nonneg_is_nan _ (clamp01_nonneg a Ha)) in Hn; discriminate]
  end.
  apply nonneg_is_nan. cbn [div add Float64]. unfold nonneg.
  rewrite FloatAxioms.div_spec.
  replace (Prim2SF (lit 5)) with (S754_finite false 5629499534213120 (-50))
    by (vm_compute; reflexivity).
  apply SFdiv_nonneg.
  repeat apply add_nonneg;
    [vm_compute; reflexivity
    |apply (Hc 4%nat)|apply (Hc 8%nat)|apply (Hc 12%nat)|apply (Hc 16%nat)|apply (Hc 20%nat)];
    try assumption; cbn; tauto.
Qed.

End TensionBinary64.

(* ================================================================== *)
(** * The tension in real arithmetic *)
(* ================================================================== *)

Section TensionIdeal.
Import TensionSpec.
Local Open Scope R_scope.

Lemma lit_Ideal (q : Q) : lit (num := R) q = IZR (Qnum q) / IZR (Zpos (Qden q)).
Proof. reflexivity. Qed.

Lemma clamp_bounds (a : R) : 0 <= clamp 0 1 a <= 1.
Proof.
  unfold clamp. split.
  - apply Rmax_l.
  - apply Rmax_lub; [lra | apply Rmin_l].
Qed.

Lemma nth_error_landmark (lm : list (NormalizedLandmark R)) (i : nat) :
  (i < List.length lm)%nat -> nth_error lm i = Some (landmark lm i).
Proof. intros Hlt. unfold landmark. apply nth_error_nth'. exact Hlt. Qed.

Lemma curl_of_Ideal (e : R) : curl_of e = clamp 0 1 ((1.5 - e) / 1.0).
Proof.
  unfold curl_of, clamp. cbn [max min sub div Ideal]. rewrite !lit_Ideal. cbn [Qnum Qden].
  f_equal; [lra|]. f_equal; lra.
Qed.

(** C1. For every array of 21 landmarks whose palm size is not zero,
    [calculateTension] returns a tension that lies in [0,1] and is the
    mean, clamped to [0,1], of the curls of the five fingers, the curl of a
    finger being [(1.5 - extension) / 1.0] clamped to [0,1] and its
    extension the distance of its tip from landmark 9 over the palm size.
    The value is stated in real arithmetic; on binary64 the program
    computes the same expression, rounded, and for 21 landmarks with
    finite coordinates and a palm size that is finite and not zero its
    result is a number between 0 and 1. *)
Theorem calculateTension_mean_curl
    (lm : list (NormalizedLandmark R)) (lm64 : list (NormalizedLandmark float))
    (wrist palmBase : NormalizedLandmark float) :
  List.length lm = 21%nat -> palmSize lm <> 0 ->
  List.length lm64 = 21%nat ->
  nth_error lm64 0 = Some wrist -> nth_error lm64 9 = Some palmBase ->
  (forall i p, In i tension_inputs -> nth_error lm64 i = Some p ->
     finite_landmark p = true) ->
  PrimFloat.eqb (distance wrist palmBase) 0 = false ->
  PrimFloat.is_finite (distance wrist palmBase) = true ->
  (calculateTension lm = Some (tension lm) /\ 0 <= tension lm <= 1)
  /\ (exists t, calculateTension lm64 = Some t
        /\ PrimFloat.leb 0 t = true /\ PrimFloat.leb t 1 = true).
Proof.
  intros Hlen _ Hlen64 H0 H9 Hfin Hz Hf.
  split; [|exact (calculateTension_bounded lm64 wrist palmBase Hlen64 Hfin H0 H9 Hz Hf)].
  split; [|apply clamp_bounds].
  rewrite (calculateTension_unrolled lm (landmark lm 0) (landmark lm 9)
             (landmark lm 4) (landmark lm 8) (landmark lm 12)
             (landmark lm 16) (landmark lm 20))
    by (apply nth_error_landmark; lia).
  f_equal. unfold clamp01, tension, mean, finger_pairs, finger_curl.
  cbn [map fst fold_right List.length].
  rewrite !curl_of_Ideal.
  unfold curl, extension, palmSize, clamp.
  cbn [max min add div Ideal]. rewrite !lit_Ideal. cbn [Qnum Qden INR].
  f_equal; [lra|]. f_equal; [lra|]. lra.
Qed.

Lemma flat_hand_palmSize : palmSize flat_hand = 1.
Proof.
  unfold palmSize, landmark, flat_hand. cbn [map seq nth Nat.eqb existsb fst finger_pairs orb].
  unfold distance, origin. cbn [x y z or_else sub mul add sqrt Ideal].
  rewrite lit_Ideal. cbn [Qnum Qden]. unfold Re.or_else.
  destruct (Req_dec_T 0 0) as [_|Hne]; [|contradiction Hne; reflexivity].
  replace ((0 - 0) * (0 - 0) + (0 - 1) * (0 - 1) + (0 / 1 - 0 / 1) * (0 / 1 - 0 / 1))
    with 1 by lra.
  apply sqrt_1.
Qed.

Lemma calculateTension_mean_curl_witness :
  (calculateTension flat_hand = Some (tension flat_hand) /\ 0 <= tension flat_hand <= 1)
  /\ (exists t, calculateTension Pose.open_hand = Some t
        /\ PrimFloat.leb 0 t = true /\ PrimFloat.leb t 1 = true).
Proof.
  apply (calculateTension_mean_curl flat_hand Pose.open_hand (Pose.pt 0 0) (Pose.pt 0 1)).
  - reflexivity.
  - rewrite flat_hand_palmSize. lra.
  - reflexivity.
  - reflexivity.
  - reflexivity.
  - intros i p Hi Hp. cbn [tension_inputs In] in Hi.
    repeat (destruct Hi as [Hi|Hi]; [subst i; vm_compute in Hp; injection Hp as Hp;
                                     subst p; vm_compute; reflexivity|]).
    contradiction Hi.
  - vm_compute. reflexivity.
  - vm_compute. reflexivity.
Defined.

End TensionIdeal.

(* ================================================================== *)
(** * The aggregator *)
(* ================================================================== *)

Section AggregatorFacts.
Context {num : Type} `{JsNumber num}.
Local Open Scope js_scope.

Lemma last_cons {A} (l : list A) (a d : A) : last (a :: l) d = last l a.
Proof.
  revert a d. induction l as [|b l IH]; intros a d; [reflexivity|].
  change (last (a :: b :: l) d) with (last (b :: l) d).
  rewrite (IH b d), (IH b a). reflexivity.
Qed.

Lemma overwrite_last (gs : list Gesture) (acc : Gesture) :
  fold_left overwrite gs acc = last (filter specific gs) acc.
Proof.
  revert acc. induction gs as [|g gs IH]; intros acc; [reflexivity|].
  cbn [fold_left filter]. rewrite IH. unfold overwrite.
  destruct (specific g); [rewrite last_cons|]; reflexivity.
Qed.

Lemma scan_fold (hands : list (list (NormalizedLandmark num)))
    (handedness : option (list string)) :
  forall rest pre gs ts s,
    hands = pre ++ rest ->
    map detectGesture rest = map Some gs ->
    map calculateTension rest = map Some ts ->
    exists s',
      foldM (scan_hand hands handedness)
            (seq (List.length pre) (List.length rest)) s = Some s'
      /\ totalTension s' = fold_left add ts (totalTension s)
      /\ detectedGesture s' = fold_left overwrite gs (detectedGesture s).
Proof.
  induction rest as [|lm rest IH]; intros pre gs ts s Hh Hg Ht.
  - destruct gs; [|discriminate]. destruct ts; [|discriminate].
    exists s. repeat split.
  - destruct gs as [|g gs]; [discriminate|]. destruct ts as [|t ts]; [discriminate|].
    cbn [map] in Hg, Ht. injection Hg as Hg1 Hg. injection Ht as Ht1 Ht.
    cbn [List.length seq foldM].
    assert (Hnth : nth_error hands (List.length pre) = Some lm).
    { rewrite Hh, nth_error_app2 by lia. rewrite Nat.sub_diag. reflexivity. }
    unfold scan_hand at 1. rewrite Hnth. cbn [bind].
    rewrite Ht1. cbn [bind]. rewrite Hg1. cbn [bind].
    match goal with
    | |- context [foldM _ _ ?s1] =>
        destruct (IH (pre ++ [lm]) gs ts s1) as (s' & Hs' & Htot & Hdet)
    end.
    + rewrite <- app_assoc. exact Hh.
    + exact Hg.
    + exact Ht.
    + rewrite length_app, Nat.add_1_r in Hs'.
      exists s'. split; [exact Hs'|]. split.
      * rewrite Htot. reflexivity.
      * rewrite Hdet. reflexivity.
Qed.

(** C5 (amended). For a tick with at least one hand, each of which can be
    classified, the aggregated tension is the sum of the tensions over
    the number of hands, and the aggregated gesture is the LAST specific
    gesture in scan order; when no hand has a specific gesture it is fist
    above 0.7, open below 0.3 and none otherwise. *)
Theorem processResults_last_specific
    (hands : list (list (NormalizedLandmark num)))
    (handedness : option (list string)) (gs : list Gesture) (ts : list num) :
  hands <> [] ->
  map detectGesture hands = map Some gs ->
  map calculateTension hands = map Some ts ->
  exists hs,
    processResults {| multiHandLandmarks := Some hands;
                      multiHandedness := handedness |} = Some hs
    /\ detected hs = true
    /\ tension hs = sum_tensions ts / of_Z (Z.of_nat (List.length hands))
    /\ gesture hs = (if specific (last_specific gs) then last_specific gs
                     else gesture_of_tension (tension hs)).
Proof.
  intros Hne Hg Ht.
  destruct (scan_fold hands handedness hands [] gs ts
              {| totalTension := lit 0; sawLeft := false;
                 sawRight := false; detectedGesture := none |}
              eq_refl Hg Ht) as (s' & Hs' & Htot & Hdet).
  cbn [List.length totalTension detectedGesture] in Hs', Htot, Hdet.
  rewrite overwrite_last in Hdet.
  unfold processResults. cbn [multiHandLandmarks multiHandedness].
  destruct hands as [|lm hands']; [contradiction Hne; reflexivity|].
  rewrite Hs'. cbn [bind]. eexists. split; [reflexivity|].
  cbn [detected tension gesture]. split; [reflexivity|].
  split; [rewrite Htot; reflexivity|].
  unfold last_specific, gesture_of_tension. rewrite Hdet.
  set (d := last (filter specific gs) none).
  unfold specific. destruct d; reflexivity.
Qed.

End AggregatorFacts.

(* ================================================================== *)
(** * The classifier and the aggregator on binary64 *)
(* ================================================================== *)

Section Binary64.
Local Open Scope float_scope.

Example literal_1_5 : lit 1.5 = 1.5.
Proof. reflexivity. Qed.

Example literal_0_7 : lit 0.7 = 0x1.6666666666666p-1.
Proof. reflexivity. Qed.

Example poses_classified :
  map detectGesture
      [Pose.victory_hand; Pose.love_hand; Pose.thumbs_up_hand;
       Pose.point_hand; Pose.open_hand; Pose.fist_hand]
  = [Some victory; Some love; Some thumbs_up; Some point; Some none; Some none].
Proof. vm_compute. reflexivity. Qed.

Example poses_measured :
  map calculateTension [Pose.open_hand; Pose.fist_hand] = [Some 0; Some 1].
Proof. vm_compute. reflexivity. Qed.

Lemma detectGesture_priority_witness :
  exists f, fingerStates Pose.victory_hand = Some f
    /\ isVictory f = true
    /\ detectGesture Pose.victory_hand = Some victory.
Proof.
  destruct (detectGesture_priority Pose.victory_hand) as (f & Hf & _ & _ & Hv).
  - vm_compute. apply le_n.
  - exists f. assert (Hvic : isVictory f = true).
    { vm_compute in Hf. injection Hf as <-. reflexivity. }
    split; [exact Hf|]. split; [exact Hvic|]. exact (Hv Hvic).
Defined.

Lemma calculateTension_noninterference_witness :
  Pose.move_joints Pose.victory_hand <> Pose.victory_hand
  /\ calculateTension Pose.victory_hand
     = calculateTension (Pose.move_joints Pose.victory_hand).
Proof.
  split.
  - vm_compute. discriminate.
  - apply (calculateTension_noninterference Pose.victory_hand
              (Pose.move_joints Pose.victory_hand)).
    intros i Hi. unfold tension_inputs in Hi. cbn [In] in Hi.
    repeat (destruct Hi as [<-|Hi]; [reflexivity|]). contradiction.
Defined.

(** C5, as stated, fails: with a victory hand scanned first and a
    pointing hand second, the first specific gesture is victory, but the
    aggregated gesture is point. *)
Lemma processResults_first_does_not_win :
  map detectGesture [Pose.victory_hand; Pose.point_hand] = [Some victory; Some point]
  /\ first_specific [victory; point] = victory
  /\ option_map (@gesture float) (processResults Pose.victory_then_point) = Some point.
Proof. vm_compute. repeat split. Qed.

Lemma processResults_last_specific_witness :
  exists hs,
    processResults Pose.victory_then_point = Some hs
    /\ detected hs = true
    /\ tension hs
       = sum_tensions (map Pose.tension_or_zero [Pose.victory_hand; Pose.point_hand])
         / of_Z 2
    /\ gesture hs = point.
Proof.
  destruct (processResults_last_specific
              [Pose.victory_hand; Pose.point_hand]
              (Some ["Left"; "Right"]%string) [victory; point]
              (map Pose.tension_or_zero [Pose.victory_hand; Pose.point_hand]))
    as (hs & Hhs & Hd & Ht & Hg).
  - discriminate.
  - vm_compute. reflexivity.
  - vm_compute. reflexivity.
  - exists hs. split; [exact Hhs|]. split; [exact Hd|]. split; [exact Ht|].
    rewrite Hg. reflexivity.
Defined.

(** C9. The classifier returns ['love'] for a hand, and the aggregator
    passes it on, but the declared union [GestureType] has only the four
    members none, open, fist and victory. *)
Theorem GestureType_lacks_love :
  detectGesture Pose.love_hand = Some love
  /\ option_map (@gesture float)
       (processResults {| multiHandLandmarks := Some [Pose.love_hand];
                          multiHandedness := None |}) = Some love
  /\ ~ In (gesture_literal love) GestureType
  /\ (forall g, In (gesture_literal g) GestureType
                <-> g = none \/ g = open \/ g = fist \/ g = victory).
Proof.
  split; [vm_compute; reflexivity|]. split; [vm_compute; reflexivity|].
  split.
  - cbn. intros [E|[E|[E|[E|[]]]]]; discriminate E.
  - intros g. unfold GestureType. cbn [In]. split.
    + destruct g; cbn; intros [E|[E|[E|[E|[]]]]]; try discriminate E; tauto.
    + intros [->|[->|[->| ->]]]; cbn; tauto.
Qed.

Lemma is_nan_nan (a : float) : PrimFloat.is_nan a = true <-> Prim2SF a = S754_nan.
Proof.
  unfold PrimFloat.is_nan. rewrite FloatAxioms.eqb_spec. unfold SFeqb.
  destruct (Prim2SF a) as [s|s| |s m e];
    try (rewrite SFcompare_refl by discriminate; split; discriminate).
  split; reflexivity.
Qed.

(** Once the tension or the smoothed tension is NaN, the smoothed tension
    is NaN. *)
Lemma smooth_nan (target prev : float) :
  PrimFloat.is_nan target = true \/ PrimFloat.is_nan prev = true ->
  PrimFloat.is_nan (Smoothing.smooth target prev) = true.
Proof.
  intros Hn.
  assert (Hd : Prim2SF (target - prev) = S754_nan).
  { rewrite FloatAxioms.sub_spec. destruct Hn as [Hn|Hn]; apply is_nan_nan in Hn; rewrite Hn.
    - reflexivity.
    - destruct (Prim2SF target); reflexivity. }
  unfold Smoothing.smooth. cbn [abs sub add mul ltb Float64].
  replace (PrimFloat.ltb (PrimFloat.abs (target - prev)) (lit 0.003)) with false.
  - apply is_nan_nan. rewrite FloatAxioms.add_spec, FloatAxioms.mul_spec, Hd.
    destruct (Prim2SF prev); reflexivity.
  - rewrite FloatAxioms.ltb_spec, FloatAxioms.abs_spec, Hd. reflexivity.
Qed.

(** C4. [calculateTension] has no case for a palm size of 0, and its
    result is not always a number of [0,1], the range that the code
    declares for [tension]: when all landmarks of a hand coincide the palm
    size is 0, every extension is 0/0 and the tension is NaN, which the two
    clamps pass on.  [processResults] delivers it as the tension of a
    detected hand, and the smoothing of [App] answers NaN whenever the
    tension or the smoothed tension is NaN: from then on the smoothed
    tension is NaN. *)
Theorem calculateTension_collapsed_hand_is_nan :
  (let* wrist := nth_error Pose.collapsed_hand 0 in
   let* palmBase := nth_error Pose.collapsed_hand 9 in
   Some (distance wrist palmBase)) = Some 0
  /\ option_map PrimFloat.is_nan (calculateTension Pose.collapsed_hand) = Some true
  /\ option_map (fun hs => (detected hs, PrimFloat.is_nan (tension hs)))
       (processResults {| multiHandLandmarks := Some [Pose.collapsed_hand];
                          multiHandedness := None |}) = Some (true, true)
  /\ (forall target prev : float,
        PrimFloat.is_nan target = true \/ PrimFloat.is_nan prev = true ->
        PrimFloat.is_nan (Smoothing.smooth target prev) = true).
Proof.
  split; [vm_compute; reflexivity|]. split; [vm_compute; reflexivity|].
  split; [vm_compute; reflexivity|]. exact smooth_nan.
Qed.

End Binary64.

(* ================================================================== *)
(** * The accumulators of the morph engine *)
(* ================================================================== *)

Section MorphIdeal.
Import MorphSpec.
Local Open Scope R_scope.

Lemma lit_Q2R (q : Q) : lit (num := R) q = Q2R q.
Proof. reflexivity. Qed.

Lemma ltb_Ideal (a b : R) : ltb a b = if Rlt_dec a b then true else false.
Proof. reflexivity. Qed.

(** Literals of the program read as decimal constants of [R]. *)
Ltac read_literals :=
  repeat match goal with
         | |- context [@lit R Ideal ?q] => change (@lit R Ideal q) with (Q2R q)
         end.

Lemma openingSpeed_abs (d : R) : Rabs (Rmin d 0) = openingSpeed d.
Proof.
  unfold openingSpeed, Rmin, Rmax, Rabs.
  destruct (Rle_dec d 0), (Rle_dec 0 (- d));
    match goal with |- context [Rcase_abs ?a] => destruct (Rcase_abs a) end; lra.
Qed.

Lemma openingSpeed_nonneg (d : R) : 0 <= openingSpeed d.
Proof. apply Rmax_l. Qed.

Lemma accumulate_range (d acc gain cap : R) :
  0 <= gain -> 0 <= acc <= cap -> 0 <= accumulate d acc gain cap <= cap.
Proof.
  intros Hg Hacc. unfold accumulate.
  destruct (Rlt_dec d (- (0.015))); [|exact Hacc].
  assert (0 <= openingSpeed d * gain)
    by (apply Rmult_le_pos; [apply openingSpeed_nonneg | exact Hg]).
  split; [|apply Rmin_r].
  apply Rmin_glb; lra.
Qed.

(** One full-mode frame, cell by cell. *)
Lemma update_refs_cells (tension delta : R) (r : Refs R) :
  let d := tension - prevTensionRef r in
  let b := accumulate d (burstEnergy r) 25 5 in
  burstEnergy (update_refs tension delta r) = b * 0.92
  /\ explosionPhase (update_refs tension delta r)
     = accumulate d (explosionPhase r) 30 1 * 0.95
  /\ cumulativeExplosion (update_refs tension delta r)
     = accumulate d (cumulativeExplosion r) 10 2 * 0.98
  /\ shockwaveRadius (update_refs tension delta r)
     = (if Rlt_dec 0.5 b then shockwaveRadius r + delta * 15 * b
        else shockwaveRadius r) * 0.96.
Proof.
  intros d b. subst b. unfold update_refs, accumulate.
  cbn [burstEnergy explosionPhase cumulativeExplosion shockwaveRadius].
  read_literals. rewrite !ltb_Ideal.
  cbn [add sub mul neg abs min Ideal]. fold d.
  replace (Q2R 0) with 0 by (unfold Q2R; cbn; lra).
  rewrite openingSpeed_abs.
  replace (Q2R 0.015) with 0.015 by reflexivity.
  replace (Q2R 0.5) with 0.5 by reflexivity.
  replace (Q2R 0.92) with 0.92 by reflexivity.
  replace (Q2R 0.95) with 0.95 by reflexivity.
  replace (Q2R 0.98) with 0.98 by reflexivity.
  replace (Q2R 0.96) with 0.96 by reflexivity.
  replace (Q2R 25) with 25 by (unfold Q2R; cbn; lra).
  replace (Q2R 30) with 30 by (unfold Q2R; cbn; lra).
  replace (Q2R 10) with 10 by (unfold Q2R; cbn; lra).
  replace (Q2R 15) with 15 by (unfold Q2R; cbn; lra).
  replace (Q2R 5) with 5 by (unfold Q2R; cbn; lra).
  replace (Q2R 2) with 2 by (unfold Q2R; cbn; lra).
  replace (Q2R 1) with 1 by (unfold Q2R; cbn; lra).
  destruct (Rlt_dec d (- (0.015))); repeat split;
    match goal with
    | |- context [Rlt_dec 0.5 ?b] => destruct (Rlt_dec 0.5 b); reflexivity
    | _ => reflexivity
    end.
Qed.

Lemma update_refs_in_range (tension delta : R) (r : Refs R) :
  0 <= delta -> in_range r -> in_range (update_refs tension delta r).
Proof.
  intros Hd (Hb & He & Hc & Hs).
  destruct (update_refs_cells tension delta r) as (Eb & Ee & Ec & Es).
  cbv zeta in Eb, Ee, Ec, Es.
  pose proof (accumulate_range (tension - prevTensionRef r) (burstEnergy r) 25 5 ltac:(lra) Hb) as Rb.
  pose proof (accumulate_range (tension - prevTensionRef r) (explosionPhase r) 30 1 ltac:(lra) He) as Re.
  pose proof (accumulate_range (tension - prevTensionRef r) (cumulativeExplosion r) 10 2 ltac:(lra) Hc) as Rc.
  unfold in_range. rewrite Eb, Ee, Ec, Es.
  repeat split; try lra.
  destruct (Rlt_dec 0.5 _) as [Hgt|_]; [|lra].
  assert (0 <= delta * 15 * accumulate (tension - prevTensionRef r) (burstEnergy r) 25 5)
    by (apply Rmult_le_pos; lra).
  lra.
Qed.

Lemma initial_refs_in_range (tension : R) : in_range (initial_refs tension).
Proof.
  unfold in_range, initial_refs.
  cbn [burstEnergy explosionPhase cumulativeExplosion shockwaveRadius].
  read_literals. unfold Q2R. cbn. lra.
Qed.

(** C7. From zero-initialised accumulators, after any number of full-mode
    frames with tension in [0,1] and delta >= 0, burstEnergy is in [0,5],
    explosionPhase in [0,1], cumulativeExplosion in [0,2] and
    shockwaveRadius >= 0; in each frame the rapid-opening increments are
    capped at 5, 1 and 2 and the four accumulators are then multiplied by
    0.92, 0.95, 0.98 and 0.96. *)
Theorem accumulators_stay_in_range
    (shape : ParticleShape) (tension0 : R) (frames : list Frame) :
  shape <> TEXT -> Forall frame_ok frames ->
  in_range (run_frames shape frames (initial_refs tension0))
  /\ (forall tension delta r,
        let d := tension - prevTensionRef r in
        let b := accumulate d (burstEnergy r) 25 5 in
        let r' := useFrame_refs shape tension delta r in
        burstEnergy r' = b * 0.92
        /\ explosionPhase r' = accumulate d (explosionPhase r) 30 1 * 0.95
        /\ cumulativeExplosion r' = accumulate d (cumulativeExplosion r) 10 2 * 0.98
        /\ shockwaveRadius r'
           = (if Rlt_dec 0.5 b then shockwaveRadius r + delta * 15 * b
              else shockwaveRadius r) * 0.96).
Proof.
  intros Hshape Hframes.
  assert (Hfull : forall tension delta r,
             useFrame_refs shape tension delta r = update_refs tension delta r)
    by (intros; destruct shape; try reflexivity; contradiction Hshape; reflexivity).
  split.
  - unfold run_frames.
    generalize (initial_refs_in_range tension0).
    generalize (initial_refs tension0).
    induction Hframes as [|f frames Hf _ IH]; intros r Hr; [exact Hr|].
    cbn [fold_left]. apply IH. rewrite Hfull.
    apply update_refs_in_range; [apply Hf | exact Hr].
  - intros tension delta r. cbv zeta. rewrite Hfull.
    apply update_refs_cells.
Qed.

Lemma accumulators_stay_in_range_witness :
  in_range (run_frames SPHERE [(0.9, 0.016); (0.2, 0.016); (0.1, 0.02)]
                       (initial_refs 0.9)).
Proof.
  apply (accumulators_stay_in_range SPHERE 0.9 [(0.9, 0.016); (0.2, 0.016); (0.1, 0.02)]).
  - discriminate.
  - repeat constructor; cbn [fst snd]; lra.
Defined.

End MorphIdeal.

(* ================================================================== *)
(** * Division by a zero distance *)
(* ================================================================== *)

Section DirectionGuard.
Context {num : Type} `{JsNumber num}.
Variable Math_random : nat -> num.
Local Open Scope js_scope.

(** Where [dist > 0.01] is false the three components are random. *)
Lemma direction_random (tx ty tz : num) (n : nat) :
  let dist := sqrt (tx * tx + ty * ty + tz * tz) in
  (dist >? lit 0.01) = false ->
  direction Math_random tx ty tz n
  = Some ((dist, (Math_random n - lit 0.5,
                  Math_random (S n) - lit 0.5,
                  Math_random (S (S n)) - lit 0.5)), S (S (S n))).
Proof.
  intros dist Hle. unfold direction, direction_component. fold dist.
  rewrite Hle. reflexivity.
Qed.

(** Where [dist > 0.01] is true the target is divided by [dist]. *)
Lemma direction_quotient (tx ty tz : num) (n : nat) :
  let dist := sqrt (tx * tx + ty * ty + tz * tz) in
  (dist >? lit 0.01) = true ->
  direction Math_random tx ty tz n
  = Some ((dist, (tx / dist, ty / dist, tz / dist)), n).
Proof.
  intros dist Hgt. unfold direction, direction_component. fold dist.
  rewrite Hgt. reflexivity.
Qed.

End DirectionGuard.

Section DirectionGuardBinary64.
Local Open Scope float_scope.

(** A binary64 zero, of either sign, is not above 0.01. *)
Lemma zero_not_above_threshold (d : float) :
  PrimFloat.eqb d 0 = true -> PrimFloat.ltb (lit 0.01) d = false.
Proof.
  rewrite FloatAxioms.eqb_spec, FloatAxioms.ltb_spec.
  replace (Prim2SF 0) with (S754_zero false) by (vm_compute; reflexivity).
  replace (Prim2SF (lit 0.01)) with (S754_finite false 5764607523034235 (-59))
    by (vm_compute; reflexivity).
  destruct (Prim2SF d) as [s|s| |s m e]; try destruct s; cbn; congruence.
Qed.

(** The guard of the particle loop, and the tension computation without
    one.  When the distance [dist] of a target from the origin is not above
    0.01, and so when it is 0, each component of the direction is
    [Math.random() - 0.5] and nothing is divided by [dist]; when it is above
    0.01 the target is divided by [dist], which is then not 0.
    [calculateTension] has no such case: for every array of 21 landmarks it
    is the clamped mean of the five curls, each computed from
    [tipToPalm / palmSize]. *)
Theorem zero_distance_guards
    (Math_random : nat -> float) (tx ty tz : float) (n : nat)
    (lm : list (NormalizedLandmark float)) :
  let dist := PrimFloat.sqrt (tx * tx + ty * ty + tz * tz) in
  (PrimFloat.ltb (lit 0.01) dist = false ->
     direction Math_random tx ty tz n
     = Some ((dist, (Math_random n - lit 0.5,
                     Math_random (S n) - lit 0.5,
                     Math_random (S (S n)) - lit 0.5)), S (S (S n))))
  /\ (PrimFloat.eqb dist 0 = true -> PrimFloat.ltb (lit 0.01) dist = false)
  /\ (PrimFloat.ltb (lit 0.01) dist = true ->
        direction Math_random tx ty tz n
        = Some ((dist, (tx / dist, ty / dist, tz / dist)), n)
        /\ PrimFloat.eqb dist 0 = false)
  /\ (List.length lm = 21%nat ->
        exists wrist palmBase t4 t8 t12 t16 t20,
          map (nth_error lm) [0; 9; 4; 8; 12; 16; 20]%nat
          = map Some [wrist; palmBase; t4; t8; t12; t16; t20]
          /\ calculateTension lm
             = Some (clamp01 ((lit 0 + finger_curl wrist palmBase t4
                              + finger_curl wrist palmBase t8
                              + finger_curl wrist palmBase t12
                              + finger_curl wrist palmBase t16
                              + finger_curl wrist palmBase t20) / lit 5)%js)).
Proof.
  intros dist. split; [|split; [|split]].
  - intros Hle. exact (direction_random Math_random tx ty tz n Hle).
  - apply zero_not_above_threshold.
  - intros Hgt. split.
    + exact (direction_quotient Math_random tx ty tz n Hgt).
    + destruct (PrimFloat.eqb dist 0) eqn:E; [|reflexivity].
      rewrite (zero_not_above_threshold dist E) in Hgt. discriminate.
  - intros Hlen.
    destruct (nth_error_in_range lm 0) as [wrist H0]; [lia|].
    destruct (nth_error_in_range lm 9) as [palmBase H9]; [lia|].
    destruct (nth_error_in_range lm 4) as [t4 H4]; [lia|].
    destruct (nth_error_in_range lm 8) as [t8 H8]; [lia|].
    destruct (nth_error_in_range lm 12) as [t12 H12]; [lia|].
    destruct (nth_error_in_range lm 16) as [t16 H16]; [lia|].
    destruct (nth_error_in_range lm 20) as [t20 H20]; [lia|].
    exists wrist, palmBase, t4, t8, t12, t16, t20. split.
    + cbn [map]. rewrite H0, H9, H4, H8, H12, H16, H20. reflexivity.
    + apply calculateTension_unrolled; assumption.
Qed.

Example direction_of_centre :
  direction (fun k => PrimFloat.of_uint63 (Uint63.of_Z (Z.of_nat k))) 0 0 0 7%nat
  = Some ((0, (6.5, 7.5, 8.5)), 10%nat).
Proof. vm_compute. reflexivity. Qed.

End DirectionGuardBinary64.

(* ================================================================== *)
(** * The shape library *)
(* ================================================================== *)

Section ShapeFacts.
Context {num : Type} `{JsNumber num} `{JsMath num}.
Variable Math_random : nat -> num.
Variable canvas_pixels : string -> nat -> nat.
Local Open Scope js_scope.

Lemma store_length (a : list num) (i : nat) (v : num) :
  List.length (store a i v) = List.length a.
Proof.
  unfold store. destruct (Nat.ltb_spec i (List.length a)) as [Hlt|Hge]; [|reflexivity].
  rewrite length_app. cbn [List.length]. rewrite length_firstn, length_skipn. lia.
Qed.

Lemma nth_error_store (a : list num) (i j : nat) (v : num) :
  (i < List.length a)%nat ->
  nth_error (store a i v) j = if Nat.eqb j i then Some (fround v) else nth_error a j.
Proof.
  intros Hlt. unfold store.
  destruct (Nat.ltb_spec i (List.length a)) as [_|Hge]; [|lia].
  assert (Hfl : List.length (firstn i a) = i) by (rewrite length_firstn; lia).
  destruct (Nat.eqb_spec j i) as [->|Hne].
  - rewrite nth_error_app2 by lia. rewrite Hfl, Nat.sub_diag. reflexivity.
  - destruct (Nat.lt_ge_cases j i) as [Hji|Hji].
    + rewrite nth_error_app1 by lia. rewrite nth_error_firstn.
      destruct (Nat.ltb_spec j i); [reflexivity|lia].
    + rewrite nth_error_app2 by lia. rewrite Hfl.
      replace (j - i)%nat with (S (j - S i)) by lia.
      cbn [nth_error]. rewrite nth_error_skipn. f_equal. lia.
Qed.

Lemma store_point_length (a : list num) (i : nat) (p : Point) :
  List.length (store_point a i p) = List.length a.
Proof.
  destruct p as [[px py] pz]. unfold store_point. rewrite !store_length. reflexivity.
Qed.

(** Storing the same point at index [i] of two buffers that agree below
    [3 * i] makes them agree below [3 * (i + 1)]. *)
Lemma store_point_same (a b : list num) (i : nat) (p : Point) :
  (3 * i + 3 <= List.length a)%nat ->
  same_points i a b -> same_points (S i) (store_point a i p) (store_point b i p).
Proof.
  intros Hlen [Hab Hsame]. split.
  - rewrite !store_point_length. exact Hab.
  - intros j Hj. destruct p as [[px py] pz]. unfold store_point.
    rewrite !nth_error_store by (rewrite ?store_length; lia).
    destruct (Nat.eqb_spec j (i * 3 + 2)); [reflexivity|].
    destruct (Nat.eqb_spec j (i * 3 + 1)); [reflexivity|].
    destruct (Nat.eqb_spec j (i * 3)); [reflexivity|].
    apply Hsame. lia.
Qed.

Lemma fill_returns (point : nat -> Gen Point) :
  (forall i, returns (point i)) ->
  forall todo i positions n,
  exists filled n',
    fill point i todo positions n = Some (filled, n')
    /\ List.length filled = List.length positions.
Proof.
  intros Hpoint. induction todo as [|todo IH]; intros i positions n.
  - exists positions, n. split; reflexivity.
  - cbn [fill]. unfold bindG at 1.
    destruct (Hpoint i n) as (p & n1 & Hp). rewrite Hp.
    destruct (IH (S i) (store_point positions i p) n1) as (filled & n' & Hf & Hl).
    exists filled, n'. split; [exact Hf|].
    rewrite Hl. apply store_point_length.
Qed.

(** The loop overwrites the points [i .. i + todo - 1] of the buffer. *)
Lemma fill_same (point : nat -> Gen Point) :
  forall todo i a b n fa fb na nb,
    (3 * (i + todo) <= List.length a)%nat ->
    same_points i a b ->
    fill point i todo a n = Some (fa, na) ->
    fill point i todo b n = Some (fb, nb) ->
    same_points (i + todo) fa fb /\ na = nb.
Proof.
  induction todo as [|todo IH]; intros i a b n fa fb na nb Hlen Hsame Ha Hb.
  - cbn [fill] in Ha, Hb. unfold ret in Ha, Hb.
    injection Ha as <- <-. injection Hb as <- <-.
    rewrite Nat.add_0_r. split; [exact Hsame|reflexivity].
  - cbn [fill] in Ha, Hb. unfold bindG in Ha at 1. unfold bindG in Hb at 1.
    destruct (point i n) as [[p n1]|]; [|discriminate].
    replace (i + S todo)%nat with (S i + todo)%nat by lia.
    apply (IH (S i) (store_point a i p) (store_point b i p) n1); try assumption.
    + rewrite store_point_length. lia.
    + apply store_point_same; [lia|exact Hsame].
Qed.

Lemma same_points_all (count : nat) (a b : list num) :
  List.length a = (3 * count)%nat -> same_points count a b -> a = b.
Proof.
  intros Hlen [Hab Hsame]. apply nth_error_ext. intros j.
  destruct (Nat.lt_ge_cases j (3 * count)) as [Hj|Hj].
  - apply Hsame. exact Hj.
  - transitivity (@None num); [|symmetry]; apply nth_error_None; lia.
Qed.

Lemma nth_error_store_point (a : list num) (i j : nat) (p : Point) :
  (3 * i + 3 <= List.length a)%nat ->
  nth_error (store_point a i p) j
  = if Nat.eqb j (3 * i + 2) then Some (fround (snd p))
    else if Nat.eqb j (3 * i + 1) then Some (fround (snd (fst p)))
    else if Nat.eqb j (3 * i) then Some (fround (fst (fst p)))
    else nth_error a j.
Proof.
  intros Hlen. destruct p as [[px py] pz]. unfold store_point.
  rewrite !nth_error_store by (rewrite ?store_length; lia).
  replace (i * 3 + 2)%nat with (3 * i + 2)%nat by lia.
  replace (i * 3 + 1)%nat with (3 * i + 1)%nat by lia.
  replace (i * 3)%nat with (3 * i)%nat by lia.
  reflexivity.
Qed.

(** After the loop, the entries below [3 * i] are as before, and the
    three entries of each particle [k] of the loop hold the point that the
    generator returned for [k]. *)
Lemma fill_entries (point : nat -> Gen Point) :
  forall todo i a n fa na,
    (3 * (i + todo) <= List.length a)%nat ->
    fill point i todo a n = Some (fa, na) ->
    (forall j, (j < 3 * i)%nat -> nth_error fa j = nth_error a j)
    /\ (forall k, (i <= k < i + todo)%nat ->
          exists nk p nk', point k nk = Some (p, nk') /\ holds_point fa k p).
Proof.
  induction todo as [|todo IH]; intros i a n fa na Hlen Hfill.
  - cbn [fill] in Hfill. unfold ret in Hfill. injection Hfill as <- <-.
    split; [reflexivity|]. intros k Hk. lia.
  - cbn [fill] in Hfill. unfold bindG in Hfill at 1.
    destruct (point i n) as [[p n1]|] eqn:Hp; [|discriminate].
    destruct (IH (S i) (store_point a i p) n1 fa na) as [Hlow Hhigh].
    + rewrite store_point_length. lia.
    + exact Hfill.
    + split.
      * intros j Hj. rewrite Hlow by lia.
        rewrite nth_error_store_point by lia.
        destruct (Nat.eqb_spec j (3 * i + 2)); [lia|].
        destruct (Nat.eqb_spec j (3 * i + 1)); [lia|].
        destruct (Nat.eqb_spec j (3 * i)); [lia|]. reflexivity.
      * intros k Hk. destruct (Nat.eq_dec k i) as [->|Hne].
        -- exists n, p, n1. split; [exact Hp|]. unfold holds_point.
           rewrite !Hlow by lia. rewrite !nth_error_store_point by lia.
           rewrite !Nat.eqb_refl.
           destruct (Nat.eqb_spec (3 * i + 1) (3 * i + 2)); [lia|].
           destruct (Nat.eqb_spec (3 * i) (3 * i + 2)); [lia|].
           destruct (Nat.eqb_spec (3 * i) (3 * i + 1)); [lia|].
           repeat split.
        -- apply Hhigh. lia.
Qed.

(** Every buffer of [3 * count] entries is filled to the same result. *)
Lemma fill_all (point : nat -> Gen Point) (count n : nat) :
  (forall i, returns (point i)) ->
  exists positions n',
    fill point 0 count (Float32Array (count * 3)) n = Some (positions, n')
    /\ List.length positions = (3 * count)%nat
    /\ (forall k, (k < count)%nat ->
          exists nk p nk', point k nk = Some (p, nk') /\ holds_point positions k p)
    /\ forall buffer, List.length buffer = (3 * count)%nat ->
         fill point 0 count buffer n = Some (positions, n').
Proof.
  intros Hpoint.
  assert (Hzero : List.length (Float32Array (count * 3)) = (3 * count)%nat)
    by (unfold Float32Array; rewrite repeat_length; lia).
  destruct (fill_returns point Hpoint count 0 (Float32Array (count * 3)) n)
    as (positions & n' & Hfill & Hlen).
  exists positions, n'. split; [exact Hfill|]. split; [lia|].
  split.
  { intros k Hk.
    assert (Hroom : (3 * (0 + count) <= List.length (Float32Array (count * 3)))%nat)
      by (rewrite Hzero; lia).
    apply (proj2 (fill_entries point count 0 _ n positions n' Hroom Hfill)).
    lia. }
  intros buffer Hbuf.
  destruct (fill_returns point Hpoint count 0 buffer n) as (filled & n2 & Hfill2 & Hlen2).
  destruct (fill_same point count 0 buffer (Float32Array (count * 3)) n
              filled positions n2 n') as [Hsame ->]; try assumption.
  - lia.
  - split; [lia|]. intros j Hj. lia.
  - rewrite Hfill2. f_equal. f_equal.
    apply (same_points_all count); [lia|exact Hsame].
Qed.

Ltac run_generator :=
  unfold bindG, random, ret;
  repeat match goal with
         | |- context [if ?c then _ else _] => destruct c
         end;
  eexists; eexists; reflexivity.

Lemma text_point_returns (found : list (nat * nat)) (i : nat) :
  returns (text_point Math_random found i).
Proof.
  intros n. unfold text_point.
  destruct (Nat.ltb_spec 0 (List.length found)) as [Hpos|_].
  - destruct (nth_error found (i mod List.length found)) as [[px py]|] eqn:E.
    + run_generator.
    + apply nth_error_None in E.
      pose proof (Nat.mod_upper_bound i (List.length found)). lia.
  - run_generator.
Qed.

Lemma shape_point_returns (shape : ParticleShape) (count i : nat) :
  (shape = FIREWORKS -> random_picks_burst Math_random) ->
  returns (shape_point Math_random shape count i).
Proof.
  intros Hburst n. destruct shape; cbn [shape_point].
  - unfold sphere_point. run_generator.
  - unfold heart_point. run_generator.
  - unfold flower_point. run_generator.
  - unfold saturn_point. run_generator.
  - unfold buddha_point. run_generator.
  - unfold fireworks_point, bindG at 1. unfold random at 1.
    destruct (Hburst eq_refl n) as [[[cx cy] cz] Hc]. rewrite Hc.
    run_generator.
  - unfold galaxy_point, galaxy_offset. run_generator.
  - unfold dna_point. destruct (Nat.eqb (i mod 2) 0); run_generator.
  - run_generator.
Qed.

(** Without foreground pixels the text generator stores the fallback
    pattern and draws no random number. *)
Lemma text_point_fallback (i n : nat) :
  text_point Math_random [] i n = Some (fallback_point i, n).
Proof. reflexivity. Qed.

(** C8. For every shape of the catalogue, every text and every count, the
    generator returns a position array of [3 * count] entries, and every
    entry of it is assigned: the three entries of particle [k] hold the
    point generated for [k], and the result is the same whatever the buffer
    held before.  The text shape is included, whatever the canvas holds;
    on a canvas without foreground pixels the point of particle [k] is the
    point of the fallback pattern.  (The fireworks index [burstCenters] by
    a random number and rely on [Math.random] for it.) *)
Theorem GenerateParticles_count
    (shape : ParticleShape) (count : nat) (customText : option string) (n : nat) :
  (shape = FIREWORKS -> random_picks_burst Math_random) ->
  exists positions n',
    GenerateParticles Math_random canvas_pixels count shape customText n
    = Some (positions, n')
    /\ List.length positions = (3 * count)%nat
    /\ (forall k, (k < count)%nat ->
          exists nk p nk',
            particle_point Math_random canvas_pixels shape count customText k nk
            = Some (p, nk')
            /\ holds_point positions k p
            /\ (shape = TEXT ->
                  textPixels (canvas_pixels (text_or_default customText)) = [] ->
                  p = fallback_point k))
    /\ forall buffer, List.length buffer = (3 * count)%nat ->
         GenerateParticles_into Math_random canvas_pixels count shape customText
                                buffer n
         = Some (positions, n').
Proof.
  intros Hburst. unfold GenerateParticles.
  assert (Hgen : forall buffer,
             GenerateParticles_into Math_random canvas_pixels count shape
                                    customText buffer n
             = fill (particle_point Math_random canvas_pixels shape count customText)
                    0 count buffer n)
    by (intros buffer; destruct shape; reflexivity).
  destruct (fill_all (particle_point Math_random canvas_pixels shape count customText)
                     count n) as (positions & n' & Hfill & Hlen & Hpts & Hany).
  - intros i. destruct shape; cbn [particle_point];
      try (apply shape_point_returns; exact Hburst); apply text_point_returns.
  - exists positions, n'. rewrite Hgen. split; [exact Hfill|]. split; [exact Hlen|].
    split.
    + intros k Hk. destruct (Hpts k Hk) as (nk & p & nk' & Hp & Hholds).
      exists nk, p, nk'. split; [exact Hp|]. split; [exact Hholds|].
      intros -> Hblank. cbn [particle_point] in Hp. rewrite Hblank in Hp.
      rewrite text_point_fallback in Hp. injection Hp as <- _. reflexivity.
    + intros buffer Hbuf. rewrite Hgen. apply Hany. exact Hbuf.
Qed.

End ShapeFacts.

(* ================================================================== *)
(** * The gesture debouncer *)
(* ================================================================== *)

Module AppFacts.
Import App.

#[local] Arguments includes : simpl never.

Lemma Gesture_eqb_eq (a b : Gesture) : Gesture_eqb a b = true <-> a = b.
Proof. destruct a, b; cbn; split; intros E; try reflexivity; discriminate E. Qed.

Lemma Gesture_eqb_refl (a : Gesture) : Gesture_eqb a a = true.
Proof. destruct a; reflexivity. Qed.

Lemma Gesture_eqb_neq (a b : Gesture) : a <> b -> Gesture_eqb a b = false.
Proof.
  intros Hne. destruct (Gesture_eqb a b) eqn:E; [|reflexivity].
  apply Gesture_eqb_eq in E. contradiction.
Qed.

Lemma cleanup_own (s : State) :
  at_most_own_timer s -> cleanup s = with_timers [] s.
Proof.
  destruct s as [hg cg sh col psh pcol ref ts nid].
  unfold at_most_own_timer, cleanup, clearTimeout, with_timers, remove_timer.
  cbn. intros [_ [->|(t & -> & ->)]].
  - destruct ref; reflexivity.
  - cbn. rewrite Nat.eqb_refl. reflexivity.
Qed.

Lemma effect_no_timer (s : State) :
  timers s = [] -> effect s = resolve s.
Proof.
  destruct s as [hg cg sh col psh pcol ref ts nid]. cbn. intros ->.
  unfold effect, resolve, special, armed, clearTimeout, with_timers. cbn.
  destruct (Gesture_eqb hg cg); cbn; [reflexivity|].
  destruct ref; cbn; destruct (includes specialGestures hg);
    try reflexivity; destruct (includes specialGestures cg); reflexivity.
Qed.

Lemma rerun_own (s : State) : at_most_own_timer s -> rerun s = resolve s.
Proof.
  intros Hown. unfold rerun. rewrite (cleanup_own s Hown).
  rewrite effect_no_timer by reflexivity.
  destruct s; reflexivity.
Qed.

Lemma render_unchanged (d : Deps) (s0 : State) : d = deps s0 -> render d s0 = s0.
Proof.
  intros E. unfold render. destruct (Deps_eq_dec d (deps s0)); [reflexivity|contradiction].
Qed.

Lemma resolve_own (s0 : State) : at_most_own_timer s0 -> at_most_own_timer (resolve s0).
Proof.
  destruct s0 as [hg cg sh col psh pcol ref ts nid].
  unfold at_most_own_timer, ref_issued, resolve, armed, with_timers, special. cbn.
  intros [Href _].
  destruct (Gesture_eqb hg cg); cbn; [split; [exact Href|left; reflexivity]|].
  destruct (includes specialGestures hg); cbn.
  { split; [intros i Hi; injection Hi as Hi; lia | right; eexists; split; reflexivity]. }
  destruct (includes specialGestures cg); cbn.
  { split; [intros i Hi; injection Hi as Hi; lia | right; eexists; split; reflexivity]. }
  split; [exact Href|left; reflexivity].
Qed.

Lemma resolve_fixed (s0 : State) :
  deps (resolve s0) <> deps s0 -> resolve (resolve s0) = resolve s0.
Proof.
  destruct s0 as [hg cg sh col psh pcol ref ts nid].
  unfold resolve, armed, with_timers, special, deps. cbn.
  destruct (Gesture_eqb hg cg) eqn:E; cbn; [intros Hne; contradiction Hne; reflexivity|].
  destruct (includes specialGestures hg); cbn;
    [intros Hne; contradiction Hne; reflexivity|].
  destruct (includes specialGestures cg); cbn;
    [intros Hne; contradiction Hne; reflexivity|].
  intros _. rewrite Gesture_eqb_refl. reflexivity.
Qed.

Lemma render_changed (d : Deps) (s0 : State) :
  at_most_own_timer s0 -> d <> deps s0 -> render d s0 = resolve s0.
Proof.
  intros Hown Hne. unfold render.
  destruct (Deps_eq_dec d (deps s0)); [contradiction|].
  rewrite (rerun_own s0 Hown).
  destruct (Deps_eq_dec (deps s0) (deps (resolve s0))) as [_|Hne2]; [reflexivity|].
  rewrite (rerun_own _ (resolve_own s0 Hown)).
  apply resolve_fixed. congruence.
Qed.

(** The effect needs no third pass: after [render] its dependencies are
    those of the state it would produce. *)
Lemma render_settles (d : Deps) (s0 : State) :
  at_most_own_timer s0 -> deps (rerun (render d s0)) = deps (render d s0) \/ d = deps s0.
Proof.
  intros Hown. destruct (Deps_eq_dec d (deps s0)) as [E|Hne]; [right; exact E|left].
  rewrite (render_changed d s0 Hown Hne).
  rewrite (rerun_own _ (resolve_own s0 Hown)).
  destruct (Deps_eq_dec (deps (resolve s0)) (deps s0)) as [E|Hne2].
  - destruct s0 as [hg cg sh col psh pcol ref ts nid].
    revert E. unfold resolve, armed, with_timers, special, deps. cbn.
    destruct (Gesture_eqb hg cg) eqn:E1; cbn; [rewrite E1; reflexivity|].
    destruct (includes specialGestures hg) eqn:E2; cbn; [rewrite E1, E2; reflexivity|].
    destruct (includes specialGestures cg) eqn:E3; cbn; [rewrite E1, E2, E3; reflexivity|].
    rewrite Gesture_eqb_refl. reflexivity.
  - rewrite (resolve_fixed s0 Hne2). reflexivity.
Qed.

Lemma resolve_settled (s0 : State) : at_most_own_timer s0 -> settled (resolve s0).
Proof.
  destruct s0 as [hg cg sh col psh pcol ref ts nid].
  unfold at_most_own_timer, settled, ref_issued, closure_current, resolve,
    armed, with_timers, special. cbn.
  intros [Href _].
  destruct (Gesture_eqb hg cg) eqn:E; cbn.
  { split; [exact Href|]. apply Gesture_eqb_eq. exact E. }
  assert (Hne : hg <> cg) by (intros ->; rewrite Gesture_eqb_refl in E; discriminate).
  destruct (includes specialGestures hg) eqn:Eh; cbn.
  { split; [intros i Hi; injection Hi as Hi; lia|]. repeat split; try reflexivity; try lia; assumption. }
  destruct (includes specialGestures cg) eqn:Ec; cbn.
  { split; [intros i Hi; injection Hi as Hi; lia|]. repeat split; try reflexivity; try lia; assumption. }
  split; [exact Href|reflexivity].
Qed.

Lemma settled_own (s : State) : settled s -> at_most_own_timer s.
Proof.
  unfold settled, at_most_own_timer. intros [Href Ht]. split; [exact Href|].
  destruct (timers s) as [|t [|t' ts]]; [left; reflexivity| |contradiction].
  right. exists t. split; [reflexivity|apply Ht].
Qed.

Lemma same_state (s s' : State) :
  deps s = deps s' -> timers s = timers s' ->
  gestureTimerRef s = gestureTimerRef s' -> nextId s = nextId s' -> s = s'.
Proof.
  destruct s, s'. unfold deps. cbn. intros [= -> -> -> -> -> ->] -> -> ->. reflexivity.
Qed.

Lemma keeps_own (f : State -> State) (s : State) :
  keeps_timers f -> at_most_own_timer s -> at_most_own_timer (f s).
Proof.
  intros Hf [Href Ht]. destruct (Hf s) as (Et & Er & En).
  unfold at_most_own_timer, ref_issued. rewrite Et, Er, En. split; assumption.
Qed.

Lemma update_keeps (f : State -> State) (s : State) :
  keeps_timers f -> at_most_own_timer s ->
  update f s = if Deps_eq_dec (deps s) (deps (f s)) then s else resolve (f s).
Proof.
  intros Hf Hown. unfold update.
  destruct (Deps_eq_dec (deps s) (deps (f s))) as [E|Hne].
  - rewrite render_unchanged by exact E.
    destruct (Hf s) as (Et & Er & En). symmetry. apply same_state; congruence.
  - apply render_changed; [apply keeps_own; assumption|exact Hne].
Qed.

Lemma update_settled (f : State -> State) (s : State) :
  keeps_timers f -> settled s -> settled (update f s).
Proof.
  intros Hf Hs. rewrite (update_keeps f s Hf (settled_own s Hs)).
  destruct (Deps_eq_dec (deps s) (deps (f s))); [exact Hs|].
  apply resolve_settled, keeps_own; [exact Hf|apply settled_own, Hs].
Qed.

Lemma setters_keep_timers :
  (forall g, keeps_timers (setHandGesture g))
  /\ (forall g, keeps_timers (setCurrentGesture g))
  /\ (forall sh, keeps_timers (setActiveShape sh))
  /\ (forall c, keeps_timers (setParticleColor c))
  /\ (forall sh, keeps_timers (setPreviousShape sh))
  /\ (forall c, keeps_timers (setPreviousColor c)).
Proof. repeat split. Qed.

Lemma run_callback_keeps (cb : Callback) : keeps_timers (run_callback cb).
Proof.
  intros s. destruct cb as [g c sh col|psh pcol]; cbn.
  - destruct (includes specialGestures c), g; repeat split.
  - repeat split.
Qed.

(** *** Time *)

Lemma tick_idle (s : State) : timers s = [] -> tick s = s.
Proof.
  destruct s as [hg cg sh col psh pcol ref ts nid]. cbn. intros ->. reflexivity.
Qed.

Lemma tick_wait (s : State) (t : Timer) (r : nat) :
  timers s = [t] -> remaining t = S (S r) -> tick s = waiting t (S r) s.
Proof.
  destruct s as [hg cg sh col psh pcol ref ts nid]. destruct t as [i rem cb].
  cbn. intros -> ->. reflexivity.
Qed.

Lemma tick_fire (s : State) (t : Timer) :
  timers s = [t] -> remaining t = 1 ->
  tick s = update (run_callback (callback t)) (with_timers [] s).
Proof.
  destruct s as [hg cg sh col psh pcol ref ts nid]. destruct t as [i rem cb].
  cbn. intros -> ->. unfold tick, due, advance, fire. cbn.
  rewrite Nat.eqb_refl. cbn. unfold remove_timer. cbn.
  rewrite Nat.eqb_refl. reflexivity.
Qed.

Lemma fire_changes_deps (s : State) (t : Timer) :
  handGesture s <> currentGesture s -> closure_current s t ->
  deps (run_callback (callback t) (with_timers [] s)) <> deps s.
Proof.
  destruct s as [hg cg sh col psh pcol ref ts nid]. destruct t as [i rem cb].
  unfold closure_current, special. cbn. intros Hne.
  destruct cb as [g c sh' col'|psh' pcol']; cbn.
  - intros (-> & -> & -> & -> & Hsp & _).
    destruct (includes specialGestures cg), hg; cbn; unfold deps; cbn;
      intros E; injection E; intros; congruence.
  - intros (-> & -> & _ & Hsp & _). unfold deps. cbn.
    intros E. injection E. intros; subst. discriminate Hsp.
Qed.

Lemma tick_settled (s : State) : settled s -> settled (tick s).
Proof.
  intros Hs. pose proof Hs as [Href Ht].
  destruct (timers s) as [|t [|t' ts]] eqn:E; [| |contradiction].
  - rewrite tick_idle by exact E. exact Hs.
  - destruct Ht as (Hr & Hrem & Hne & Hcl).
    destruct (remaining t) as [|[|r]] eqn:Er; [lia| |].
    + rewrite (tick_fire s t E Er). unfold update.
      assert (Hown : at_most_own_timer (run_callback (callback t) (with_timers [] s))).
      { apply keeps_own; [apply run_callback_keeps|].
        split; [exact Href|left; reflexivity]. }
      rewrite render_changed; [apply resolve_settled, Hown|exact Hown|].
      intros Heq. apply (fire_changes_deps s t Hne Hcl). symmetry. exact Heq.
    + rewrite (tick_wait s t r E Er).
      unfold settled, waiting, with_timers, ref_issued, closure_current in *. cbn.
      split; [exact Href|]. repeat split; try assumption; try lia.
      destruct (callback t); intuition lia.
Qed.

Lemma step_settled (s : State) (e : Event) : settled s -> settled (step s e).
Proof.
  intros Hs. destruct e; cbn [step];
    try (apply update_settled; [|exact Hs]; intros s'; repeat split).
  apply tick_settled, Hs.
Qed.

Lemma initial_settled : settled initial.
Proof. split; [intros i [=]|reflexivity]. Qed.

Lemma reachable_settled (s : State) : reachable s -> settled s.
Proof.
  induction 1 as [|s e _ IH]; [apply initial_settled|apply step_settled, IH].
Qed.

Lemma run_settled (s : State) (evs : list Event) : settled s -> settled (run s evs).
Proof.
  revert s. induction evs as [|e evs IH]; intros s Hs; [exact Hs|].
  cbn. apply IH, step_settled, Hs.
Qed.

Lemma run_reachable (s : State) (evs : list Event) : reachable s -> reachable (run s evs).
Proof.
  revert s. induction evs as [|e evs IH]; intros s Hs; [exact Hs|].
  cbn. apply IH. constructor. exact Hs.
Qed.

(** *** Waiting for a timeout *)

Lemma run_cons (s : State) (e : Event) (evs : list Event) :
  run s (e :: evs) = run (step s e) evs.
Proof. reflexivity. Qed.

Lemma run_app (s : State) (evs evs' : list Event) :
  run s (evs ++ evs') = run (run s evs) evs'.
Proof. apply fold_left_app. Qed.

Lemma state_waiting (s : State) (t : Timer) :
  timers s = [t] -> s = waiting t (remaining t) s.
Proof.
  destruct s as [hg cg sh col psh pcol ref ts nid]. destruct t as [i rem cb].
  cbn. intros ->. reflexivity.
Qed.

Lemma run_ticks_waiting (s : State) (t : Timer) (n m : nat) :
  run (waiting t (n + S m) s) (ticks n) = waiting t (S m) s.
Proof.
  induction n as [|n IH]; [reflexivity|].
  cbn [ticks repeat run fold_left step].
  rewrite (tick_wait (waiting t (S n + S m) s)
             {| id := id t; remaining := S n + S m; callback := callback t |}
             (n + m)) by (cbn; f_equal; lia).
  replace (S (n + m)) with (n + S m) by lia. exact IH.
Qed.

Lemma run_ticks_wait (s : State) (t : Timer) (n : nat) :
  timers s = [t] -> n < remaining t ->
  run s (ticks n) = waiting t (remaining t - n) s.
Proof.
  intros Ht Hn. rewrite (state_waiting s t Ht) at 1.
  replace (remaining t) with (n + S (remaining t - n - 1)) at 1 by lia.
  rewrite run_ticks_waiting. f_equal. lia.
Qed.

Lemma run_ticks_fire (s : State) (t : Timer) (n : nat) :
  timers s = [t] -> remaining t = S n ->
  run s (ticks (S n)) = update (run_callback (callback t)) (with_timers [] s).
Proof.
  intros Ht Hr. unfold ticks.
  replace (repeat Tick (S n)) with (repeat Tick n ++ [Tick])
    by (symmetry; apply repeat_cons).
  rewrite run_app. fold (ticks n).
  rewrite (run_ticks_wait s t n Ht) by lia.
  replace (remaining t - n) with 1 by lia.
  cbn [run fold_left step].
  rewrite (tick_fire (waiting t 1 s)
             {| id := id t; remaining := 1; callback := callback t |})
    by reflexivity.
  reflexivity.
Qed.

(** *** A change of the raw gesture *)

Lemma hand_update (s : State) (g : Gesture) :
  settled s -> handGesture s <> g ->
  step s (HandUpdate g) = resolve (setHandGesture g s).
Proof.
  intros Hs Hne. cbn [step].
  rewrite (update_keeps _ s (proj1 setters_keep_timers g) (settled_own s Hs)).
  destruct (Deps_eq_dec (deps s) (deps (setHandGesture g s))) as [E|_]; [|reflexivity].
  destruct s. unfold deps in E. cbn in *. congruence.
Qed.

Lemma resolve_gestures (s : State) :
  handGesture (resolve s) = handGesture s
  /\ (currentGesture (resolve s) = currentGesture s
      \/ currentGesture (resolve s) = handGesture s)
  /\ activeShape (resolve s) = activeShape s
  /\ particleColor (resolve s) = particleColor s
  /\ previousShape (resolve s) = previousShape s
  /\ previousColor (resolve s) = previousColor s.
Proof.
  destruct s as [hg cg sh col psh pcol ref ts nid].
  unfold resolve, armed, with_timers, special. cbn.
  destruct (Gesture_eqb hg cg); cbn; [tauto|].
  destruct (includes specialGestures hg); cbn; [tauto|].
  destruct (includes specialGestures cg); cbn; tauto.
Qed.

Lemma resolve_confirm (s : State) :
  special (handGesture s) = true -> handGesture s <> currentGesture s ->
  resolve s
  = armed (Confirm (handGesture s) (currentGesture s) (activeShape s) (particleColor s))
          300 s.
Proof.
  intros Hsp Hne. destruct s as [hg cg sh col psh pcol ref ts nid].
  unfold resolve, armed, with_timers. cbn in *.
  rewrite (Gesture_eqb_neq hg cg Hne), Hsp. reflexivity.
Qed.

Lemma resolve_release (s : State) :
  special (handGesture s) = false -> special (currentGesture s) = true ->
  resolve s = armed (Revert (previousShape s) (previousColor s)) 1000 s.
Proof.
  intros Hh Hc. destruct s as [hg cg sh col psh pcol ref ts nid].
  unfold resolve, armed, with_timers. cbn in *.
  rewrite Hh, Hc.
  rewrite Gesture_eqb_neq by (intros ->; congruence). reflexivity.
Qed.

Lemma resolve_base (s : State) :
  special (handGesture s) = false -> special (currentGesture s) = false ->
  currentGesture (resolve s) = handGesture s /\ timers (resolve s) = [].
Proof.
  intros Hh Hc. destruct s as [hg cg sh col psh pcol ref ts nid].
  unfold resolve, armed, with_timers. cbn in *.
  rewrite Hh, Hc.
  destruct (Gesture_eqb hg cg) eqn:E; cbn; [|split; reflexivity].
  apply Gesture_eqb_eq in E. subst. split; reflexivity.
Qed.

Lemma resolve_same (s : State) :
  handGesture s = currentGesture s -> resolve s = with_timers [] s.
Proof.
  intros E. unfold resolve. cbn. rewrite E, Gesture_eqb_refl. reflexivity.
Qed.

(** *** The timeouts run *)

Lemma confirm_fires (s : State) (g c : Gesture) (sh : ParticleShape) (col : string) :
  at_most_own_timer s -> handGesture s = g -> currentGesture s <> g ->
  update (run_callback (Confirm g c sh col)) s
  = with_timers [] (run_callback (Confirm g c sh col) s).
Proof.
  intros Hown Hh Hc.
  rewrite (update_keeps _ s (run_callback_keeps _) Hown).
  assert (Hafter : handGesture (run_callback (Confirm g c sh col) s) = g
                   /\ currentGesture (run_callback (Confirm g c sh col) s) = g).
  { destruct s as [hg cg sh0 col0 psh pcol ref ts nid]. cbn in *. subst.
    destruct (includes specialGestures c), g; split; reflexivity. }
  destruct Hafter as [Eh Ec].
  destruct (Deps_eq_dec _ _) as [E|_].
  - exfalso. apply Hc. rewrite <- Ec.
    unfold deps in E. injection E. intros; congruence.
  - apply resolve_same. congruence.
Qed.

Lemma revert_fires (s : State) (psh : ParticleShape) (pcol : string) :
  at_most_own_timer s ->
  special (handGesture s) = false -> special (currentGesture s) = true ->
  update (run_callback (Revert psh pcol)) s
  = resolve (run_callback (Revert psh pcol) s).
Proof.
  intros Hown Hh Hc.
  rewrite (update_keeps _ s (run_callback_keeps _) Hown).
  destruct (Deps_eq_dec _ _) as [E|_]; [|reflexivity].
  exfalso. destruct s as [hg cg sh col psh0 pcol0 ref ts nid].
  unfold deps in E. cbn in *. injection E. intros; subst.
  vm_compute in Hc. discriminate Hc.
Qed.

(** *** A special gesture is shown *)

Lemma armed_timers (cb : Callback) (delay : nat) (s : State) :
  timers (armed cb delay s)
  = [{| id := nextId s; remaining := delay; callback := cb |}].
Proof. reflexivity. Qed.

Lemma show_special (s : State) (g : Gesture) :
  settled s -> handGesture s <> g -> special g = true -> g <> currentGesture s ->
  step s (HandUpdate g)
  = armed (Confirm g (currentGesture s) (activeShape s) (particleColor s)) 300
          (setHandGesture g s).
Proof.
  intros Hs Hh Hsp Hc. rewrite (hand_update s g Hs Hh).
  rewrite resolve_confirm; [reflexivity|exact Hsp|exact Hc].
Qed.

Lemma special_pending (s : State) (g : Gesture) (n : nat) :
  settled s -> handGesture s <> g -> special g = true -> g <> currentGesture s ->
  n < 300 ->
  run s (HandUpdate g :: ticks n)
  = waiting {| id := nextId s; remaining := 300;
               callback := Confirm g (currentGesture s) (activeShape s) (particleColor s) |}
            (300 - n)
            (armed (Confirm g (currentGesture s) (activeShape s) (particleColor s)) 300
                   (setHandGesture g s)).
Proof.
  intros Hs Hh Hsp Hc Hn. rewrite run_cons.
  rewrite (show_special s g Hs Hh Hsp Hc).
  rewrite (run_ticks_wait _ _ n (armed_timers _ _ _)) by (cbn [remaining]; lia).
  reflexivity.
Qed.

Lemma special_confirmed (s : State) (g : Gesture) :
  settled s -> handGesture s <> g -> special g = true -> g <> currentGesture s ->
  run s (HandUpdate g :: ticks 300)
  = with_timers []
      (run_callback (Confirm g (currentGesture s) (activeShape s) (particleColor s))
         (armed (Confirm g (currentGesture s) (activeShape s) (particleColor s)) 300
                (setHandGesture g s))).
Proof.
  intros Hs Hh Hsp Hc. rewrite run_cons.
  rewrite (show_special s g Hs Hh Hsp Hc).
  rewrite (run_ticks_fire _ _ 299 (armed_timers _ _ _)) by reflexivity.
  cbn [callback]. rewrite confirm_fires.
  - destruct s as [hg cg sh col psh pcol ref ts nid]. cbn.
    destruct (includes specialGestures cg), g; reflexivity.
  - split; [|left; reflexivity].
    destruct Hs as [Href _]. destruct s. unfold ref_issued in *. cbn in *.
    intros i Hi. injection Hi as Hi. lia.
  - reflexivity.
  - destruct s. cbn in Hc |- *. congruence.
Qed.

(** *** The hand leaves a special gesture *)

Lemma leave_special (s : State) (g : Gesture) :
  settled s -> handGesture s <> g -> special g = false ->
  special (currentGesture s) = true ->
  step s (HandUpdate g)
  = armed (Revert (previousShape s) (previousColor s)) 1000 (setHandGesture g s).
Proof.
  intros Hs Hh Hsp Hc. rewrite (hand_update s g Hs Hh).
  rewrite resolve_release; [reflexivity|exact Hsp|exact Hc].
Qed.

Lemma release_pending (s : State) (g : Gesture) (n : nat) :
  settled s -> handGesture s <> g -> special g = false ->
  special (currentGesture s) = true -> n < 1000 ->
  run s (HandUpdate g :: ticks n)
  = waiting {| id := nextId s; remaining := 1000;
               callback := Revert (previousShape s) (previousColor s) |}
            (1000 - n)
            (armed (Revert (previousShape s) (previousColor s)) 1000
                   (setHandGesture g s)).
Proof.
  intros Hs Hh Hsp Hc Hn. rewrite run_cons.
  rewrite (leave_special s g Hs Hh Hsp Hc).
  rewrite (run_ticks_wait _ _ n (armed_timers _ _ _)) by (cbn [remaining]; lia).
  reflexivity.
Qed.

Lemma released (s : State) (g : Gesture) :
  settled s -> handGesture s <> g -> special g = false ->
  special (currentGesture s) = true ->
  run s (HandUpdate g :: ticks 1000)
  = resolve
      (run_callback (Revert (previousShape s) (previousColor s))
         (with_timers []
            (armed (Revert (previousShape s) (previousColor s)) 1000
                   (setHandGesture g s)))).
Proof.
  intros Hs Hh Hsp Hc. rewrite run_cons.
  rewrite (leave_special s g Hs Hh Hsp Hc).
  rewrite (run_ticks_fire _ _ 999 (armed_timers _ _ _)) by reflexivity.
  cbn [callback]. apply revert_fires.
  - split; [|left; reflexivity].
    destruct Hs as [Href _]. destruct s. unfold ref_issued in *. cbn in *.
    intros i Hi. injection Hi as Hi. lia.
  - destruct s; exact Hsp.
  - destruct s; exact Hc.
Qed.

Lemma released_fields (s : State) (g : Gesture) :
  settled s -> handGesture s <> g -> special g = false ->
  special (currentGesture s) = true ->
  let s' := run s (HandUpdate g :: ticks 1000) in
  currentGesture s' = g /\ activeShape s' = previousShape s
  /\ particleColor s' = previousColor s /\ timers s' = [].
Proof.
  intros Hs Hh Hsp Hc s'. subst s'. rewrite (released s g Hs Hh Hsp Hc).
  match goal with |- context [resolve ?m] => set (mid := m) end.
  destruct (resolve_gestures mid) as (_ & _ & Esh & Ecol & _).
  destruct (resolve_base mid) as [Ecur Etim].
  - destruct s; exact Hsp.
  - reflexivity.
  - rewrite Ecur, Esh, Ecol, Etim. destruct s; repeat split.
Qed.

(** *** A gesture that is not shown is not committed *)

Lemma update_never (f : State -> State) (s : State) (g : Gesture) :
  keeps_timers f -> at_most_own_timer s ->
  handGesture s <> g -> currentGesture s <> g ->
  handGesture (f s) <> g -> currentGesture (f s) <> g ->
  handGesture (update f s) <> g /\ currentGesture (update f s) <> g.
Proof.
  intros Hf Hown Hh Hc Hfh Hfc. rewrite (update_keeps f s Hf Hown).
  destruct (Deps_eq_dec _ _); [split; assumption|].
  destruct (resolve_gestures (f s)) as (Eh & [Ec|Ec] & _); rewrite Eh, Ec; split; assumption.
Qed.

Lemma step_never (s : State) (e : Event) (g : Gesture) :
  settled s -> special g = true ->
  handGesture s <> g -> currentGesture s <> g -> is_hand_update e g = false ->
  handGesture (step s e) <> g /\ currentGesture (step s e) <> g.
Proof.
  intros Hs Hsp Hh Hc He.
  assert (Hnone : none <> g) by (intros <-; discriminate Hsp).
  pose proof (settled_own s Hs) as Hown.
  destruct e as [g'| |sh|c| |]; cbn [step].
  - apply update_never; [intros s'; repeat split|exact Hown|exact Hh|exact Hc| |].
    + cbn in He. destruct s. cbn. intros ->. rewrite Gesture_eqb_refl in He. discriminate.
    + destruct s; exact Hc.
  - destruct Hs as [Href Ht].
    destruct (timers s) as [|t [|t' ts]] eqn:E; [| |contradiction].
    + rewrite tick_idle by exact E. split; assumption.
    + destruct Ht as (Hr & Hrem & Hne & Hcl).
      destruct (remaining t) as [|[|r]] eqn:Er; [lia| |].
      * rewrite (tick_fire s t E Er).
        apply update_never.
        -- apply run_callback_keeps.
        -- split; [exact Href|left; reflexivity].
        -- destruct s; exact Hh.
        -- destruct s; exact Hc.
        -- destruct s as [hg cg sh col psh pcol ref ts0 nid].
           destruct (callback t) as [g0 c0 sh0 col0|psh0 pcol0]; cbn in *;
             [destruct (includes specialGestures c0), g0|]; exact Hh.
        -- unfold closure_current in Hcl.
           destruct s as [hg cg sh col psh pcol ref ts0 nid].
           destruct (callback t) as [g0 c0 sh0 col0|psh0 pcol0]; cbn in *.
           ++ destruct Hcl as (-> & _).
              destruct (includes specialGestures c0), hg; exact Hh.
           ++ exact Hnone.
      * rewrite (tick_wait s t r E Er). destruct s; split; assumption.
  - apply update_never;
      [intros s'; repeat split|exact Hown|exact Hh|exact Hc|destruct s; exact Hh
      |destruct s; exact Hc].
  - apply update_never;
      [intros s'; repeat split|exact Hown|exact Hh|exact Hc|destruct s; exact Hh
      |destruct s; exact Hc].
  - apply update_never;
      [intros s'; repeat split|exact Hown|exact Hh|exact Hc|destruct s; exact Hh
      |destruct s; exact Hc].
  - apply update_never;
      [intros s'; repeat split|exact Hown|exact Hh|exact Hc|destruct s; exact Hnone
      |destruct s; exact Hnone].
Qed.

Lemma run_never (evs : list Event) (s : State) (g : Gesture) :
  settled s -> special g = true ->
  handGesture s <> g -> currentGesture s <> g ->
  forallb (fun e => negb (is_hand_update e g)) evs = true ->
  currentGesture (run s evs) <> g.
Proof.
  revert s. induction evs as [|e evs IH]; intros s Hs Hsp Hh Hc Hevs; [exact Hc|].
  cbn [forallb] in Hevs. apply andb_prop in Hevs. destruct Hevs as [He Hevs].
  apply negb_true_iff in He.
  destruct (step_never s e g Hs Hsp Hh Hc He) as [Hh' Hc'].
  rewrite run_cons. apply IH; try assumption. apply step_settled, Hs.
Qed.

Lemma resolve_timers (s : State) (t : Timer) :
  In t (timers (resolve s)) -> id t = nextId s.
Proof.
  destruct s as [hg cg sh col psh pcol ref ts nid].
  unfold resolve, armed, with_timers, special. cbn.
  destruct (Gesture_eqb hg cg); cbn; [contradiction|].
  destruct (includes specialGestures hg); cbn; [intros [<-|[]]; reflexivity|].
  destruct (includes specialGestures cg); cbn; [intros [<-|[]]; reflexivity|contradiction].
Qed.

Lemma settled_timers (s : State) :
  settled s ->
  List.length (timers s) <= 1 /\ forall t, In t (timers s) -> id t < nextId s.
Proof.
  intros [Href Ht]. destruct (timers s) as [|t [|t' ts]]; [| |contradiction].
  - split; [cbn; lia|contradiction].
  - split; [cbn; lia|]. intros t0 [<-|[]]. apply Href, Ht.
Qed.


(** C3. In every reachable state at most one timeout is pending, and a
    change of the raw gesture leaves none of the timeouts that were pending
    before it.  A special raw gesture [g] that differs from the committed
    gesture is committed after 300 ms and not before; if the raw gesture
    changes before the 300 ms are over, [g] is not committed as long as it
    is not shown again.  With a special gesture committed, a raw gesture
    that is not special changes nothing for less than 1000 ms; at 1000 ms
    the closure sets the committed gesture to none, and the effect, run
    again, applies the raw gesture at once (none, open or fist).  With no
    special gesture committed, a raw gesture that is not special is
    committed without a timeout. *)
Theorem debounce_timing (s : State) (g : Gesture) :
  reachable s -> handGesture s <> g ->
  (List.length (timers s) <= 1
   /\ List.length (timers (step s (HandUpdate g))) <= 1
   /\ forall t t', In t (timers s) -> In t' (timers (step s (HandUpdate g))) ->
                   id t < id t')
  /\ (special g = true -> g <> currentGesture s ->
       (forall n, n < 300 ->
          currentGesture (run s (HandUpdate g :: ticks n)) = currentGesture s)
       /\ currentGesture (run s (HandUpdate g :: ticks 300)) = g
       /\ (forall n g' evs, n < 300 -> g' <> g ->
             forallb (fun e => negb (is_hand_update e g)) evs = true ->
             currentGesture (run s (HandUpdate g :: ticks n ++ HandUpdate g' :: evs))
             <> g))
  /\ (special g = false -> special (currentGesture s) = true ->
       (forall n, n < 1000 ->
          currentGesture (run s (HandUpdate g :: ticks n)) = currentGesture s
          /\ activeShape (run s (HandUpdate g :: ticks n)) = activeShape s
          /\ particleColor (run s (HandUpdate g :: ticks n)) = particleColor s)
       /\ (exists t, timers (run s (HandUpdate g :: ticks 999)) = [t]
                     /\ remaining t = 1
                     /\ forall s', currentGesture (run_callback (callback t) s') = none)
       /\ currentGesture (run s (HandUpdate g :: ticks 1000)) = g)
  /\ (special g = false -> special (currentGesture s) = false ->
       currentGesture (step s (HandUpdate g)) = g
       /\ timers (step s (HandUpdate g)) = []).
Proof.
  intros Hreach Hh. pose proof (reachable_settled s Hreach) as Hs.
  split; [|split; [|split]].
  - destruct (settled_timers s Hs) as [Hlen Hids].
    destruct (settled_timers _ (step_settled s (HandUpdate g) Hs)) as [Hlen' _].
    split; [exact Hlen|]. split; [exact Hlen'|].
    intros t t' Ht Ht'. rewrite (hand_update s g Hs Hh) in Ht'.
    apply resolve_timers in Ht'. rewrite Ht'. destruct s; apply (Hids t Ht).
  - intros Hsp Hc. split; [|split].
    + intros n Hn. rewrite (special_pending s g n Hs Hh Hsp Hc Hn). destruct s; reflexivity.
    + rewrite (special_confirmed s g Hs Hh Hsp Hc).
      destruct s as [hg cg sh col psh pcol ref ts nid]. cbn.
      destruct (includes specialGestures cg), g; reflexivity.
    + intros n g' evs Hn Hg' Hevs.
      change (HandUpdate g :: ticks n ++ HandUpdate g' :: evs)
        with ((HandUpdate g :: ticks n) ++ HandUpdate g' :: evs).
      rewrite run_app, run_cons.
      pose proof (run_settled s (HandUpdate g :: ticks n) Hs) as Hmid.
      revert Hmid. rewrite (special_pending s g n Hs Hh Hsp Hc Hn).
      set (mid := waiting _ _ _). intros Hmid.
      assert (Emid : handGesture mid = g /\ currentGesture mid = currentGesture s)
        by (destruct s; split; reflexivity).
      destruct Emid as [Emh Emc].
      assert (Hne : handGesture mid <> g') by congruence.
      apply run_never; [apply step_settled, Hmid|exact Hsp| | |exact Hevs].
      * rewrite (hand_update mid g' Hmid Hne).
        destruct (resolve_gestures (setHandGesture g' mid)) as (Eh & _).
        rewrite Eh. destruct mid; exact Hg'.
      * rewrite (hand_update mid g' Hmid Hne).
        destruct (resolve_gestures (setHandGesture g' mid)) as (_ & [Ec|Ec] & _);
          rewrite Ec; destruct mid; cbn in *; congruence.
  - intros Hsp Hc. split; [|split].
    + intros n Hn. rewrite (release_pending s g n Hs Hh Hsp Hc Hn).
      destruct s; repeat split.
    + rewrite (release_pending s g 999 Hs Hh Hsp Hc) by lia.
      eexists. split; [reflexivity|]. split; reflexivity.
    + apply (released_fields s g Hs Hh Hsp Hc).
  - intros Hsp Hc. rewrite (hand_update s g Hs Hh).
    destruct (resolve_base (setHandGesture g s)) as [E1 E2].
    + destruct s; exact Hsp.
    + destruct s; exact Hc.
    + rewrite E1, E2. destruct s; split; reflexivity.
Qed.


Lemma debounce_timing_witness :
  let shown := run initial (HandUpdate victory :: ticks 300) in
  currentGesture (run initial (HandUpdate victory :: ticks 299)) = none
  /\ currentGesture shown = victory
  /\ currentGesture
       (run initial (HandUpdate victory :: ticks 200 ++ HandUpdate none :: ticks 500))
     <> victory
  /\ currentGesture (run shown (HandUpdate none :: ticks 999)) = victory
  /\ currentGesture (run shown (HandUpdate none :: ticks 1000)) = none
  /\ currentGesture (step initial (HandUpdate fist)) = fist.
Proof.
  intros shown.
  destruct (debounce_timing initial victory reach_initial ltac:(discriminate))
    as (_ & Hconfirm & _ & _).
  destruct (Hconfirm eq_refl ltac:(discriminate)) as (Hwait & Hshown & Hnever).
  assert (Hreach : reachable shown) by (apply run_reachable, reach_initial).
  assert (Hraw : handGesture shown <> none) by (vm_compute; discriminate).
  destruct (debounce_timing shown none Hreach Hraw) as (_ & _ & Hrelease & _).
  destruct (Hrelease eq_refl) as (Hhold & _ & Hnone).
  { unfold shown. rewrite Hshown. reflexivity. }
  destruct (debounce_timing initial fist reach_initial ltac:(discriminate))
    as (_ & _ & _ & Hbase).
  destruct (Hbase eq_refl eq_refl) as [Hfist _].
  split; [exact (Hwait 299 ltac:(lia))|].
  split; [exact Hshown|].
  split; [exact (Hnever 200 none (ticks 500) ltac:(lia) ltac:(discriminate) eq_refl)|].
  split; [rewrite (proj1 (Hhold 999 ltac:(lia))); exact Hshown|].
  split; [exact Hnone|exact Hfist].
Defined.


End AppFacts.

(* ================================================================== *)
(** * The shape library in real arithmetic *)
(* ================================================================== *)

Section ShapeIdeal.
Local Open Scope R_scope.

(** A random source that always returns one half, and a blank canvas. *)
Lemma half_picks_burst : random_picks_burst (fun _ => 1 / 2).
Proof.
  intros k. unfold burst_center.
  cbn [Math_floor to_index Ideal_math mul Ideal].
  change (@lit R Ideal 5) with (Q2R 5).
  assert (E : Int_part (1 / 2 * Q2R 5) = 2%Z).
  { symmetry. apply Int_part_spec. unfold Q2R. cbn. lra. }
  assert (E2 : Int_part 2 = 2%Z).
  { symmetry. apply Int_part_spec. lra. }
  unfold ReMath.floor. rewrite E. unfold ReMath.to_index. rewrite E2.
  destruct (Rle_dec 0 2) as [_|Hn]; [|exfalso; apply Hn; lra].
  destruct (Req_dec_T 2 2) as [_|Hn]; [|contradiction Hn; reflexivity].
  eexists. reflexivity.
Qed.

Lemma GenerateParticles_count_witness :
  exists positions n',
    GenerateParticles (fun _ => 1 / 2) (fun _ _ => 0%nat) 4%nat FIREWORKS None 0%nat
    = Some (positions, n')
    /\ List.length positions = 12%nat.
Proof.
  destruct (GenerateParticles_count (fun _ => 1 / 2) (fun _ _ => 0%nat)
              FIREWORKS 4%nat None 0%nat (fun _ => half_picks_burst))
    as (positions & n' & Hgen & Hlen & _).
  exists positions, n'. split; [exact Hgen|exact Hlen].
Defined.

End ShapeIdeal.

(* ================================================================== *)
(** * Further properties of the code *)
(* ================================================================== *)

Section ResultsFacts.
Context {num : Type} `{JsNumber num}.
Local Open Scope js_scope.

Lemma calculateTension_defined (lm : list (NormalizedLandmark num)) :
  (21 <= List.length lm)%nat -> exists t, calculateTension lm = Some t.
Proof.
  intros Hlen.
  destruct (nth_error_in_range lm 0) as [wrist H0]; [lia|].
  destruct (nth_error_in_range lm 9) as [palmBase H9]; [lia|].
  destruct (nth_error_in_range lm 4) as [t4 H4]; [lia|].
  destruct (nth_error_in_range lm 8) as [t8 H8]; [lia|].
  destruct (nth_error_in_range lm 12) as [t12 H12]; [lia|].
  destruct (nth_error_in_range lm 16) as [t16 H16]; [lia|].
  destruct (nth_error_in_range lm 20) as [t20 H20]; [lia|].
  rewrite (calculateTension_unrolled lm _ _ _ _ _ _ _ H0 H9 H4 H8 H12 H16 H20).
  eexists. reflexivity.
Qed.

Lemma calculateTension_throws (lm : list (NormalizedLandmark num)) :
  calculateTension lm = None <-> (List.length lm < 21)%nat.
Proof.
  split.
  - intros Hn. destruct (Nat.lt_ge_cases (List.length lm) 21) as [Hlt|Hge]; [exact Hlt|].
    destruct (calculateTension_defined lm Hge) as [t Ht]. congruence.
  - intros Hlt. apply calculateTension_short, nth_error_None. lia.
Qed.

Lemma detectGesture_defined (lm : list (NormalizedLandmark num)) :
  (21 <= List.length lm)%nat -> exists g, detectGesture lm = Some g.
Proof.
  intros Hlen. destruct (fingerStates_defined lm Hlen) as [f Hf].
  rewrite (detectGesture_cascade lm f Hf). eexists. reflexivity.
Qed.

Lemma all_defined {A B} (f : A -> option B) (l : list A) :
  (forall a, In a l -> exists b, f a = Some b) -> exists bs, map f l = map Some bs.
Proof.
  induction l as [|a l IH]; intros Hall; [exists []; reflexivity|].
  destruct (Hall a (or_introl eq_refl)) as [b Hb].
  destruct IH as [bs Hbs]; [intros a' Ha'; apply Hall; right; exact Ha'|].
  exists (b :: bs). cbn [map]. rewrite Hb, Hbs. reflexivity.
Qed.

Lemma scan_hand_throws (hands : list (list (NormalizedLandmark num)))
    (handedness : option (list string)) (i : nat) (lm : list (NormalizedLandmark num)) :
  nth_error hands i = Some lm -> (List.length lm < 21)%nat ->
  forall s, scan_hand hands handedness s i = None.
Proof.
  intros Hi Hlt s. unfold scan_hand. rewrite Hi. cbn [bind].
  rewrite (proj2 (calculateTension_throws lm) Hlt). reflexivity.
Qed.

Lemma processResults_returns (r : Results num) :
  (forall lm, In lm (hands_of r) -> (21 <= List.length lm)%nat) ->
  exists hs, processResults r = Some hs.
Proof.
  unfold processResults, hands_of.
  destruct (multiHandLandmarks r) as [[|lm0 hands']|];
    [eexists; reflexivity| |eexists; reflexivity].
  set (hands := lm0 :: hands'). intros Hall.
  destruct (all_defined detectGesture hands) as [gs Hgs].
  { intros lm Hlm. apply detectGesture_defined, Hall, Hlm. }
  destruct (all_defined calculateTension hands) as [ts Hts].
  { intros lm Hlm. apply calculateTension_defined, Hall, Hlm. }
  destruct (scan_fold hands (multiHandedness r) hands [] gs ts
              {| totalTension := lit 0; sawLeft := false;
                 sawRight := false; detectedGesture := none |}
              eq_refl Hgs Hts) as (s' & Hs' & _).
  cbn [List.length Nat.add] in Hs'. rewrite Hs'. cbn [bind].
  eexists. reflexivity.
Qed.

(** X1. [processResults] throws (reading a coordinate of [undefined]) exactly
    when one of the hands of the result has fewer than 21 landmarks; with
    no hands at all, or with [multiHandLandmarks] missing, it returns. *)
Theorem processResults_throws (r : Results num) :
  processResults r = None
  <-> exists lm, In lm (hands_of r) /\ (List.length lm < 21)%nat.
Proof.
  split.
  - intros Hn.
    destruct (Exists_dec (fun lm : list (NormalizedLandmark num) =>
                (List.length lm < 21)%nat) (hands_of r)
                (fun lm => lt_dec (List.length lm) 21)) as [Hex|Hno].
    + apply Exists_exists in Hex. exact Hex.
    + destruct (processResults_returns r) as [hs Hhs]; [|congruence].
      intros lm Hlm. destruct (le_lt_dec 21 (List.length lm)) as [Hle|Hlt]; [exact Hle|].
      contradiction Hno. apply Exists_exists. exists lm. split; assumption.
  - intros (lm & Hlm & Hlt). unfold processResults, hands_of in *.
    destruct (multiHandLandmarks r) as [[|lm0 hands']|]; try contradiction.
    set (hands := lm0 :: hands') in *.
    destruct (In_nth_error _ _ Hlm) as [i Hi].
    rewrite (foldM_throws _ _ i); [reflexivity| |].
    + apply in_seq. split; [lia|]. cbn [Nat.add].
      apply nth_error_Some. congruence.
    + apply (scan_hand_throws hands _ i lm Hi Hlt).
Qed.

Lemma scan_hands_sides (hands : list (list (NormalizedLandmark num)))
    (handedness : option (list string)) :
  forall len start s s',
    foldM (scan_hand hands handedness) (seq start len) s = Some s' ->
    sawRight s' = (sawRight s || existsb (labelled_left handedness) (seq start len))%bool
    /\ sawLeft s' = (sawLeft s
                     || existsb (fun i => negb (labelled_left handedness i))
                                (seq start len))%bool.
Proof.
  induction len as [|len IH]; intros start s s' Hs.
  - cbn in Hs. injection Hs as <-. cbn. rewrite !orb_false_r. split; reflexivity.
  - cbn [seq foldM] in Hs.
    destruct (scan_hand hands handedness s start) as [s1|] eqn:E1; [|discriminate].
    cbn [bind] in Hs. destruct (IH _ _ _ Hs) as [Hr Hl].
    rewrite Hr, Hl. cbn [seq existsb].
    unfold scan_hand in E1.
    destruct (nth_error hands start) as [lm|]; [|discriminate]. cbn [bind] in E1.
    destruct (calculateTension lm) as [t|]; [|discriminate]. cbn [bind] in E1.
    destruct (detectGesture lm) as [g|]; [|discriminate]. cbn [bind] in E1.
    injection E1 as <-. cbn [sawLeft sawRight].
    unfold labelled_left.
    destruct handedness as [hd|];
      [destruct (nth_error hd start) as [l|]; [destruct (String.eqb l "Left")|]|];
      destruct (sawLeft s), (sawRight s); cbn; split; reflexivity.
Qed.

(** X2. In the state that [processResults] delivers, [rightHand] is set
    exactly when some hand is labelled 'Left' (the image is mirrored) and
    [leftHand] exactly when some hand has another label or no handedness
    entry; [detected] is set exactly when there is a hand, and then one of
    the two sides is set. *)
Theorem processResults_handedness (r : Results num) (hs : HandState num) :
  processResults r = Some hs ->
  rightHand hs = existsb (labelled_left (multiHandedness r)) (hand_indices r)
  /\ leftHand hs = existsb (fun i => negb (labelled_left (multiHandedness r) i))
                           (hand_indices r)
  /\ detected hs = negb (Nat.eqb (List.length (hands_of r)) 0)
  /\ (detected hs = true -> (leftHand hs || rightHand hs)%bool = true).
Proof.
  unfold processResults, hand_indices, hands_of.
  destruct (multiHandLandmarks r) as [[|lm0 hands']|].
  - intros E. injection E as <-. cbn. repeat split. discriminate.
  - set (hands := lm0 :: hands').
    destruct (foldM _ _ _) as [s|] eqn:Es; [|discriminate]. cbn [bind].
    intros E. injection E as <-. cbn [rightHand leftHand detected].
    destruct (scan_hands_sides hands _ _ _ _ _ Es) as [Hr Hl].
    cbn [sawRight sawLeft orb] in Hr, Hl. rewrite Hr, Hl.
    split; [reflexivity|]. split; [reflexivity|]. split; [reflexivity|].
    intros _. subst hands. cbn [List.length seq existsb].
    destruct (labelled_left (multiHandedness r) 0); cbn [negb orb];
      [apply orb_true_r|reflexivity].
  - intros E. injection E as <-. cbn. repeat split. discriminate.
Qed.

End ResultsFacts.

Section Revision1Facts.
Context {num : Type} `{JsNumber num}.
Local Open Scope js_scope.

(** X5. The first revision of [detectGesture] answers victory or none only,
    and needs 21 landmarks to answer; every hand that it classifies as
    victory is classified as victory by the second revision as well (which
    dropped the thumb condition). *)
Theorem rev1_victory_is_victory (lm : list (NormalizedLandmark num)) (g : Gesture) :
  Rev1.detectGesture lm = Some g ->
  (g = victory \/ g = none)
  /\ (g = victory -> detectGesture lm = Some victory)
  /\ (21 <= List.length lm)%nat.
Proof.
  unfold Rev1.detectGesture. intros Hv.
  destruct (nth_error lm 0) as [wrist|] eqn:E0; [|discriminate]. cbn [bind] in Hv.
  destruct (nth_error lm 9) as [palmBase|] eqn:E9; [|discriminate]. cbn [bind] in Hv.
  destruct (nth_error lm 8) as [indexTip|] eqn:E8; [|discriminate]. cbn [bind] in Hv.
  destruct (nth_error lm 6) as [indexPIP|] eqn:E6; [|discriminate]. cbn [bind] in Hv.
  destruct (nth_error lm 12) as [middleTip|] eqn:E12; [|discriminate]. cbn [bind] in Hv.
  destruct (nth_error lm 10) as [middlePIP|] eqn:E10; [|discriminate]. cbn [bind] in Hv.
  destruct (nth_error lm 16) as [ringTip|] eqn:E16; [|discriminate]. cbn [bind] in Hv.
  destruct (nth_error lm 20) as [pinkyTip|] eqn:E20; [|discriminate]. cbn [bind] in Hv.
  destruct (nth_error lm 4) as [thumbTip|] eqn:E4; [|discriminate]. cbn [bind] in Hv.
  destruct (nth_error_defined lm 14 20 _ E20) as [ringPIP E14]; [lia|].
  destruct (nth_error_defined lm 18 20 _ E20) as [pinkyPIP E18]; [lia|].
  destruct (nth_error_defined lm 5 20 _ E20) as [indexMCP E5]; [lia|].
  assert (Hlen : (20 < List.length lm)%nat) by (apply nth_error_Some; congruence).
  match type of Hv with (if ?c then _ else _) = _ => destruct c eqn:Hc end;
    injection Hv as <-.
  - split; [left; reflexivity|]. split; [|lia]. intros _.
    apply andb_prop in Hc. destruct Hc as [Hc _].
    apply andb_prop in Hc. destruct Hc as [Hc Hp].
    apply andb_prop in Hc. destruct Hc as [Hc Hr].
    apply andb_prop in Hc. destruct Hc as [Hi Hm].
    unfold detectGesture, fingerStates.
    rewrite E0, E9, E8, E6, E12, E10, E16, E14, E20, E18, E4, E5. cbn [bind].
    unfold isVictory. cbn [indexExtended middleExtended ringCurled pinkyCurled].
    rewrite Hi, Hm, Hr, Hp. reflexivity.
  - split; [right; reflexivity|]. split; [discriminate|lia].
Qed.

Lemma rev1_scan_fold (hands : list (list (NormalizedLandmark num)))
    (handedness : option (list string)) :
  forall rest pre gs ts s,
    hands = pre ++ rest ->
    map Rev1.detectGesture rest = map Some gs ->
    map calculateTension rest = map Some ts ->
    exists s',
      foldM (Rev1.scan_hand hands handedness)
            (seq (List.length pre) (List.length rest)) s = Some s'
      /\ totalTension s' = fold_left add ts (totalTension s)
      /\ detectedGesture s' = (if existsb (Gesture_eqb victory) gs then victory
                               else detectedGesture s).
Proof.
  induction rest as [|lm rest IH]; intros pre gs ts s Hh Hg Ht.
  - destruct gs; [|discriminate]. destruct ts; [|discriminate].
    exists s. repeat split.
  - destruct gs as [|g gs]; [discriminate|]. destruct ts as [|t ts]; [discriminate|].
    cbn [map] in Hg, Ht. injection Hg as Hg1 Hg. injection Ht as Ht1 Ht.
    cbn [List.length seq foldM].
    assert (Hnth : nth_error hands (List.length pre) = Some lm).
    { rewrite Hh, nth_error_app2 by lia. rewrite Nat.sub_diag. reflexivity. }
    unfold Rev1.scan_hand at 1. rewrite Hnth. cbn [bind].
    rewrite Ht1. cbn [bind]. rewrite Hg1. cbn [bind].
    match goal with
    | |- context [foldM _ _ ?s1] =>
        destruct (IH (pre ++ [lm]) gs ts s1) as (s' & Hs' & Htot & Hdet)
    end.
    + rewrite <- app_assoc. exact Hh.
    + exact Hg.
    + exact Ht.
    + rewrite length_app, Nat.add_1_r in Hs'.
      exists s'. split; [exact Hs'|]. split.
      * rewrite Htot. reflexivity.
      * rewrite Hdet. cbn [detectedGesture existsb].
        destruct g; cbn; destruct (existsb (Gesture_eqb victory) gs); reflexivity.
Qed.

(** X6. In the first revision of [processResults] the aggregated gesture is
    victory exactly when some hand shows victory, whatever its position in
    the scan; otherwise it is derived from the averaged tension. *)
Theorem rev1_any_victory_wins
    (hands : list (list (NormalizedLandmark num)))
    (handedness : option (list string)) (gs : list Gesture) (ts : list num) :
  hands <> [] ->
  map Rev1.detectGesture hands = map Some gs ->
  map calculateTension hands = map Some ts ->
  exists hs,
    Rev1.processResults {| multiHandLandmarks := Some hands;
                           multiHandedness := handedness |} = Some hs
    /\ tension hs = sum_tensions ts / of_Z (Z.of_nat (List.length hands))
    /\ gesture hs = (if existsb (Gesture_eqb victory) gs then victory
                     else gesture_of_tension (tension hs)).
Proof.
  intros Hne Hg Ht.
  destruct (rev1_scan_fold hands handedness hands [] gs ts
              {| totalTension := lit 0; sawLeft := false;
                 sawRight := false; detectedGesture := none |}
              eq_refl Hg Ht) as (s' & Hs' & Htot & Hdet).
  cbn [List.length totalTension detectedGesture] in Hs', Htot, Hdet.
  unfold Rev1.processResults. cbn [multiHandLandmarks multiHandedness].
  destruct hands as [|lm hands']; [contradiction Hne; reflexivity|].
  rewrite Hs'. cbn [bind]. eexists. split; [reflexivity|].
  cbn [tension gesture]. split; [rewrite Htot; reflexivity|].
  rewrite Hdet. unfold gesture_of_tension.
  destruct (existsb (Gesture_eqb victory) gs); reflexivity.
Qed.

End Revision1Facts.

Section PlacementFacts.
Import Placement TensionSpec.
Local Open Scope R_scope.

Lemma or_else_zero (a : R) : or_else a (lit 0) = a.
Proof.
  cbn [or_else Ideal]. unfold Re.or_else.
  destruct (Req_dec_T a 0) as [->|_]; [|reflexivity].
  rewrite lit_Ideal. cbn [Qnum Qden]. lra.
Qed.

Lemma distance_Ideal (a b : NormalizedLandmark R) :
  distance a b
  = R_sqrt.sqrt ((x a - x b) * (x a - x b) + (y a - y b) * (y a - y b)
          + (z a - z b) * (z a - z b)).
Proof. unfold distance. rewrite !or_else_zero. reflexivity. Qed.

Lemma distance_place (k : R) (v a b : NormalizedLandmark R) :
  0 <= k -> distance (place k v a) (place k v b) = k * distance a b.
Proof.
  intros Hk. rewrite !distance_Ideal. unfold place. cbn [x y z add mul Ideal].
  match goal with |- R_sqrt.sqrt ?a = k * R_sqrt.sqrt ?b =>
    replace a with (k * k * b) by ring end.
  rewrite sqrt_mult_alt by nra. rewrite sqrt_square by exact Hk. reflexivity.
Qed.

Lemma quotient_scaled (k a b : R) : 0 < k -> (k * a) / (k * b) = a / b.
Proof.
  intros Hk. unfold Rdiv. rewrite Rinv_mult.
  transitivity ((k * / k) * (a * / b)); [ring|].
  rewrite Rinv_r by lra. ring.
Qed.

Lemma above_scaled (k a b c : R) : 0 < k -> Re.ltb (k * a * c) (k * b) = Re.ltb (a * c) b.
Proof.
  intros Hk. unfold Re.ltb.
  destruct (Rlt_dec (k * a * c) (k * b)), (Rlt_dec (a * c) b); try reflexivity; nra.
Qed.

Lemma below_scaled (k a b c : R) : 0 < k -> Re.ltb (k * a) (k * b * c) = Re.ltb a (b * c).
Proof.
  intros Hk. unfold Re.ltb.
  destruct (Rlt_dec (k * a) (k * b * c)), (Rlt_dec a (b * c)); try reflexivity; nra.
Qed.

Lemma finger_curl_place (k : R) (v wrist palmBase tip : NormalizedLandmark R) :
  0 < k ->
  finger_curl (place k v wrist) (place k v palmBase) (place k v tip)
  = finger_curl wrist palmBase tip.
Proof.
  intros Hk. unfold finger_curl.
  rewrite !distance_place by lra. cbn [div Ideal].
  rewrite quotient_scaled by exact Hk. reflexivity.
Qed.

Lemma nth_error_place (k : R) (v : NormalizedLandmark R) lm i :
  nth_error (place_hand k v lm) i = option_map (place k v) (nth_error lm i).
Proof. apply nth_error_map. Qed.

Lemma grid_hand_placed :
  place_hand 3 (Landmark 0 0 0) (grid_hand 1) = grid_hand (num := R) 3.
Proof.
  unfold place_hand, grid_hand. rewrite map_map. apply map_ext. intros [a b].
  unfold place. cbn [x y z fst snd]. rewrite !lit_Ideal. cbn [Qnum Qden add mul Ideal].
  rewrite !mult_IZR. f_equal; lra.
Qed.

(** X4. The tension and the gesture of a hand compare distances with the
    palm size only.  In exact real arithmetic they therefore do not depend
    on where the hand is or on how large it appears: moving all landmarks
    by the same vector and scaling them by the same positive factor changes
    neither [calculateTension] nor [detectGesture].  The binary64 code does
    not have this property: for the hand [grid_hand 1], whose coordinates
    are multiples of 1/64, [detectGesture] answers none, and for the same
    hand three times as large (every coordinate exactly tripled, still
    within [0,1]) it answers victory and the tension is smaller; in real
    arithmetic both hands have the same tension and the same gesture. *)
Theorem placement_invariance_needs_exact_arithmetic :
  (forall (k : R) (v : NormalizedLandmark R) (lm : list (NormalizedLandmark R)),
      0 < k ->
      calculateTension (place_hand k v lm) = calculateTension lm
      /\ detectGesture (place_hand k v lm) = detectGesture lm)
  /\ (calculateTension (grid_hand (num := R) 3) = calculateTension (grid_hand (num := R) 1)
      /\ detectGesture (grid_hand (num := R) 3) = detectGesture (grid_hand (num := R) 1))
  /\ (place_hand (num := float) (lit 3) (Landmark (lit 0) (lit 0) (lit 0)) (grid_hand 1)
      = grid_hand 3
      /\ detectGesture (grid_hand (num := float) 1) = Some none
      /\ detectGesture (grid_hand (num := float) 3) = Some victory
      /\ exists t1 t3, calculateTension (grid_hand (num := float) 1) = Some t1
           /\ calculateTension (grid_hand (num := float) 3) = Some t3
           /\ PrimFloat.ltb t3 t1 = true).
Proof.
  assert (Inv : forall (k : R) (v : NormalizedLandmark R) (lm : list (NormalizedLandmark R)),
             0 < k ->
             calculateTension (place_hand k v lm) = calculateTension lm
             /\ detectGesture (place_hand k v lm) = detectGesture lm).
  { intros k v lm Hk. split.
    - destruct (nth_error lm 20) as [t20|] eqn:H20.
      + destruct (nth_error_defined lm 0 20 _ H20) as [wrist H0]; [lia|].
        destruct (nth_error_defined lm 4 20 _ H20) as [t4 H4]; [lia|].
        destruct (nth_error_defined lm 8 20 _ H20) as [t8 H8]; [lia|].
        destruct (nth_error_defined lm 9 20 _ H20) as [palmBase H9]; [lia|].
        destruct (nth_error_defined lm 12 20 _ H20) as [t12 H12]; [lia|].
        destruct (nth_error_defined lm 16 20 _ H20) as [t16 H16]; [lia|].
        rewrite (calculateTension_unrolled lm _ _ _ _ _ _ _ H0 H9 H4 H8 H12 H16 H20).
        rewrite (calculateTension_unrolled (place_hand k v lm)
                   (place k v wrist) (place k v palmBase) (place k v t4) (place k v t8)
                   (place k v t12) (place k v t16) (place k v t20))
          by (rewrite nth_error_place; match goal with E : _ = Some _ |- _ =>
                solve [rewrite E; reflexivity] end).
        rewrite !finger_curl_place by exact Hk. reflexivity.
      + rewrite (calculateTension_short lm H20).
        apply calculateTension_short. rewrite nth_error_place, H20. reflexivity.
    - unfold detectGesture. f_equal. unfold fingerStates.
      rewrite !nth_error_place.
      repeat match goal with
             | |- context [option_map _ (nth_error lm ?i)] =>
                 destruct (nth_error lm i); cbn [option_map bind]; [|reflexivity]
             end.
      rewrite !distance_place by lra. cbn [mul Ideal].
      rewrite !above_scaled, !below_scaled by exact Hk. reflexivity. }
  split; [exact Inv|]. split.
  - rewrite <- grid_hand_placed. apply Inv. lra.
  - split; [vm_compute; reflexivity|]. split; [vm_compute; reflexivity|].
    split; [vm_compute; reflexivity|].
    eexists. eexists. split; [vm_compute; reflexivity|].
    split; [vm_compute; reflexivity|]. vm_compute. reflexivity.
Qed.

Lemma placement_invariance_needs_exact_arithmetic_witness :
  calculateTension (place_hand 2 (Landmark 1 1 1) flat_hand) = calculateTension flat_hand
  /\ detectGesture (place_hand 2 (Landmark 1 1 1) flat_hand) = detectGesture flat_hand.
Proof.
  apply (proj1 placement_invariance_needs_exact_arithmetic 2 (Landmark 1 1 1) flat_hand).
  lra.
Defined.

End PlacementFacts.

Section AggregateIdeal.
Local Open Scope R_scope.

Lemma clamp01_Ideal (a : R) : 0 <= clamp01 a <= 1.
Proof.
  unfold clamp01. cbn [max min Ideal]. rewrite !lit_Ideal. cbn [Qnum Qden].
  replace (0 / 1) with 0 by lra. replace (1 / 1) with 1 by lra.
  split; [apply Rmax_l|]. apply Rmax_lub; [lra|apply Rmin_l].
Qed.

Lemma calculateTension_range (lm : list (NormalizedLandmark R)) (t : R) :
  calculateTension lm = Some t -> 0 <= t <= 1.
Proof.
  intros Ht. destruct (nth_error lm 20) as [t20|] eqn:H20.
  - destruct (nth_error_defined lm 0 20 _ H20) as [wrist H0]; [lia|].
    destruct (nth_error_defined lm 4 20 _ H20) as [t4 H4]; [lia|].
    destruct (nth_error_defined lm 8 20 _ H20) as [t8 H8]; [lia|].
    destruct (nth_error_defined lm 9 20 _ H20) as [palmBase H9]; [lia|].
    destruct (nth_error_defined lm 12 20 _ H20) as [t12 H12]; [lia|].
    destruct (nth_error_defined lm 16 20 _ H20) as [t16 H16]; [lia|].
    rewrite (calculateTension_unrolled lm _ _ _ _ _ _ _ H0 H9 H4 H8 H12 H16 H20) in Ht.
    injection Ht as <-. apply clamp01_Ideal.
  - rewrite (calculateTension_short lm H20) in Ht. discriminate.
Qed.

Lemma scan_hands_total (hands : list (list (NormalizedLandmark R)))
    (handedness : option (list string)) :
  forall len start s s',
    foldM (scan_hand hands handedness) (seq start len) s = Some s' ->
    totalTension s <= totalTension s' <= totalTension s + INR len.
Proof.
  induction len as [|len IH]; intros start s s' Hs.
  - cbn in Hs. injection Hs as <-. cbn. lra.
  - cbn [seq foldM] in Hs.
    destruct (scan_hand hands handedness s start) as [s1|] eqn:E1; [|discriminate].
    cbn [bind] in Hs. specialize (IH _ _ _ Hs).
    unfold scan_hand in E1.
    destruct (nth_error hands start) as [lm|]; [|discriminate]. cbn [bind] in E1.
    destruct (calculateTension lm) as [t|] eqn:Et; [|discriminate]. cbn [bind] in E1.
    destruct (detectGesture lm) as [g|]; [|discriminate]. cbn [bind] in E1.
    injection E1 as <-. cbn [totalTension add Ideal] in IH.
    pose proof (calculateTension_range lm t Et). rewrite S_INR. lra.
Qed.

(** X3. In real arithmetic: for hands of 21 landmarks each, with palm sizes
    that are not zero, [processResults] delivers a state whose tension, the
    mean of the tensions of the hands, lies in [0,1]. *)
Theorem processResults_tension_range (r : Results R) :
  (forall lm, In lm (hands_of r) ->
     List.length lm = 21%nat /\ TensionSpec.palmSize lm <> 0) ->
  exists hs, processResults r = Some hs /\ 0 <= tension hs <= 1.
Proof.
  intros Hhands.
  destruct (processResults_returns r) as [hs Hhs].
  { intros lm Hlm. destruct (Hhands lm Hlm) as [-> _]. lia. }
  exists hs. split; [exact Hhs|]. revert Hhs. unfold processResults.
  assert (H0 : 0 <= lit (num := R) 0 <= 1)
    by (rewrite lit_Ideal; cbn [Qnum Qden]; lra).
  destruct (multiHandLandmarks r) as [[|lm0 hands']|].
  - intros E. injection E as <-. exact H0.
  - set (hands := lm0 :: hands').
    destruct (foldM _ _ _) as [s|] eqn:Es; [|discriminate]. cbn [bind].
    intros E. injection E as <-. cbn [tension].
    pose proof (scan_hands_total hands _ _ _ _ _ Es) as Ht.
    cbn [totalTension] in Ht.
    change (0 <= totalTension s / IZR (Z.of_nat (List.length hands)) <= 1).
    rewrite <- INR_IZR_INZ.
    assert (Hn : 0 < INR (List.length hands)) by (apply lt_0_INR; cbn; lia).
    destruct H0 as [H0 _]. rewrite lit_Ideal in Ht, H0. cbn [Qnum Qden] in Ht, H0.
    generalize dependent (INR (List.length hands)). intros n Ht Hn.
    generalize dependent (totalTension s). intros t Ht.
    split.
    + apply Rmult_le_pos; [lra|]. left. apply Rinv_0_lt_compat, Hn.
    + apply (Rmult_le_reg_r n); [exact Hn|].
      unfold Rdiv. rewrite Rmult_assoc, Rinv_l by lra. lra.
  - intros E. injection E as <-. exact H0.
Qed.

Lemma processResults_tension_range_witness :
  exists hs,
    processResults {| multiHandLandmarks := Some [TensionSpec.flat_hand; TensionSpec.flat_hand];
                      multiHandedness := None |} = Some hs
    /\ 0 <= tension hs <= 1.
Proof.
  apply (processResults_tension_range
           {| multiHandLandmarks := Some [TensionSpec.flat_hand; TensionSpec.flat_hand];
              multiHandedness := None |}).
  intros lm Hlm. cbn [hands_of multiHandLandmarks In] in Hlm.
  destruct Hlm as [<-|[<-|[]]];
    (split; [reflexivity|rewrite flat_hand_palmSize; lra]).
Defined.

End AggregateIdeal.

Section ResultsWitnesses.
Local Open Scope float_scope.

Lemma processResults_handedness_witness :
  exists hs : HandState float,
    processResults {| multiHandLandmarks := Some [Pose.victory_hand; Pose.open_hand];
                      multiHandedness := Some ["Left"; "Right"]%string |} = Some hs
    /\ rightHand hs = true /\ leftHand hs = true /\ detected hs = true.
Proof.
  destruct (processResults {| multiHandLandmarks := Some [Pose.victory_hand; Pose.open_hand];
                              multiHandedness := Some ["Left"; "Right"]%string |})
    as [hs|] eqn:E; [|vm_compute in E; discriminate E].
  exists hs. split; [reflexivity|].
  destruct (processResults_handedness _ hs E) as (Hr & Hl & Hd & _).
  rewrite Hr, Hl, Hd. vm_compute. repeat split.
Defined.

Lemma rev1_victory_is_victory_witness :
  (victory = victory \/ victory = none)
  /\ (victory = victory -> detectGesture Pose.victory_hand = Some victory)
  /\ (21 <= List.length Pose.victory_hand)%nat.
Proof.
  apply (rev1_victory_is_victory Pose.victory_hand victory). vm_compute. reflexivity.
Defined.

Lemma rev1_any_victory_wins_witness :
  exists hs,
    Rev1.processResults (num := float)
      {| multiHandLandmarks := Some [Pose.victory_hand; Pose.point_hand];
         multiHandedness := None |} = Some hs
    /\ gesture hs = victory.
Proof.
  destruct (rev1_any_victory_wins [Pose.victory_hand; Pose.point_hand] None
              [victory; none]
              (map Pose.tension_or_zero [Pose.victory_hand; Pose.point_hand]))
    as (hs & Hhs & _ & Hg).
  - discriminate.
  - vm_compute. reflexivity.
  - vm_compute. reflexivity.
  - exists hs. split; [exact Hhs|exact Hg].
Defined.

End ResultsWitnesses.

Section SmoothingIdeal.
Import Smoothing.
Local Open Scope R_scope.

Lemma smooth_Ideal (target prev : R) :
  smooth target prev
  = if Rlt_dec (Rabs (target - prev)) 0.003 then target
    else prev + (target - prev) * 0.8.
Proof.
  unfold smooth, smoothingFactor. cbn [abs sub add mul ltb Ideal]. unfold Re.ltb.
  rewrite !lit_Ideal. cbn [Qnum Qden].
  replace (3 / 1000) with 0.003 by lra. replace (8 / 10) with 0.8 by lra.
  destruct (Rlt_dec _ _); reflexivity.
Qed.

(** X7. In real arithmetic one run of the interval callback moves the
    smoothed tension towards the target without passing it: the new value
    lies between the old value and the target, is not farther from the
    target than the old one, and stays in [0,1]. *)
Theorem smooth_between (target prev : R) :
  0 <= prev <= 1 -> 0 <= target <= 1 ->
  Rmin prev target <= smooth target prev <= Rmax prev target
  /\ Rabs (target - smooth target prev) <= Rabs (target - prev)
  /\ 0 <= smooth target prev <= 1.
Proof.
  intros Hp Ht. rewrite smooth_Ideal.
  destruct (Rlt_dec (Rabs (target - prev)) 0.003) as [Hs|Hs].
  - unfold Rmin, Rmax. destruct (Rle_dec prev target).
    + split; [lra|]. split; [|lra].
      replace (target - target) with 0 by lra. rewrite Rabs_R0. apply Rabs_pos.
    + split; [lra|]. split; [|lra].
      replace (target - target) with 0 by lra. rewrite Rabs_R0. apply Rabs_pos.
  - unfold Rmin, Rmax. destruct (Rle_dec prev target).
    + split; [lra|]. split; [|lra].
      rewrite !Rabs_pos_eq by lra. lra.
    + split; [lra|]. split; [|lra].
      rewrite !Rabs_left by lra. lra.
Qed.

Lemma smooth_between_witness :
  Rmin 0.2 0.9 <= smooth 0.9 0.2 <= Rmax 0.2 0.9
  /\ Rabs (0.9 - smooth 0.9 0.2) <= Rabs (0.9 - 0.2)
  /\ 0 <= smooth 0.9 0.2 <= 1.
Proof. apply (smooth_between 0.9 0.2); lra. Defined.

Lemma smooth_fixed (target : R) : smooth target target = target.
Proof.
  rewrite smooth_Ideal. destruct (Rlt_dec _ _); [reflexivity|lra].
Qed.

Lemma smooth_step (target prev b : R) :
  Rabs (target - prev) <= b ->
  Rabs (target - smooth target prev) <= 0.2 * b
  /\ (b < 0.003 -> smooth target prev = target).
Proof.
  intros Hb. rewrite smooth_Ideal.
  destruct (Rlt_dec (Rabs (target - prev)) 0.003) as [Hs|Hs].
  - split; [|reflexivity].
    replace (target - target) with 0 by lra. rewrite Rabs_R0.
    pose proof (Rabs_pos (target - prev)). lra.
  - split; [|lra].
    replace (target - (prev + (target - prev) * 0.8)) with (0.2 * (target - prev)) by lra.
    rewrite Rabs_mult, (Rabs_pos_eq 0.2) by lra. lra.
Qed.

Lemma smooth_ticks_fixed (target : R) (n : nat) : smooth_ticks target n target = target.
Proof.
  unfold smooth_ticks. induction n as [|n IH]; [reflexivity|].
  rewrite Nat.iter_succ, IH. apply smooth_fixed.
Qed.

(** X8. In real arithmetic the smoothed tension is exactly the target after
    five runs of the interval callback (50 ms), and stays there, whenever
    it starts at most 1 away from the target: each run removes four fifths
    of the difference, and a difference below 0.003 is closed at once. *)
Theorem smooth_reaches_target (target prev : R) (n : nat) :
  Rabs (target - prev) <= 1 -> (5 <= n)%nat -> smooth_ticks target n prev = target.
Proof.
  intros Hd Hn. replace n with ((n - 5) + 5)%nat by lia.
  unfold smooth_ticks. rewrite Nat.iter_add. fold (smooth_ticks target (n - 5)).
  rewrite !Nat.iter_succ. cbn [Nat.iter nat_rect].
  destruct (smooth_step target prev 1 Hd) as [H1 _].
  destruct (smooth_step target _ _ H1) as [H2 _].
  destruct (smooth_step target _ _ H2) as [H3 _].
  destruct (smooth_step target _ _ H3) as [H4 _].
  destruct (smooth_step target _ _ H4) as [_ H5].
  rewrite H5 by lra. apply smooth_ticks_fixed.
Qed.

Lemma smooth_reaches_target_witness : smooth_ticks 1 5 0 = 1.
Proof. apply (smooth_reaches_target 1 0 5); [rewrite Rabs_pos_eq; lra|lia]. Defined.

End SmoothingIdeal.

Section SmoothingBinary64.
Import Smoothing.
Local Open Scope float_scope.

Lemma SFsub_self (a : spec_float) :
  finite_or_zero a -> SF64sub a a = S754_zero false.
Proof.
  destruct a as [s|s| |s m e]; cbn; try contradiction; intros _.
  - destruct s; reflexivity.
  - rewrite Z.sub_diag. reflexivity.
Qed.

(** X9. On binary64: when the effect runs in a render without a detected
    hand, its target is the smoothed tension of that render, and the
    interval callback leaves a finite smoothed tension exactly where it
    is, for any number of runs.  So losing the hand, or stopping the
    tracking, freezes the tension instead of resetting it to 0. *)
Theorem smooth_freezes_without_hand (tension smoothTension : float) (n : nat) :
  PrimFloat.is_finite smoothTension = true ->
  smooth_ticks (targetTension false tension smoothTension) n smoothTension
  = smoothTension.
Proof.
  intros Hf. cbn [targetTension]. unfold smooth_ticks.
  induction n as [|n IH]; [reflexivity|]. rewrite Nat.iter_succ, IH.
  unfold smooth. cbn [abs sub ltb Float64].
  replace (PrimFloat.ltb (PrimFloat.abs (smoothTension - smoothTension)) (lit 0.003))
    with true; [reflexivity|].
  rewrite FloatAxioms.ltb_spec, FloatAxioms.abs_spec, FloatAxioms.sub_spec.
  rewrite SFsub_self by (apply is_finite_spec, Hf).
  vm_compute. reflexivity.
Qed.

Lemma smooth_freezes_without_hand_witness :
  smooth_ticks (targetTension false 0 0.5) 100 0.5 = 0.5.
Proof. apply (smooth_freezes_without_hand 0 0.5 100). reflexivity. Defined.

End SmoothingBinary64.

Module AppMore.
Import App AppFacts AppTimers.

#[local] Arguments includes : simpl never.

Lemma run_ticks_idle (s : State) (n : nat) : timers s = [] -> run s (ticks n) = s.
Proof.
  intros Ht. induction n as [|n IH]; [reflexivity|].
  cbn [ticks repeat]. rewrite run_cons. cbn [step]. rewrite tick_idle by exact Ht.
  exact IH.
Qed.

Lemma stop_keeps : keeps_timers (fun s => setCurrentGesture none (setHandGesture none s)).
Proof. intros s. repeat split. Qed.

(** X10. [handleStopTracking], in any reachable state, sets the raw and the
    committed gesture to none and leaves no timeout pending, but it does
    not touch the shape or the color: a shape that a special gesture has
    put in place stays, the saved shape is not restored, and no later tick
    changes that. *)
Theorem stop_tracking_keeps_look (s : State) :
  reachable s ->
  handGesture (step s StopTracking) = none
  /\ currentGesture (step s StopTracking) = none
  /\ timers (step s StopTracking) = []
  /\ activeShape (step s StopTracking) = activeShape s
  /\ particleColor (step s StopTracking) = particleColor s
  /\ previousShape (step s StopTracking) = previousShape s
  /\ previousColor (step s StopTracking) = previousColor s
  /\ forall n, run (step s StopTracking) (ticks n) = step s StopTracking.
Proof.
  intros Hreach. pose proof (reachable_settled s Hreach) as Hs.
  assert (Ht : timers (step s StopTracking) = []
               -> forall n, run (step s StopTracking) (ticks n) = step s StopTracking).
  { intros E n. apply run_ticks_idle, E. }
  revert Ht. cbn [step].
  rewrite (update_keeps _ s stop_keeps (settled_own s Hs)).
  destruct (Deps_eq_dec _ _) as [E|_].
  - destruct s as [hg cg sh col psh pcol ref ts nid].
    unfold deps in E. cbn in E. injection E as -> ->.
    destruct Hs as [_ Hs]. cbn in Hs |- *.
    destruct ts as [|t [|t' ts]]; [|destruct Hs as (_ & _ & Hne & _); congruence|contradiction].
    intros Ht. repeat split. apply Ht. reflexivity.
  - destruct s as [hg cg sh col psh pcol ref ts nid].
    unfold resolve, with_timers. cbn. intros Ht. repeat split. apply Ht. reflexivity.
Qed.

Lemma stop_tracking_keeps_look_witness :
  let s := run initial (HandUpdate victory :: ticks 300) in
  currentGesture s = victory
  /\ currentGesture (step s StopTracking) = none
  /\ activeShape (step s StopTracking) = TEXT
  /\ particleColor (step s StopTracking) = "#ffd700"%string.
Proof.
  intros s.
  destruct (stop_tracking_keeps_look s) as (_ & Hc & _ & Hsh & Hcol & _).
  { apply run_reachable. constructor. }
  rewrite Hc, Hsh, Hcol.
  pose proof (special_confirmed initial victory initial_settled
                ltac:(discriminate) eq_refl ltac:(discriminate)) as E.
  fold s in E. clearbody s. subst s. repeat split.
Defined.

(** X11. An update of the raw gesture never changes the shape, the color or
    the saved shape and color by itself, in any reachable state: only the
    expiry of a timeout or a selection of the user does. *)
Theorem hand_update_keeps_look (s : State) (g : Gesture) :
  reachable s ->
  activeShape (step s (HandUpdate g)) = activeShape s
  /\ particleColor (step s (HandUpdate g)) = particleColor s
  /\ previousShape (step s (HandUpdate g)) = previousShape s
  /\ previousColor (step s (HandUpdate g)) = previousColor s.
Proof.
  intros Hreach. pose proof (reachable_settled s Hreach) as Hs. cbn [step].
  rewrite (update_keeps _ s (proj1 setters_keep_timers g) (settled_own s Hs)).
  destruct (Deps_eq_dec _ _) as [_|_]; [repeat split|].
  destruct (resolve_gestures (setHandGesture g s)) as (_ & _ & E1 & E2 & E3 & E4).
  rewrite E1, E2, E3, E4. destruct s; repeat split.
Qed.

Lemma hand_update_keeps_look_witness :
  activeShape (step initial (HandUpdate victory)) = SPHERE
  /\ particleColor (step initial (HandUpdate victory)) = "#4ade80"%string
  /\ previousShape (step initial (HandUpdate victory)) = SPHERE
  /\ previousColor (step initial (HandUpdate victory)) = "#4ade80"%string.
Proof. apply (hand_update_keeps_look initial victory). constructor. Defined.

Lemma resolve_rearms (s : State) (t : Timer) :
  settled s -> timers s = [t] ->
  forall f, keeps_timers f -> handGesture (f s) = handGesture s ->
    currentGesture (f s) = currentGesture s -> deps (f s) <> deps s ->
    timers (update f s) = [rearmed (f s)].
Proof.
  intros Hs Ht f Hf Eh Ec Hd.
  rewrite (update_keeps f s Hf (settled_own s Hs)).
  destruct (Deps_eq_dec _ _) as [E|_]; [contradiction Hd; symmetry; exact E|].
  destruct Hs as [_ Hs]. rewrite Ht in Hs. destruct Hs as (_ & _ & Hne & Hcl).
  destruct (Hf s) as (_ & _ & En).
  unfold rearmed. rewrite Eh, Ec.
  destruct (special (handGesture s)) eqn:Esp.
  - rewrite resolve_confirm by (rewrite ?Eh, ?Ec; assumption).
    rewrite armed_timers, Eh, Ec. reflexivity.
  - assert (Hc : special (currentGesture s) = true).
    { unfold closure_current in Hcl. destruct (callback t); [|tauto].
      destruct Hcl as (-> & _ & _ & _ & Hsp & _). congruence. }
    rewrite resolve_release by (rewrite ?Eh, ?Ec; assumption).
    rewrite armed_timers. reflexivity.
Qed.

Lemma ticks_add (n m : nat) : ticks (n + m) = ticks n ++ ticks m.
Proof. unfold ticks. apply repeat_app. Qed.

Lemma fired_catches_up (s : State) (t : Timer) :
  settled s -> timers s = [t] ->
  let s1 := update (run_callback (callback t)) (with_timers [] s) in
  timers s1 = [] /\ currentGesture s1 = handGesture s /\ handGesture s1 = handGesture s.
Proof.
  intros Hs Ht s1. subst s1. pose proof Hs as [Href Hst]. rewrite Ht in Hst.
  destruct Hst as (_ & _ & Hne & Hcl).
  assert (Hown : at_most_own_timer (with_timers [] s))
    by (split; [destruct s; exact Href|left; reflexivity]).
  unfold closure_current in Hcl.
  destruct (callback t) as [g c sh col|psh pcol].
  - destruct Hcl as (-> & -> & -> & -> & Hsp & _).
    rewrite confirm_fires;
      [|exact Hown|destruct s; reflexivity|destruct s; cbn in *; congruence].
    destruct s as [hg cg sh col psh pcol ref ts nid]. cbn in *.
    destruct (includes specialGestures cg), hg; repeat split; discriminate Hsp.
  - destruct Hcl as (-> & -> & Hh & Hc & _).
    rewrite revert_fires; [|exact Hown|destruct s; exact Hh|destruct s; exact Hc].
    match goal with |- context [resolve ?m] =>
      destruct (resolve_base m) as [E1 E2];
      [| |destruct (resolve_gestures m) as (E3 & _)] end.
    + destruct s; exact Hh.
    + destruct s; reflexivity.
    + rewrite E1, E2, E3. destruct s; repeat split.
Qed.

(** X13. From any reachable state, after 1000 ms or more without another
    event no timeout is pending and the committed gesture is the raw
    gesture: every pending confirmation or release has run by then. *)
Theorem gesture_catches_up (s : State) (n : nat) :
  reachable s -> 1000 <= n ->
  timers (run s (ticks n)) = []
  /\ currentGesture (run s (ticks n)) = handGesture s
  /\ handGesture (run s (ticks n)) = handGesture s.
Proof.
  intros Hreach Hn. pose proof (reachable_settled s Hreach) as Hs.
  destruct (timers s) as [|t [|t' ts]] eqn:Ht.
  - rewrite run_ticks_idle by exact Ht. split; [exact Ht|].
    destruct Hs as [_ Hs]. rewrite Ht in Hs. split; [symmetry; exact Hs|reflexivity].
  - assert (Hrem : 1 <= remaining t <= 1000).
    { destruct Hs as [_ Hs]. rewrite Ht in Hs. destruct Hs as (_ & H1 & _ & Hcl).
      unfold closure_current in Hcl. split; [exact H1|].
      destruct (callback t); [destruct Hcl as (_ & _ & _ & _ & _ & Hle)
                             |destruct Hcl as (_ & _ & _ & _ & Hle)]; lia. }
    destruct (remaining t) as [|r] eqn:Er; [lia|].
    replace n with (S r + (n - S r)) by lia.
    rewrite ticks_add, run_app, (run_ticks_fire s t r Ht Er).
    destruct (fired_catches_up s t Hs Ht) as (E1 & E2 & E3). cbv zeta in E1, E2, E3.
    rewrite run_ticks_idle by exact E1. split; [exact E1|]. split; assumption.
  - destruct Hs as [_ Hs]. rewrite Ht in Hs. contradiction.
Qed.

Lemma gesture_catches_up_witness :
  let s := step initial (HandUpdate love) in
  timers (run s (ticks 1000)) = []
  /\ currentGesture (run s (ticks 1000)) = handGesture s
  /\ handGesture (run s (ticks 1000)) = handGesture s.
Proof.
  intros s. apply (gesture_catches_up s 1000).
  - constructor. constructor.
  - apply Nat.le_refl.
Defined.

(** X12. The shape and the color are dependencies of the effect, so selecting
    another color or shape while a timeout is pending clears it and arms a
    new one with the full delay (300 ms for a special raw gesture, 1000 ms
    otherwise), under a new handle and with the closure of the new render. *)
Theorem selection_restarts_timeout (s : State) (t : Timer) :
  reachable s -> timers s = [t] ->
  (forall c, c <> particleColor s ->
     timers (step s (SelectColor c)) = [rearmed (setParticleColor c s)])
  /\ (forall sh, sh <> activeShape s ->
     timers (step s (SelectShape sh)) = [rearmed (setActiveShape sh s)])
  /\ remaining (rearmed s) = (if special (handGesture s) then 300 else 1000)
  /\ id t < nextId s.
Proof.
  intros Hreach Ht. pose proof (reachable_settled s Hreach) as Hs.
  split; [|split; [|split]].
  - intros c Hc. cbn [step].
    apply (resolve_rearms s t Hs Ht); [apply setters_keep_timers| | |];
      destruct s; try reflexivity. unfold deps. cbn in *. congruence.
  - intros sh Hsh. cbn [step].
    apply (resolve_rearms s t Hs Ht); [apply setters_keep_timers| | |];
      destruct s; try reflexivity. unfold deps. cbn in *. congruence.
  - unfold rearmed. destruct (special (handGesture s)); reflexivity.
  - destruct Hs as [Href Hs]. rewrite Ht in Hs. destruct Hs as (Hr & _).
    apply Href, Hr.
Qed.

Lemma selection_restarts_timeout_witness :
  let s := step initial (HandUpdate victory) in
  timers (step s (SelectColor "#ffffff")) = [rearmed (setParticleColor "#ffffff" s)]
  /\ remaining (rearmed s) = 300.
Proof.
  intros s.
  destruct (selection_restarts_timeout s
              {| id := 1; remaining := 300;
                 callback := Confirm victory none SPHERE "#4ade80" |})
    as (Hc & _ & Hr & _).
  - constructor. constructor.
  - vm_compute. reflexivity.
  - split; [apply Hc; vm_compute; discriminate|].
    rewrite Hr. vm_compute. reflexivity.
Defined.

End AppMore.

Section FrameIdeal.
Import MorphSpec FrameSpec.
Local Open Scope R_scope.

Ltac literals :=
  repeat match goal with
         | |- context [@lit R Ideal ?q] => change (@lit R Ideal q) with (Q2R q)
         end;
  unfold Q2R; cbn [Qnum Qden].

Ltac literals_in H :=
  repeat match type of H with
         | context [@lit R Ideal ?q] => change (@lit R Ideal q) with (Q2R q) in H
         end;
  unfold Q2R in H; cbn [Qnum Qden] in H.

Lemma Rabs_between (a b : R) : Rabs a <= b -> - b <= a <= b.
Proof. unfold Rabs. destruct (Rcase_abs a); lra. Qed.

Lemma run_frames_in_range (shape : ParticleShape) (frames : list Frame) (r : Refs R) :
  Forall frame_ok frames -> in_range r -> in_range (run_frames shape frames r).
Proof.
  intros Hframes. revert r. unfold run_frames.
  induction Hframes as [|f frames Hf _ IH]; intros r Hr; [exact Hr|].
  cbn [fold_left]. apply IH. destruct shape; cbn [useFrame_refs];
    try (apply update_refs_in_range; [apply Hf|exact Hr]); exact Hr.
Qed.

Lemma glow_in_range (time tension : R) (r : Refs R) :
  0 <= tension <= 1 -> 0 <= burstEnergy r <= 5 ->
  0.75 <= opacity (glow time tension r) <= 1
  /\ 0.035 <= size (glow time tension r) <= 0.25.
Proof.
  intros Ht Hb. unfold glow. cbn [opacity size]. literals.
  cbn [add sub mul min Ideal Math_sin Ideal_math].
  pose proof (SIN_bound (time * (8 * / 1))) as Hs.
  set (s := sin (time * (8 * / 1))) in *. set (b := burstEnergy r) in *.
  split.
  - split; [|eapply Rle_trans; [apply Rmin_r|lra]]. apply Rmin_glb; [|lra].
    assert (0 <= b * (25 * / 100)) by nra. assert (0 <= (1 * / 1 - tension) * (25 * / 100)) by nra.
    lra.
  - assert (-(5 * / 1000) * b <= s * (5 * / 1000) * b <= (5 * / 1000) * b) by nra.
    nra.
Qed.

(** X17. In real arithmetic, after any frames with tension in [0,1] and
    delta >= 0, the next frame gives the material an opacity in [0.75, 1]
    and a size in [0.035, 0.25], in the text mode (1 and 0.07) as in the
    full mode. *)
Theorem material_in_range (shape : ParticleShape) (tension0 : R) (frames : list Frame)
    (time tension delta : R) :
  Forall frame_ok frames -> frame_ok (tension, delta) ->
  let r := run_frames shape frames (initial_refs tension0) in
  0.75 <= opacity (useFrame_material shape time tension delta r) <= 1
  /\ 0.035 <= size (useFrame_material shape time tension delta r) <= 0.25.
Proof.
  intros Hframes [Ht Hd] r. cbn [fst snd] in Ht, Hd.
  assert (Hr : in_range r)
    by (apply run_frames_in_range; [exact Hframes|apply initial_refs_in_range]).
  assert (Hfull : 0.75 <= opacity (glow time tension (update_refs tension delta r)) <= 1
                  /\ 0.035 <= size (glow time tension (update_refs tension delta r)) <= 0.25).
  { apply glow_in_range; [exact Ht|].
    destruct (update_refs_in_range tension delta r Hd Hr) as [Hb _]. exact Hb. }
  destruct shape; cbn [useFrame_material]; try exact Hfull.
  cbn [opacity size]. literals. lra.
Qed.

Lemma material_in_range_witness :
  let r := run_frames SPHERE [(0.9, 0.016); (0.2, 0.016)] (initial_refs 0.9) in
  0.75 <= opacity (useFrame_material SPHERE 1 0.1 0.02 r) <= 1
  /\ 0.035 <= size (useFrame_material SPHERE 1 0.1 0.02 r) <= 0.25.
Proof.
  apply (material_in_range SPHERE 0.9 [(0.9, 0.016); (0.2, 0.016)] 1 0.1 0.02).
  - repeat constructor; cbn [fst snd]; lra.
  - split; cbn [fst snd]; lra.
Defined.

Lemma update_refs_velocity (tension delta : R) (r : Refs R) :
  tensionVelocity (update_refs tension delta r)
  = tensionVelocity r * 0.85 + (tension - prevTensionRef r) * 15
  /\ prevTensionRef (update_refs tension delta r) = tension.
Proof.
  unfold update_refs. cbn [tensionVelocity prevTensionRef]. literals.
  cbn [add sub mul Ideal]. split; [lra|reflexivity].
Qed.

Lemma update_refs_velocity_ok (tension delta : R) (r : Refs R) :
  0 <= tension <= 1 -> velocity_ok r -> velocity_ok (update_refs tension delta r).
Proof.
  intros Ht [Hp Hv]. destruct (update_refs_velocity tension delta r) as [Ev Ep].
  unfold velocity_ok. rewrite Ev, Ep. split; [exact Ht|].
  apply Rabs_le. apply Rabs_between in Hv. lra.
Qed.

Lemma run_frames_velocity_ok (shape : ParticleShape) (frames : list Frame) (r : Refs R) :
  Forall frame_ok frames -> velocity_ok r -> velocity_ok (run_frames shape frames r).
Proof.
  intros Hframes. revert r. unfold run_frames.
  induction Hframes as [|f frames Hf _ IH]; intros r Hr; [exact Hr|].
  cbn [fold_left]. apply IH. destruct shape; cbn [useFrame_refs];
    try (apply update_refs_velocity_ok; [apply Hf|exact Hr]); exact Hr.
Qed.

(** X18. In real arithmetic, with tensions in [0,1], the tension velocity
    never exceeds 100 in absolute value; the morph speed of a frame lies
    between 8 and 608 times delta, the rotation speed is at least 0.075,
    and so [rotation.y] never decreases. *)
Theorem velocity_stays_bounded (shape : ParticleShape) (tension0 : R)
    (frames : list Frame) (tension delta : R) :
  0 <= tension0 <= 1 -> Forall frame_ok frames -> frame_ok (tension, delta) ->
  let r := run_frames shape frames (initial_refs tension0) in
  let r' := update_refs tension delta r in
  Rabs (tensionVelocity r) <= 100
  /\ Rabs (tensionVelocity r') <= 100
  /\ 8 * delta <= morphSpeed delta r' <= 608 * delta
  /\ 0.075 <= rotationSpeed tension r'
  /\ (forall rotation_y,
        rotation_y <= useFrame_rotation_y shape tension delta r rotation_y).
Proof.
  intros H0 Hframes [Ht Hd] r r'. cbn [fst snd] in Ht, Hd.
  assert (Hv : velocity_ok r).
  { apply run_frames_velocity_ok; [exact Hframes|].
    split; [exact H0|]. cbn [initial_refs tensionVelocity]. literals.
    rewrite Rabs_pos_eq; lra. }
  assert (Hr : in_range r)
    by (apply run_frames_in_range; [exact Hframes|apply initial_refs_in_range]).
  pose proof (update_refs_velocity_ok tension delta r Ht Hv) as [_ Hv'].
  destruct (update_refs_in_range tension delta r Hd Hr) as [Hb _].
  fold r' in Hv', Hb.
  assert (Hrot : 0.075 <= rotationSpeed tension r').
  { unfold rotationSpeed. literals. cbn [add sub mul abs Ideal].
    pose proof (Rabs_pos (tensionVelocity r')). nra. }
  split; [apply Hv|]. split; [exact Hv'|]. split; [|split; [exact Hrot|]].
  - unfold morphSpeed. literals. cbn [add mul abs Ideal].
    pose proof (Rabs_pos (tensionVelocity r')). nra.
  - intros rotation_y. destruct shape; cbn [useFrame_rotation_y add mul Ideal];
      fold r'; try nra. literals. nra.
Qed.

Lemma velocity_stays_bounded_witness :
  let r := run_frames SPHERE [(0.9, 0.016); (0.2, 0.016)] (initial_refs 0.9) in
  Rabs (tensionVelocity r) <= 100
  /\ 0.075 <= rotationSpeed 0.1 (update_refs 0.1 0.02 r).
Proof.
  destruct (velocity_stays_bounded SPHERE 0.9 [(0.9, 0.016); (0.2, 0.016)] 0.1 0.02)
    as (H1 & _ & _ & H4 & _).
  - lra.
  - repeat constructor; cbn [fst snd]; lra.
  - split; cbn [fst snd]; lra.
  - split; [exact H1|exact H4].
Defined.

Lemma pow_0_7 (a : R) :
  Math_pow a (lit 0.7) = if Rlt_dec 0 a then Rpower a 0.7 else 0.
Proof.
  cbn [Math_pow Ideal_math]. unfold ReMath.pow. literals.
  assert (E : Int_part (7 * / 10) = 0%Z) by (symmetry; apply Int_part_spec; lra).
  rewrite E. destruct (Req_dec_T (7 * / 10) 0) as [Hc|_]; [lra|].
  destruct (Rlt_dec 0 a); [|reflexivity]. f_equal. 
Qed.

(** X19. In real arithmetic the scale factor of the shape lies between 0.15
    and 3.5 for a tension in [0,1]; it is 3.5 for the open hand (tension 0)
    and 0.15 for the fist (tension 1). *)
Theorem scaleFactor_range (tension : R) :
  0 <= tension <= 1 ->
  0.15 <= scaleFactor tension <= 3.5
  /\ scaleFactor 0 = 3.5 /\ scaleFactor 1 = 0.15.
Proof.
  intros Ht.
  assert (Hs : forall a, scaleFactor a
                 = 0.15 + (3.5 - 0.15) * (1 - if Rlt_dec 0 a then Rpower a 0.7 else 0)).
  { intros a. unfold scaleFactor. rewrite pow_0_7. literals.
    cbn [add sub mul Ideal]. lra. }
  rewrite !Hs. split; [|split].
  - destruct (Rlt_dec 0 tension) as [Hpos|_]; [|lra].
    assert (0 < Rpower tension 0.7 <= 1).
    { split; [apply exp_pos|]. unfold Rpower.
      rewrite <- exp_0. destruct (Rle_lt_or_eq_dec _ _ (proj2 Ht)) as [Hlt| ->].
      - left. apply exp_increasing.
        assert (ln tension < 0) by (rewrite <- ln_1; apply ln_increasing; lra). nra.
      - rewrite ln_1. right. f_equal. lra. }
    lra.
  - destruct (Rlt_dec 0 0); lra.
  - destruct (Rlt_dec 0 1) as [_|Hn]; [|lra].
    unfold Rpower. rewrite ln_1, Rmult_0_r, exp_0. lra.
Qed.

Lemma scaleFactor_range_witness :
  0.15 <= scaleFactor 0.5 <= 3.5 /\ scaleFactor 0 = 3.5 /\ scaleFactor 1 = 0.15.
Proof. apply (scaleFactor_range 0.5). lra. Defined.

End FrameIdeal.

Section GeneratorIdeal.
Import FrameSpec.
Local Open Scope R_scope.

Ltac literals :=
  repeat match goal with
         | |- context [@lit R Ideal ?q] => change (@lit R Ideal q) with (Q2R q)
         end;
  unfold Q2R; cbn [Qnum Qden].

Lemma Int_part_integer (k : Z) : Int_part (IZR k) = k.
Proof. symmetry. apply Int_part_spec. lra. Qed.

Lemma unit_picks_burst (Math_random : nat -> R) :
  unit_interval Math_random -> random_picks_burst Math_random.
Proof.
  intros Hunit k. specialize (Hunit k). unfold burst_center.
  cbn [Math_floor to_index Ideal_math mul Ideal]. literals.
  unfold ReMath.floor, ReMath.to_index.
  set (u := Math_random k * (5 * / 1)) in *.
  destruct (base_Int_part u) as [Hlo Hhi].
  rewrite Int_part_integer.
  assert (H0 : (0 <= Int_part u)%Z).
  { apply Z.lt_succ_r, lt_IZR. rewrite succ_IZR. subst u. lra. }
  assert (H4 : (Int_part u <= 4)%Z).
  { apply Z.lt_succ_r, lt_IZR. cbn. subst u. lra. }
  destruct (Rle_dec 0 (IZR (Int_part u))) as [_|Hn]; [|contradiction Hn; apply IZR_le, H0].
  destruct (Req_dec_T _ _) as [_|Hn]; [|contradiction Hn; reflexivity].
  assert (Hk : (Int_part u = 0 \/ Int_part u = 1 \/ Int_part u = 2
                \/ Int_part u = 3 \/ Int_part u = 4)%Z) by lia.
  destruct Hk as [-> |[-> |[-> |[-> | ->]]]]; eexists; reflexivity.
Qed.

(** X14. In real arithmetic, with [Math.random] returning numbers of [0,1),
    [GenerateParticles] returns an array of [3 * count] entries for every
    shape: the index [Math.floor(Math.random() * 5)] of the fireworks is one
    of 0..4, so [burstCenters[burstPoint]] is never [undefined]. *)
Theorem GenerateParticles_never_throws
    (Math_random : nat -> R) (canvas_pixels : string -> nat -> nat)
    (shape : ParticleShape) (count : nat) (customText : option string) (n : nat) :
  unit_interval Math_random ->
  exists positions n',
    GenerateParticles Math_random canvas_pixels count shape customText n
    = Some (positions, n')
    /\ List.length positions = (3 * count)%nat.
Proof.
  intros Hunit. unfold GenerateParticles.
  assert (Hgen : GenerateParticles_into Math_random canvas_pixels count shape
                                        customText (Float32Array (count * 3)) n
                 = fill (particle_point Math_random canvas_pixels shape count customText)
                        0 count (Float32Array (count * 3)) n)
    by (destruct shape; reflexivity).
  rewrite Hgen.
  destruct (fill_all (particle_point Math_random canvas_pixels shape count customText)
                     count n) as (positions & n' & Hfill & Hlen & _).
  - intros i. destruct shape; cbn [particle_point];
      try (apply shape_point_returns; intros _; apply unit_picks_burst, Hunit);
      apply text_point_returns.
  - exists positions, n'. split; [exact Hfill|exact Hlen].
Qed.

Lemma GenerateParticles_never_throws_witness :
  exists positions n',
    GenerateParticles (fun k => / (2 + INR k)) (fun _ _ => 0%nat) 7%nat FIREWORKS None 0%nat
    = Some (positions, n')
    /\ List.length positions = 21%nat.
Proof.
  apply (GenerateParticles_never_throws (fun k => / (2 + INR k)) (fun _ _ => 0%nat)
           FIREWORKS 7%nat None 0%nat).
  intros k. pose proof (pos_INR k).
  assert (0 < / (2 + INR k)) by (apply Rinv_0_lt_compat; lra).
  split; [lra|]. rewrite <- Rinv_1. apply Rinv_lt_contravar; lra.
Defined.

(** X16. In real arithmetic, for a target of the shape library (within
    10.525 of the centre on each axis) that is farther than 0.01 from the
    centre: no random number is drawn, and the direction of the explosion
    points from the centre to the target.  No component exceeds 1 in
    magnitude, each lies on the side of the target, the inner product with
    the target is positive, the squared length is 1 up to a billionth, and
    [dist] times the direction is the target up to a billionth of [dist].
    (In exact arithmetic the last two are equalities; the bounds are stated
    so that they do not depend on it.) *)
Theorem direction_points_outward (Math_random : nat -> R) (tx ty tz : R) (n : nat) :
  let dist := R_sqrt.sqrt (tx * tx + ty * ty + tz * tz) in
  within 10.525 (tx, ty, tz) -> 0.01 < dist ->
  exists dirX dirY dirZ,
    direction Math_random tx ty tz n = Some ((dist, (dirX, dirY, dirZ)), n)
    /\ (Rabs dirX <= 1 /\ Rabs dirY <= 1 /\ Rabs dirZ <= 1)
    /\ (0 <= tx * dirX /\ 0 <= ty * dirY /\ 0 <= tz * dirZ)
    /\ 0 < tx * dirX + ty * dirY + tz * dirZ
    /\ Rabs (dirX * dirX + dirY * dirY + dirZ * dirZ - 1) <= 0.000000001
    /\ (Rabs (dist * dirX - tx) <= 0.000000001 * dist
        /\ Rabs (dist * dirY - ty) <= 0.000000001 * dist
        /\ Rabs (dist * dirZ - tz) <= 0.000000001 * dist).
Proof.
  intros dist _ Hd.
  exists (tx / dist), (ty / dist), (tz / dist). split.
  - pose proof (direction_quotient Math_random tx ty tz n) as E. cbv zeta in E.
    rewrite E; [reflexivity|].
    cbn [ltb sqrt add mul Ideal]. fold dist. unfold Re.ltb. literals.
    destruct (Rlt_dec (1 * / 100) dist) as [_|Hn]; [reflexivity|lra].
  - assert (Hsq : dist * dist = tx * tx + ty * ty + tz * tz).
    { apply sqrt_sqrt. nra. }
    assert (Hne : dist <> 0) by lra.
    assert (Hi : 0 < / dist) by (apply Rinv_0_lt_compat; lra).
    assert (Hx : - dist <= tx <= dist) by (split; nra).
    assert (Hy : - dist <= ty <= dist) by (split; nra).
    assert (Hz : - dist <= tz <= dist) by (split; nra).
    assert (Bound : forall t, - dist <= t <= dist -> Rabs (t / dist) <= 1).
    { intros t Ht. apply Rabs_le. unfold Rdiv.
      replace 1 with (dist * / dist) by (field; exact Hne).
      replace (- (dist * / dist)) with (- dist * / dist) by ring.
      split; apply Rmult_le_compat_r; lra. }
    assert (Side : forall t, t * (t / dist) = t * t * / dist) by (intros t; unfold Rdiv; ring).
    assert (Back : forall t, dist * (t / dist) - t = 0) by (intros t; field; exact Hne).
    assert (Unit : tx / dist * (tx / dist) + ty / dist * (ty / dist)
                   + tz / dist * (tz / dist) - 1 = 0).
    { transitivity ((tx * tx + ty * ty + tz * tz) / (dist * dist) - 1); [field; exact Hne|].
      rewrite <- Hsq. field. exact Hne. }
    split; [repeat split; apply Bound; assumption|].
    split.
    { rewrite !Side. repeat split; apply Rmult_le_pos; nra. }
    split.
    { rewrite !Side. replace (tx * tx * / dist + ty * ty * / dist + tz * tz * / dist)
        with ((tx * tx + ty * ty + tz * tz) * / dist) by ring.
      rewrite <- Hsq. apply Rmult_lt_0_compat; nra. }
    split; [rewrite Unit, Rabs_R0; lra|].
    rewrite !Back, Rabs_R0. repeat split; lra.
Qed.

Lemma direction_points_outward_witness :
  exists dirX dirY dirZ,
    direction (fun _ => 0) 3 0 4 0%nat
    = Some ((R_sqrt.sqrt (3 * 3 + 0 * 0 + 4 * 4), (dirX, dirY, dirZ)), 0%nat)
    /\ (Rabs dirX <= 1 /\ Rabs dirY <= 1 /\ Rabs dirZ <= 1)
    /\ 0 < 3 * dirX + 0 * dirY + 4 * dirZ.
Proof.
  destruct (direction_points_outward (fun _ => 0) 3 0 4 0%nat)
    as (dx & dy & dz & E & Hb & _ & Ho & _).
  - unfold within. rewrite Rabs_R0, !Rabs_pos_eq by lra. lra.
  - replace (3 * 3 + 0 * 0 + 4 * 4) with (5 * 5) by lra.
    rewrite sqrt_square; lra.
  - exists dx, dy, dz. split; [exact E|]. split; [exact Hb|exact Ho].
Defined.

Lemma text_frame_approaches (time : R) (i : nat) (target current : Point) :
  let '(tx, ty, tz) := target in
  let '(px, py, pz) := current in
  let '(qx, qy, qz) := text_frame_point time i target current in
  tx - qx = 0.85 * (tx - px)
  /\ tz - qz = 0.85 * (tz - pz)
  /\ Rabs (ty - qy) <= 0.85 * Rabs (ty - py) + 0.003.
Proof.
  destruct target as [[tx ty] tz]. destruct current as [[px py] pz].
  unfold text_frame_point. cbn [fround Ideal_math add sub mul Ideal Math_sin]. literals.
  split; [lra|]. split; [lra|].
  set (s := sin _). pose proof (SIN_bound (time * (15 * / 10) + of_nat i * (1 * / 1000))) as Hs.
  fold s in Hs.
  replace (ty - (py + (ty + s * (2 * / 100) - py) * (15 * / 100)))
    with (0.85 * (ty - py) + - (s * 0.003)) by lra.
  eapply Rle_trans; [apply Rabs_triang|].
  rewrite Rabs_mult, (Rabs_pos_eq 0.85) by lra.
  assert (Rabs (- (s * 0.003)) <= 0.003) by (apply Rabs_le; lra).
  lra.
Qed.

(** With exact arithmetic and exact stores the distance to the target is
    multiplied by 0.85 in every frame. *)
Lemma text_frames_exact (times : list R) (i : nat) (target current : Point) :
  let n := List.length times in
  let '(tx, ty, tz) := target in
  let '(px, py, pz) := current in
  let '(qx, qy, qz) := text_frames times i target current in
  tx - qx = 0.85 ^ n * (tx - px)
  /\ tz - qz = 0.85 ^ n * (tz - pz)
  /\ Rabs (ty - qy) <= 0.85 ^ n * Rabs (ty - py) + 0.02 * (1 - 0.85 ^ n).
Proof.
  revert current. induction times as [|time times IH]; intros current.
  - destruct target as [[tx ty] tz]. destruct current as [[px py] pz].
    cbn [text_frames fold_left List.length pow]. repeat split; lra.
  - specialize (IH (text_frame_point time i target current)).
    pose proof (text_frame_approaches time i target current) as Hstep.
    unfold text_frames in *. cbn [fold_left List.length].
    destruct target as [[tx ty] tz]. destruct current as [[px py] pz].
    destruct (text_frame_point time i (tx, ty, tz) (px, py, pz)) as [[mx my] mz].
    match goal with |- context [fold_left ?f times (mx, my, mz)] =>
      destruct (fold_left f times (mx, my, mz)) as [[qx qy] qz] end.
    cbv zeta in IH. destruct IH as (Ex & Ez & Ey). destruct Hstep as (Sx & Sz & Sy).
    rewrite Ex, Ez, Sx, Sz. cbn [pow].
    split; [ring|]. split; [ring|].
    assert (Hp : 0 <= 0.85 ^ List.length times) by (apply pow_le; lra).
    assert (Hp1 : 0.85 ^ List.length times <= 1).
    { rewrite <- (pow1 (List.length times)). apply pow_incr. lra. }
    set (p := 0.85 ^ List.length times) in *.
    pose proof (Rabs_pos (ty - py)). nra.
Qed.

Lemma between_of_factor (c p t q : R) :
  0 <= c <= 1 -> t - q = c * (t - p) ->
  Rmin p t <= q <= Rmax p t /\ Rabs (t - q) <= c * Rabs (t - p) + 0.001.
Proof.
  intros Hc E. split.
  - unfold Rmin, Rmax. destruct (Rle_dec p t); split; nra.
  - rewrite E, Rabs_mult, (Rabs_pos_eq c) by lra. lra.
Qed.

(** X20. In real arithmetic, for targets and positions within 100 of the
    centre, the text mode moves every particle towards its target: after
    [n] frames the horizontal and the depth coordinate lie between where
    they were and the target, at a distance from the target of at most
    [0.85 ^ n] times what it was plus a thousandth, and the vertical
    distance is at most [0.85 ^ n] times what it was plus 0.021, the wave
    being 0.02. *)
Theorem text_frames_converge (times : list R) (i : nat) (target current : Point) :
  let n := List.length times in
  within 100 target -> within 100 current ->
  let '(tx, ty, tz) := target in
  let '(px, py, pz) := current in
  let '(qx, qy, qz) := text_frames times i target current in
  (Rmin px tx <= qx <= Rmax px tx /\ Rabs (tx - qx) <= 0.85 ^ n * Rabs (tx - px) + 0.001)
  /\ (Rmin pz tz <= qz <= Rmax pz tz /\ Rabs (tz - qz) <= 0.85 ^ n * Rabs (tz - pz) + 0.001)
  /\ Rabs (ty - qy) <= 0.85 ^ n * Rabs (ty - py) + 0.021.
Proof.
  intros n _ _. pose proof (text_frames_exact times i target current) as E.
  destruct target as [[tx ty] tz]. destruct current as [[px py] pz].
  destruct (text_frames times i (tx, ty, tz) (px, py, pz)) as [[qx qy] qz].
  cbv zeta in E. fold n in E. destruct E as (Ex & Ez & Ey).
  assert (Hp : 0 <= 0.85 ^ n <= 1).
  { split; [apply pow_le; lra|]. rewrite <- (pow1 n). apply pow_incr. lra. }
  split; [exact (between_of_factor _ _ _ _ Hp Ex)|].
  split; [exact (between_of_factor _ _ _ _ Hp Ez)|]. lra.
Qed.

Lemma text_frames_converge_witness :
  let '(qx, qy, qz) := text_frames [0; 1; 2] 7%nat (1, 2, 0) (5, 0, -3) in
  (Rmin 5 1 <= qx <= Rmax 5 1 /\ Rabs (1 - qx) <= 0.85 ^ 3 * Rabs (1 - 5) + 0.001)
  /\ (Rmin (-3) 0 <= qz <= Rmax (-3) 0
      /\ Rabs (0 - qz) <= 0.85 ^ 3 * Rabs (0 - -3) + 0.001)
  /\ Rabs (2 - qy) <= 0.85 ^ 3 * Rabs (2 - 0) + 0.021.
Proof.
  apply (text_frames_converge [0; 1; 2] 7%nat (1, 2, 0) (5, 0, -3));
    unfold within; repeat split; apply Rabs_le; lra.
Defined.

End GeneratorIdeal.

Section TextFacts.

Lemma textPixels_sampled (pixels : nat -> nat) (p : nat * nat) :
  In p (textPixels pixels) <-> sampled_pixel pixels p.
Proof.
  destruct p as [px py]. unfold textPixels, sampled_pixel.
  change (width / 2)%nat with 300%nat. change (height / 2)%nat with 75%nat.
  rewrite in_flat_map. split.
  - intros (y0 & Hy & Hin). apply in_map_iff in Hy. destruct Hy as (ky & <- & Hky).
    apply in_seq in Hky. apply in_flat_map in Hin. destruct Hin as (x0 & Hx & Hin).
    apply in_map_iff in Hx. destruct Hx as (kx & <- & Hkx). apply in_seq in Hkx.
    destruct (Nat.ltb_spec 100 (pixels ((ky * 2 * width + kx * 2) * 4))) as [Hred|_];
      [|contradiction].
    destruct Hin as [E|[]]. injection E as <- <-.
    unfold width, height in *.
    repeat split; try lia; try exact Hred;
      rewrite Nat.mul_comm; apply Nat.even_spec; eexists; reflexivity.
  - intros (Hx & Hy & Ex & Ey & Hred).
    apply Nat.even_spec in Ex. destruct Ex as [kx ->].
    apply Nat.even_spec in Ey. destruct Ey as [ky ->].
    unfold width, height in *.
    exists (ky * 2)%nat. split.
    + apply in_map_iff. exists ky. split; [reflexivity|apply in_seq; lia].
    + apply in_flat_map. exists (kx * 2)%nat. split.
      * apply in_map_iff. exists kx. split; [reflexivity|apply in_seq; lia].
      * replace (ky * 2)%nat with (2 * ky)%nat by lia.
        replace (kx * 2)%nat with (2 * kx)%nat by lia.
        destruct (Nat.ltb_spec 100 (pixels ((2 * ky * 600 + 2 * kx) * 4))) as [_|Hn];
          [left; reflexivity|lia].
Qed.

End TextFacts.

Section TextIdeal.
Import FrameSpec.
Local Open Scope R_scope.

Ltac literals :=
  repeat match goal with
         | |- context [@lit R Ideal ?q] => change (@lit R Ideal q) with (Q2R q)
         end;
  unfold Q2R; cbn [Qnum Qden].

(** X15. In real arithmetic, with [Math.random] in [0,1) and a canvas on
    which the scan finds a pixel: particle [i] of the text shape draws
    three random numbers and is placed at the sampled pixel number
    [i mod length] (even coordinates inside the canvas, red channel above
    100), scaled by 0.035 about the centre of the canvas.  In each
    direction of the canvas it is less than 0.035 away from the position of
    its pixel, which is half the spacing of the sampled pixels; its depth is
    below 0.11, and the text lies within 10.535 horizontally and 2.66
    vertically. *)
Theorem text_particles_on_pixels
    (Math_random : nat -> R) (pixels : nat -> nat) (i n : nat) :
  unit_interval Math_random -> textPixels pixels <> [] ->
  exists px py qx qy qz,
    text_point Math_random (textPixels pixels) i n = Some ((qx, qy, qz), (n + 3)%nat)
    /\ nth_error (textPixels pixels) (i mod List.length (textPixels pixels))
       = Some (px, py)
    /\ sampled_pixel pixels (px, py)
    /\ Rabs (qx - (INR px - 300) * 0.035) < 0.035
    /\ Rabs (qy - (75 - INR py) * 0.035) < 0.035
    /\ Rabs qz < 0.11
    /\ Rabs qx < 10.535 /\ Rabs qy < 2.66.
Proof.
  intros Hunit Hne. set (found := textPixels pixels) in *.
  assert (Hlen : (0 < List.length found)%nat)
    by (destruct found; [contradiction Hne; reflexivity|cbn; lia]).
  destruct (nth_error found (i mod List.length found)) as [[px py]|] eqn:E.
  2:{ apply nth_error_None in E.
      pose proof (Nat.mod_upper_bound i (List.length found)). lia. }
  assert (Hs : sampled_pixel pixels (px, py)).
  { apply textPixels_sampled. apply (nth_error_In _ _ E). }
  unfold text_point. destruct (Nat.ltb_spec 0 (List.length found)) as [_|Hn]; [|lia].
  rewrite E. unfold bindG, random, ret.
  do 5 eexists. split; [repeat f_equal; lia|]. split; [reflexivity|]. split; [exact Hs|].
  destruct Hs as (Hx & Hy & _ & _ & _). unfold width, height in Hx, Hy.
  apply lt_INR in Hx, Hy. pose proof (pos_INR px). pose proof (pos_INR py).
  rewrite (INR_IZR_INZ 600) in Hx. change (Z.of_nat 600) with 600%Z in Hx.
  rewrite (INR_IZR_INZ 150) in Hy. change (Z.of_nat 150) with 150%Z in Hy.
  pose proof (Hunit n). pose proof (Hunit (S n)). pose proof (Hunit (S (S n))).
  unfold of_nat. cbn [of_Z add sub mul neg div Ideal].
  change (Z.of_nat width) with 600%Z. change (Z.of_nat height) with 150%Z.
  rewrite <- !INR_IZR_INZ. literals.
  repeat split; apply Rabs_def1; lra.
Qed.

Lemma text_particles_on_pixels_witness :
  let pixels := fun i => if Nat.eqb i 0 then 255%nat else 0%nat in
  exists px py qx qy qz,
    text_point (fun _ => 0) (textPixels pixels) 5%nat 0%nat = Some ((qx, qy, qz), 3%nat)
    /\ nth_error (textPixels pixels) (5 mod List.length (textPixels pixels))%nat
       = Some (px, py)
    /\ sampled_pixel pixels (px, py)
    /\ Rabs (qx - (INR px - 300) * 0.035) < 0.035
    /\ Rabs (qy - (75 - INR py) * 0.035) < 0.035
    /\ Rabs qz < 0.11
    /\ Rabs qx < 10.535 /\ Rabs qy < 2.66.
Proof.
  intros pixels.
  apply (text_particles_on_pixels (fun _ => 0) pixels 5%nat 0%nat).
  - intros k. lra.
  - assert (Hin : In (0%nat, 0%nat) (textPixels pixels)).
    { apply textPixels_sampled. unfold sampled_pixel, width, height.
      repeat split; try reflexivity; try lia. subst pixels. cbn. lia. }
    intros E. rewrite E in Hin. exact Hin.
Defined.

End TextIdeal.

Section AudioIdeal.
Import GeminiLive.
Local Open Scope R_scope.

Lemma back_to_back_app (log : list (nat * R * R)) (from limit : R)
    (source : nat) (start duration : R) :
  back_to_back log from limit -> limit <= start ->
  back_to_back (log ++ [(source, start, duration)]) from (start + duration).
Proof.
  revert from. induction log as [|[[s w] d] log IH]; intros from Hb Hl.
  - cbn in *. lra.
  - cbn in *. destruct Hb as [Hf Hb]. split; [exact Hf|]. apply (IH _ Hb Hl).
Qed.

Lemma playAudio_keeps_order (currentTime duration from : R) (p : Player R) :
  back_to_back (started p) from (nextStartTime p) ->
  back_to_back (started (playAudio currentTime duration p)) from
               (nextStartTime (playAudio currentTime duration p)).
Proof.
  intros Hb. unfold playAudio. destruct (outputAudioContext p); [|exact Hb].
  cbn [negb started nextStartTime max add Ideal].
  apply (back_to_back_app _ _ (nextStartTime p)); [exact Hb|apply Rmax_l].
Qed.

Lemma play_all_silent (calls : list (R * R)) (p : Player R) :
  outputAudioContext p = false -> play_all calls p = p.
Proof.
  intros Hc. unfold play_all. induction calls as [|c calls IH]; [reflexivity|].
  cbn [fold_left]. unfold playAudio at 2. rewrite Hc. exact IH.
Qed.

(** X21. In real arithmetic [playAudio] schedules the buffers back to back:
    each source starts at [max(nextStartTime, currentTime)], so not before
    the context time of its call and not before the end of the buffer
    scheduled before it, and exactly at that end when the call comes in
    time; without an output context nothing is scheduled. *)
Theorem playAudio_back_to_back (calls : list (R * R)) (p : Player R) (from : R) :
  back_to_back (started p) from (nextStartTime p) ->
  back_to_back (started (play_all calls p)) from (nextStartTime (play_all calls p))
  /\ (forall currentTime duration q,
        outputAudioContext q = true ->
        started (playAudio currentTime duration q)
        = started q ++ [(created q, Rmax (nextStartTime q) currentTime, duration)]
        /\ currentTime <= Rmax (nextStartTime q) currentTime
        /\ (currentTime <= nextStartTime q ->
              Rmax (nextStartTime q) currentTime = nextStartTime q))
  /\ (outputAudioContext p = false -> play_all calls p = p).
Proof.
  intros Hb. split; [|split].
  - revert p Hb. unfold play_all.
    induction calls as [|c calls IH]; intros p Hb; [exact Hb|].
    cbn [fold_left]. apply IH, playAudio_keeps_order, Hb.
  - intros currentTime duration q Hq. unfold playAudio. rewrite Hq.
    cbn [negb started max Ideal]. split; [reflexivity|]. split; [apply Rmax_r|].
    intros Hle. apply Rmax_left, Hle.
  - apply play_all_silent.
Qed.

Lemma playAudio_back_to_back_witness :
  let p := {| outputAudioContext := true; nextStartTime := 0; sources := [];
              started := []; created := 0 |} in
  back_to_back (started (play_all [(1, 2); (1.5, 2); (9, 1)] p)) 0
               (nextStartTime (play_all [(1, 2); (1.5, 2); (9, 1)] p)).
Proof.
  intros p.
  apply (playAudio_back_to_back [(1, 2); (1.5, 2); (9, 1)] p 0).
  cbn. lra.
Defined.

End AudioIdeal.

Section Base64Facts.
Import GeminiLive.
Local Open Scope N_scope.

Ltac arith := zify; Z.to_euclidean_division_equations; lia.

Lemma sextets_in_range (bytes : list N) :
  Forall (fun b => b < 256) bytes -> Forall (fun s => s < 64) (sextets_of bytes).
Proof.
  revert bytes. fix IH 1. intros [|a [|b [|c rest]]] Hb.
  - apply Forall_nil.
  - inversion_clear Hb. cbn [sextets_of].
    apply Forall_cons; [arith|]. apply Forall_cons; [arith|]. apply Forall_nil.
  - inversion_clear Hb as [|? ? Ha Hb']. inversion_clear Hb'.
    cbn [sextets_of].
    apply Forall_cons; [arith|]. apply Forall_cons; [arith|].
    apply Forall_cons; [arith|]. apply Forall_nil.
  - inversion_clear Hb as [|? ? Ha Hb']. inversion_clear Hb' as [|? ? Hb Hc'].
    inversion_clear Hc' as [|? ? Hc Hrest].
    cbn [sextets_of].
    apply Forall_cons; [arith|]. apply Forall_cons; [arith|].
    apply Forall_cons; [arith|]. apply Forall_cons; [arith|]. apply IH, Hrest.
Qed.

Lemma bytes_of_sextets (bytes : list N) :
  Forall (fun b => b < 256) bytes -> bytes_of (sextets_of bytes) = bytes.
Proof.
  revert bytes. fix IH 1. intros [|a [|b [|c rest]]] Hb.
  - reflexivity.
  - inversion_clear Hb. cbn [sextets_of bytes_of]. f_equal. arith.
  - inversion_clear Hb as [|? ? Ha Hb']. inversion_clear Hb'.
    cbn [sextets_of bytes_of]. f_equal; [arith|]. f_equal. arith.
  - inversion_clear Hb as [|? ? Ha Hb']. inversion_clear Hb' as [|? ? Hb Hc'].
    inversion_clear Hc' as [|? ? Hc Hrest].
    cbn [sextets_of bytes_of]. rewrite (IH rest Hrest).
    f_equal; [arith|]. f_equal; [arith|]. f_equal. arith.
Qed.

Lemma sextets_length (bytes : list N) :
  List.length (sextets_of bytes)
  = (4 * (List.length bytes / 3)
     + match (List.length bytes mod 3)%nat with
       | 0 => 0
       | 1 => 2
       | _ => 3
       end)%nat.
Proof.
  revert bytes. fix IH 1. intros [|a [|b [|c rest]]]; try reflexivity.
  cbn [sextets_of List.length]. rewrite (IH rest).
  replace (S (S (S (List.length rest)))) with (List.length rest + 1 * 3)%nat by lia.
  rewrite Nat.div_add, Nat.Div0.mod_add by lia. lia.
Qed.

Lemma padded_length (bytes : list N) :
  (List.length (map sextet_char (sextets_of bytes) ++ padding bytes)
   = 4 * ((List.length bytes + 2) / 3))%nat.
Proof.
  rewrite length_app, length_map, sextets_length. unfold padding.
  pose proof (Nat.div_mod_eq (List.length bytes) 3) as E.
  pose proof (Nat.mod_upper_bound (List.length bytes) 3 ltac:(lia)) as Hr.
  set (q := (List.length bytes / 3)%nat) in *.
  set (r := (List.length bytes mod 3)%nat) in *.
  assert (Hq : ((List.length bytes + 2) / 3 = q + match r with 0 => 0 | _ => 1 end)%nat).
  { rewrite E. clear E. destruct r as [|[|[|r]]]; try lia.
    - replace (3 * q + 0 + 2)%nat with (2 + q * 3)%nat by lia.
      rewrite Nat.div_add by lia. change (2 / 3)%nat with 0%nat. lia.
    - replace (3 * q + 1 + 2)%nat with (0 + (q + 1) * 3)%nat by lia.
      rewrite Nat.div_add by lia. change (0 / 3)%nat with 0%nat. lia.
    - replace (3 * q + 2 + 2)%nat with (1 + (q + 1) * 3)%nat by lia.
      rewrite Nat.div_add by lia. change (1 / 3)%nat with 0%nat. lia. }
  rewrite Hq. destruct r as [|[|[|r]]]; cbn [List.length]; lia.
Qed.

Lemma table_checked (k : N) : k < 64 -> table_ok k = true.
Proof.
  intros Hk.
  assert (Hall : forallb table_ok (map N.of_nat (seq 0 64)) = true)
    by (vm_compute; reflexivity).
  rewrite forallb_forall in Hall. apply Hall.
  apply in_map_iff. exists (N.to_nat k). split; [apply N2Nat.id|].
  apply in_seq. lia.
Qed.

Lemma char_sextet_char (k : N) : k < 64 -> char_sextet (sextet_char k) = Some k.
Proof.
  intros Hk. pose proof (table_checked k Hk) as Ht. unfold table_ok in Ht.
  apply andb_prop in Ht. destruct Ht as [Ht _]. apply andb_prop in Ht.
  destruct Ht as [Ht _]. destruct (char_sextet (sextet_char k)) as [k'|]; [|discriminate].
  apply N.eqb_eq in Ht. congruence.
Qed.

Lemma sextet_char_plain (k : N) :
  k < 64 ->
  is_whitespace (sextet_char k) = false /\ N.eqb (sextet_char k) equals_sign = false.
Proof.
  intros Hk. pose proof (table_checked k Hk) as Ht. unfold table_ok in Ht.
  apply andb_prop in Ht. destruct Ht as [Ht He]. apply andb_prop in Ht.
  destruct Ht as [_ Hw]. split; apply negb_true_iff; assumption.
Qed.

Lemma traverse_chars (groups : list N) :
  Forall (fun s => s < 64) groups ->
  traverse char_sextet (map sextet_char groups) = Some groups.
Proof.
  induction 1 as [|k groups Hk _ IH]; [reflexivity|].
  cbn [map traverse]. rewrite (char_sextet_char k Hk), IH. reflexivity.
Qed.

Lemma no_whitespace (groups : list N) (bytes : list N) :
  Forall (fun s => s < 64) groups ->
  filter (fun c => negb (is_whitespace c)) (map sextet_char groups ++ padding bytes)
  = map sextet_char groups ++ padding bytes.
Proof.
  intros Hg. apply forallb_filter_id. rewrite forallb_app. apply andb_true_intro. split.
  - apply forallb_forall. intros c Hc. apply in_map_iff in Hc.
    destruct Hc as (k & <- & Hk). rewrite Forall_forall in Hg.
    rewrite (proj1 (sextet_char_plain k (Hg k Hk))). reflexivity.
  - unfold padding. destruct (List.length bytes mod 3)%nat as [|[|[|r]]]; reflexivity.
Qed.

Lemma strip_padded (bytes : list N) :
  Forall (fun b => b < 256) bytes ->
  strip_padding (map sextet_char (sextets_of bytes) ++ padding bytes)
  = map sextet_char (sextets_of bytes).
Proof.
  intros Hb. unfold strip_padding. rewrite padded_length.
  rewrite Nat.mul_comm, Nat.Div0.mod_mul. cbn [Nat.eqb].
  pose proof (sextets_in_range bytes Hb) as Hg.
  assert (Hplain : Forall (fun c => N.eqb c equals_sign = false)
                          (rev (map sextet_char (sextets_of bytes)))).
  { apply Forall_rev. apply Forall_map. revert Hg. apply Forall_impl.
    intros k Hk. apply (sextet_char_plain k Hk). }
  pose proof (sextets_length bytes) as Hlen. rewrite <- (length_map sextet_char) in Hlen.
  rewrite <- length_rev in Hlen.
  rewrite rev_app_distr. unfold padding in *.
  set (body := map sextet_char (sextets_of bytes)) in *.
  destruct (List.length bytes mod 3)%nat as [|[|[|r]]].
  - cbn [rev app]. rewrite app_nil_r.
    destruct (rev body) as [|c1 r1] eqn:E; [reflexivity|].
    inversion_clear Hplain as [|? ? Hc1 _]. rewrite Hc1. reflexivity.
  - cbn [rev app]. change (N.eqb equals_sign equals_sign) with true. cbn iota.
    apply rev_involutive.
  - cbn [rev app]. change (N.eqb equals_sign equals_sign) with true. cbn iota.
    destruct (rev body) as [|c2 r2] eqn:E; [cbn in Hlen; lia|].
    inversion_clear Hplain as [|? ? Hc2 _]. rewrite Hc2.
    rewrite <- E. apply rev_involutive.
  - cbn [rev app]. rewrite app_nil_r.
    destruct (rev body) as [|c1 r1] eqn:E; [reflexivity|].
    inversion_clear Hplain as [|? ? Hc1 _]. rewrite Hc1. reflexivity.
Qed.

Lemma bytes_are_chars (bytes : list N) :
  Forall (fun b => b < 256) bytes ->
  map fromCharCode bytes = bytes /\ map to_uint8 bytes = bytes
  /\ forallb (fun c => N.leb c 255) bytes = true.
Proof.
  induction 1 as [|b bytes Hb _ (IH1 & IH2 & IH3)]; [repeat split|].
  cbn [map forallb]. rewrite IH1, IH2, IH3. unfold fromCharCode, to_uint8.
  rewrite !N.mod_small by lia. repeat split.
  apply andb_true_intro. split; [apply N.leb_le; lia|reflexivity].
Qed.

(** X22. [decode] inverts [encode]: for the elements of a [Uint8Array],
    [encode] returns a string of [4 * ceil(n / 3)] characters, and [decode]
    of that string returns the same bytes.  ([btoa] and [atob] are those of
    the HTML standard.) *)
Theorem decode_encode (bytes : list N) :
  Forall (fun b => b < 256) bytes ->
  exists base64,
    encode bytes = Some base64
    /\ decode base64 = Some bytes
    /\ List.length base64 = (4 * ((List.length bytes + 2) / 3))%nat.
Proof.
  intros Hb. destruct (bytes_are_chars bytes Hb) as (Ec & Eu & Ef).
  unfold encode, btoa. rewrite Ec, Ef. eexists. split; [reflexivity|].
  split; [|apply padded_length].
  unfold decode, atob. cbv zeta.
  rewrite (no_whitespace _ _ (sextets_in_range bytes Hb)).
  rewrite (strip_padded bytes Hb).
  rewrite length_map, sextets_length.
  assert (Hmod : Nat.eqb ((4 * (List.length bytes / 3)
                           + match List.length bytes mod 3 with
                             | 0 => 0 | 1 => 2 | _ => 3 end) mod 4)%nat 1 = false).
  { rewrite Nat.add_comm, Nat.mul_comm, Nat.Div0.mod_add.
    destruct (List.length bytes mod 3)%nat as [|[|[|r]]]; reflexivity. }
  rewrite Hmod, (traverse_chars _ (sextets_in_range bytes Hb)).
  cbn [option_map]. rewrite (bytes_of_sextets bytes Hb), Eu. reflexivity.
Qed.

Lemma decode_encode_witness :
  exists base64,
    encode [0; 255; 16; 77]%N = Some base64
    /\ decode base64 = Some [0; 255; 16; 77]%N
    /\ List.length base64 = 8%nat.
Proof.
  apply (decode_encode [0; 255; 16; 77]%N). repeat constructor.
Defined.

End Base64Facts.

Section ShapeBounds.
Import FrameSpec.
Local Open Scope R_scope.
Variable Math_random : nat -> R.
Hypothesis Hunit : unit_interval Math_random.

Ltac literals :=
  repeat match goal with
         | |- context [@lit R Ideal ?q] => change (@lit R Ideal q) with (Q2R q)
         end;
  unfold Q2R; cbn [Qnum Qden].

Lemma Rabs_add_le (a b A B : R) : Rabs a <= A -> Rabs b <= B -> Rabs (a + b) <= A + B.
Proof. intros Ha Hb. eapply Rle_trans; [apply Rabs_triang|lra]. Qed.

Lemma Rabs_sub_le (a b A B : R) : Rabs a <= A -> Rabs b <= B -> Rabs (a - b) <= A + B.
Proof.
  intros Ha Hb. unfold Rminus. apply Rabs_add_le; [exact Ha|]. rewrite Rabs_Ropp. exact Hb.
Qed.

Lemma Rabs_opp_le (a A : R) : Rabs a <= A -> Rabs (- a) <= A.
Proof. rewrite Rabs_Ropp. trivial. Qed.

Lemma Rabs_mul_le (a b A B : R) : Rabs a <= A -> Rabs b <= B -> Rabs (a * b) <= A * B.
Proof.
  intros Ha Hb. rewrite Rabs_mult.
  apply Rmult_le_compat; [apply Rabs_pos|apply Rabs_pos|exact Ha|exact Hb].
Qed.

Lemma Rabs_const (c : R) : 0 <= c -> Rabs c <= c.
Proof. intros Hc. rewrite Rabs_pos_eq by exact Hc. lra. Qed.

Lemma Rabs_sin (a : R) : Rabs (sin a) <= 1.
Proof. apply Rabs_le. pose proof (SIN_bound a). lra. Qed.

Lemma Rabs_cos (a : R) : Rabs (cos a) <= 1.
Proof. apply Rabs_le. pose proof (COS_bound a). lra. Qed.

Lemma Rabs_random (k : nat) : Rabs (Math_random k) <= 1.
Proof. apply Rabs_le. pose proof (Hunit k). lra. Qed.

Lemma Rabs_cbrt (k : nat) : Rabs (ReMath.cbrt (Math_random k)) <= 1.
Proof.
  pose proof (Hunit k) as [H0 H1]. unfold ReMath.cbrt.
  destruct (Rlt_dec 0 (Math_random k)) as [Hpos|_].
  - apply Rabs_le. split; [pose proof (exp_pos (/ 3 * ln (Math_random k))); unfold Rpower; lra|].
    unfold Rpower. rewrite <- exp_0. left. apply exp_increasing.
    assert (ln (Math_random k) < 0) by (rewrite <- ln_1; apply ln_increasing; lra). lra.
  - destruct (Rlt_dec (Math_random k) 0); [lra|]. rewrite Rabs_R0. lra.
Qed.

Lemma pow_cube (a : R) : ReMath.pow a (3 * / 1) = a * a * a.
Proof.
  unfold ReMath.pow.
  assert (E : Int_part (3 * / 1) = 3%Z) by (symmetry; apply Int_part_spec; lra).
  rewrite E. destruct (Req_dec_T (3 * / 1) 3) as [_|Hn]; [|lra].
  unfold powerRZ. replace (Pos.to_nat 3) with 3%nat by reflexivity.
  simpl pow. ring.
Qed.

Lemma Rabs_cube (a : R) : Rabs a <= 1 -> Rabs (ReMath.pow a (3 * / 1)) <= 1.
Proof.
  intros Ha. rewrite pow_cube.
  replace 1 with (1 * 1 * 1) by lra. repeat apply Rabs_mul_le; exact Ha.
Qed.

Lemma Rabs_ratio (a : R) : Rabs a <= 1 -> Rabs (a * PI / PI) <= 1.
Proof.
  intros Ha. replace (a * PI / PI) with a; [exact Ha|].
  field. pose proof PI_RGT_0. lra.
Qed.

Ltac bound :=
  lazymatch goal with
  | |- Rabs (sin _) <= _ => apply Rabs_sin
  | |- Rabs (cos _) <= _ => apply Rabs_cos
  | |- Rabs (ReMath.cbrt (Math_random _)) <= _ => apply Rabs_cbrt
  | |- Rabs (ReMath.pow _ _) <= _ => apply Rabs_cube; bound
  | |- Rabs (Math_random _) <= _ => apply Rabs_random
  | |- Rabs (_ * PI / PI) <= _ => apply Rabs_ratio; bound
  | |- Rabs (_ + _) <= _ => eapply Rabs_add_le; [bound|bound]
  | |- Rabs (_ - _) <= _ => eapply Rabs_sub_le; [bound|bound]
  | |- Rabs (- _) <= _ => eapply Rabs_opp_le; bound
  | |- Rabs (_ * _) <= _ => eapply Rabs_mul_le; [bound|bound]
  | |- Rabs _ <= _ => first [eassumption | apply Rabs_const; lra]
  end.

Ltac bounded b := eapply Rle_trans; [bound|lra].

Ltac run_point H :=
  unfold bindG, random, ret in H;
  repeat match type of H with
         | context [if ?c then _ else _] => destruct c
         end;
  injection H as <- _.

Ltac expose :=
  cbn [spherical Math_sin Math_cos Math_acos Math_cbrt Math_pow Math_PI Ideal_math
       add sub mul div neg Ideal fst snd];
  literals.

Lemma sphere_point_within (n n' : nat) (p : Point) :
  sphere_point Math_random n = Some (p, n') -> within 5.5 p.
Proof.
  unfold sphere_point. intros E. run_point E. unfold within. expose.
  repeat split; bounded 5.5.
Qed.

Lemma heart_point_within (n n' : nat) (p : Point) :
  heart_point Math_random n = Some (p, n') -> within 5.5 p.
Proof.
  unfold heart_point. intros E. run_point E. unfold within. expose.
  repeat split; bounded 5.5.
Qed.

Lemma flower_point_within (n n' : nat) (p : Point) :
  flower_point Math_random n = Some (p, n') -> within 5.5 p.
Proof.
  unfold flower_point. intros E. run_point E; unfold within; expose;
    repeat split; bounded 5.5.
Qed.

Lemma saturn_point_within (n n' : nat) (p : Point) :
  saturn_point Math_random n = Some (p, n') -> within 5.5 p.
Proof.
  unfold saturn_point. intros E. run_point E; unfold within; expose;
    repeat split; bounded 5.5.
Qed.

Lemma buddha_point_within (n n' : nat) (p : Point) :
  buddha_point Math_random n = Some (p, n') -> within 5.5 p.
Proof.
  unfold buddha_point. intros E. run_point E; unfold within; expose;
    repeat split; bounded 5.5.
Qed.

Lemma galaxy_point_within (i n n' : nat) (p : Point) :
  galaxy_point Math_random i n = Some (p, n') -> within 5.5 p.
Proof.
  unfold galaxy_point, galaxy_offset. intros E. run_point E; unfold within; expose;
    repeat split; bounded 5.5.
Qed.

Lemma burst_center_within (b cx cy cz : R) :
  burst_center b = Some (cx, cy, cz) -> Rabs cx <= 2 /\ Rabs cy <= 2 /\ Rabs cz <= 2.
Proof.
  unfold burst_center. destruct (to_index b) as [k|]; [|discriminate].
  unfold burstCenters.
  do 5 (destruct k as [|k];
        [cbn [nth_error]; intros E; injection E as <- <- <-;
         cbn [neg Ideal]; literals; repeat split; apply Rabs_le; lra|]).
  cbn [nth_error]. destruct k; discriminate.
Qed.

Lemma fireworks_point_within (n n' : nat) (p : Point) :
  fireworks_point Math_random n = Some (p, n') -> within 5.5 p.
Proof.
  unfold fireworks_point. unfold bindG at 1. unfold random at 1.
  destruct (burst_center _) as [[[cx cy] cz]|] eqn:Ec; [|discriminate].
  destruct (burst_center_within _ _ _ _ Ec) as (Hx & Hy & Hz).
  intros E. run_point E; unfold within; expose; repeat split; bounded 5.5.
Qed.

Lemma index_ratio (i count : nat) :
  (i < count)%nat -> 0 <= IZR (Z.of_nat i) / IZR (Z.of_nat count) < 1.
Proof.
  intros Hlt. rewrite <- !INR_IZR_INZ.
  assert (Hc : 0 < INR count) by (apply lt_0_INR; lia).
  pose proof (pos_INR i). apply lt_INR in Hlt. split.
  - apply Rmult_le_pos; [lra|]. left. apply Rinv_0_lt_compat, Hc.
  - apply (Rmult_lt_reg_r (INR count)); [exact Hc|].
    unfold Rdiv. rewrite Rmult_assoc, Rinv_l by lra. lra.
Qed.

Lemma dna_point_within (count i n n' : nat) (p : Point) :
  (i < count)%nat -> dna_point Math_random count i n = Some (p, n') -> within 5.5 p.
Proof.
  intros Hlt. pose proof (index_ratio i count Hlt) as Hq.
  unfold dna_point.
  intros E. destruct (Nat.eqb (i mod 2) 0);
    (run_point E; unfold within; expose;
     (split; [bounded 5.5|split; [|bounded 5.5]]);
     set (q := IZR (Z.of_nat i) / IZR (Z.of_nat count)) in *;
     match goal with
     | |- context [Math_random ?k - _] => pose proof (Hunit k)
     end; apply Rabs_le; lra).
Qed.

Lemma shape_point_within (shape : ParticleShape) (count i n n' : nat) (p : Point) :
  (i < count)%nat ->
  shape_point Math_random shape count i n = Some (p, n') -> within 5.5 p.
Proof.
  intros Hlt. destruct shape; cbn [shape_point].
  - apply sphere_point_within.
  - apply heart_point_within.
  - apply flower_point_within.
  - apply saturn_point_within.
  - apply buddha_point_within.
  - apply fireworks_point_within.
  - apply galaxy_point_within.
  - apply dna_point_within, Hlt.
  - intros E. run_point E. unfold within. expose. repeat split; bounded 5.5.
Qed.

Lemma text_point_within (pixels : nat -> nat) (i n n' : nat) (p : Point) :
  text_point Math_random (textPixels pixels) i n = Some (p, n') -> within 10.525 p.
Proof.
  unfold text_point. set (found := textPixels pixels).
  destruct (Nat.ltb 0 (List.length found)).
  - destruct (nth_error found (i mod List.length found)) as [[px py]|] eqn:E;
      [|discriminate].
    assert (Hs : sampled_pixel pixels (px, py)).
    { apply textPixels_sampled. apply (nth_error_In _ _ E). }
    destruct Hs as (Hx & Hy & _ & _ & _). unfold width, height in Hx, Hy.
    apply lt_INR in Hx, Hy. pose proof (pos_INR px). pose proof (pos_INR py).
    rewrite (INR_IZR_INZ 600) in Hx. change (Z.of_nat 600) with 600%Z in Hx.
    rewrite (INR_IZR_INZ 150) in Hy. change (Z.of_nat 150) with 150%Z in Hy.
    intros Ep. run_point Ep.
    pose proof (Hunit n). pose proof (Hunit (S n)). pose proof (Hunit (S (S n))).
    unfold within, of_nat. cbn [of_Z add sub mul neg div Ideal].
    change (Z.of_nat width) with 600%Z. change (Z.of_nat height) with 150%Z.
    rewrite <- !INR_IZR_INZ. literals.
    repeat split; apply Rabs_le; lra.
  - cbv zeta.
    pose proof (Nat.mod_upper_bound i 20 ltac:(lia)) as Hcol.
    pose proof (Nat.mod_upper_bound (i / 20) 10 ltac:(lia)) as Hrow.
    generalize dependent (i mod 20)%nat. intros col Hcol.
    generalize dependent ((i / 20) mod 10)%nat. intros row Hrow.
    intros Ep. run_point Ep.
    assert (Hc : 0 <= IZR (Z.of_nat col) <= 19).
    { split; [apply IZR_le; lia|]. apply IZR_le. lia. }
    assert (Hr : 0 <= IZR (Z.of_nat row) <= 9).
    { split; [apply IZR_le; lia|]. apply IZR_le. lia. }
    unfold within, of_nat. cbn [of_Z add sub mul Ideal]. literals.
    repeat split; apply Rabs_le; lra.
Qed.

Lemma entries_within (b : R) (count : nat) (positions : list R) :
  List.length positions = (3 * count)%nat ->
  (forall k, (k < count)%nat -> exists p, holds_point positions k p /\ within b p) ->
  Forall (fun v => Rabs v <= b) positions.
Proof.
  intros Hlen Hpts. apply Forall_forall. intros v Hv.
  destruct (In_nth_error _ _ Hv) as [j Hj].
  assert (Hlt : (j < 3 * count)%nat) by (rewrite <- Hlen; apply nth_error_Some; congruence).
  pose proof (Nat.div_mod_eq j 3) as Ej.
  pose proof (Nat.mod_upper_bound j 3 ltac:(lia)) as Hr.
  destruct (Hpts (j / 3)%nat) as ([[px py] pz] & (H0 & H1 & H2) & Hx & Hy & Hz).
  { apply Nat.Div0.div_lt_upper_bound. lia. }
  cbn [fround Ideal_math fst snd] in H0, H1, H2.
  destruct (j mod 3)%nat as [|[|[|r]]] eqn:Er; try lia.
  - rewrite Nat.add_0_r in Ej. rewrite <- Ej in H0. congruence.
  - rewrite <- Ej in H1. congruence.
  - rewrite <- Ej in H2. congruence.
Qed.

Lemma fill_keeps_length (point : nat -> Gen (Point (num := R))) :
  forall todo i a n fa na,
    fill point i todo a n = Some (fa, na) -> List.length fa = List.length a.
Proof.
  induction todo as [|todo IH]; intros i a n fa na Hfill.
  - cbn [fill] in Hfill. unfold ret in Hfill. injection Hfill as <- _. reflexivity.
  - cbn [fill] in Hfill. unfold bindG in Hfill at 1.
    destruct (point i n) as [[p n1]|]; [|discriminate].
    rewrite (IH _ _ _ _ _ Hfill). apply store_point_length.
Qed.

(** X23. In real arithmetic, with [Math.random] returning numbers of [0,1),
    every coordinate of the array that [GenerateParticles] returns lies
    within 10.525 of the centre, and within 5.5 for every shape other than
    the text. *)
Theorem particles_within_reach
    (canvas_pixels : string -> nat -> nat) (shape : ParticleShape) (count : nat)
    (customText : option string) (n n' : nat) (positions : list R) :
  GenerateParticles Math_random canvas_pixels count shape customText n
  = Some (positions, n') ->
  Forall (fun v => Rabs v <= 10.525) positions
  /\ (shape <> TEXT -> Forall (fun v => Rabs v <= 5.5) positions).
Proof.
  intros Hgen. unfold GenerateParticles in Hgen.
  assert (Hfill : fill (particle_point Math_random canvas_pixels shape count customText)
                       0 count (Float32Array (count * 3)) n = Some (positions, n'))
    by (destruct shape; exact Hgen).
  assert (Hzero : List.length (Float32Array (num := R) (count * 3)) = (3 * count)%nat)
    by (unfold Float32Array; rewrite repeat_length; lia).
  assert (Hlen : List.length positions = (3 * count)%nat).
  { rewrite (fill_keeps_length _ _ _ _ _ _ _ Hfill). exact Hzero. }
  destruct (fill_entries _ count 0 _ n positions n' ltac:(rewrite Hzero; lia) Hfill)
    as [_ Hpts].
  split.
  - apply (entries_within _ count); [exact Hlen|].
    intros k Hk. destruct (Hpts k ltac:(lia)) as (nk & p & nk' & Hp & Hholds).
    exists p. split; [exact Hholds|].
    destruct shape; cbn [particle_point] in Hp;
      try (apply (shape_point_within _ _ _ _ _ _ Hk) in Hp;
           destruct p as [[px py] pz]; unfold within in *; lra).
    apply text_point_within in Hp. exact Hp.
  - intros Hshape. apply (entries_within _ count); [exact Hlen|].
    intros k Hk. destruct (Hpts k ltac:(lia)) as (nk & p & nk' & Hp & Hholds).
    exists p. split; [exact Hholds|].
    destruct shape; cbn [particle_point] in Hp;
      try (exact (shape_point_within _ _ _ _ _ _ Hk Hp)).
    contradiction Hshape. reflexivity.
Qed.

End ShapeBounds.

Lemma particles_within_reach_witness :
  exists positions n',
    GenerateParticles (fun k => / (2 + INR k))%R (fun _ _ => 0%nat) 4%nat HEART None 0%nat
    = Some (positions, n')
    /\ List.length positions = 12%nat
    /\ Forall (fun v => Rabs v <= 10.525)%R positions
    /\ (HEART <> TEXT -> Forall (fun v => Rabs v <= 5.5)%R positions).
Proof.
  eexists. eexists. split; [reflexivity|]. split; [reflexivity|].
  apply (particles_within_reach (fun k => / (2 + INR k))%R) with
    (canvas_pixels := fun _ _ => 0%nat) (count := 4%nat) (customText := None)
    (n := 0%nat) (n' := 12%nat).
  - intros k. pose proof (pos_INR k).
    assert (0 < / (2 + INR k))%R by (apply Rinv_0_lt_compat; lra).
    split; [lra|]. rewrite <- Rinv_1. apply Rinv_lt_contravar; lra.
  - reflexivity.
Defined.
